(** * viewstate/parse.py: the LOS (Limited Object Serialization) decoder

    A shallow embedding of [src/viewstate/parse.py] and the properties of it
    that the specification states.

    - Python [bytes] are lists of [byte]; [b[i:]] is a list suffix, [b[0]]
      on an empty sequence raises [IndexError].
    - Python [int] is [Z] (unbounded, no wrap-around); a [str] is its list
      of code points.
    - A raised exception is an outcome of its own: [ViewStateException]
      with its message, or a built-in exception. The parser context is a
      mutable object, so it is threaded through every call and survives a
      raise.
    - [Parser.parse] and the rules call one another; the rules are written
      over the [Parser.parse] they call, and [Parser.parse] is closed over
      them with a bound on the nesting that the input length always meets.
    - [str(x)] of a [float] is a parameter of the model.
    - The decoder is given twice: as the source is written, for an
      interpreter that never runs out of stack or memory, and once more
      with CPython's limits ([X_at]): the recursion limit, the size of a
      list and the digits of an [int] printed in decimal. The second does
      what the first does unless a limit stops it
      ([Parser_parse_at_refines]). *)

From Stdlib Require Import ZArith List String Ascii Lia Bool DecimalString.
From Stdlib.Strings Require Import Byte.
From stdpp Require Import base list strings relations.
Import ListNotations.
Open Scope Z_scope.
Set Warnings "-register-all".

(** ** Bytes *)

Abbreviation bytes := (list byte).

(** The integer a byte stands for, [b[i]] in Python. *)
Definition byte_val (c : byte) : Z := Z.of_N (Byte.to_N c).

(** The byte of an integer in [0, 255]. *)
Definition byte_of_Z (z : Z) : byte :=
  match Byte.of_N (Z.to_N z) with
  | Some c => c
  | None => x00
  end.

(** ** Python strings

    A [str] is its sequence of code points. *)

Abbreviation pystr := (list Z).

Definition str (s : string) : pystr :=
  map (fun a => Z.of_N (N_of_ascii a)) (list_ascii_of_string s).

(** [str(n)] for an [int], in decimal. *)
Definition dec (n : Z) : string := NilZero.string_of_int (Z.to_int n).

Definition hex_digit (d : Z) : ascii :=
  ascii_of_N (Z.to_N (if d <? 10 then 48 + d else 87 + d)).

(** ["{:02x}".format(n)] for [0 <= n < 256]. *)
Definition hex2 (n : Z) : string :=
  String (hex_digit (n / 16)) (String (hex_digit (n mod 16)) EmptyString).

(** ** Exceptions and outcomes *)

(** The exceptions that arise while the module runs: its own
    [ViewStateException] with its message, and the built-in ones, those an
    unchecked operation raises ([IndexError], [TypeError], [OverflowError]),
    the one the module catches wherever it can arise ([KeyError]) and those
    the interpreter raises at its limits ([ValueError], [MemoryError],
    [RecursionError]). *)
Inductive exn :=
| ViewStateException (msg : string)
| IndexError
| TypeError
| OverflowError
| KeyError
| ValueError
| MemoryError
| RecursionError.

(** What a call does: it returns, it raises, or the model's recursion budget
    ran out before it did either. *)
Inductive outcome (A : Type) :=
| Return (a : A)
| Raise (e : exn)
| OutOfFuel.
Arguments Return {A} a.
Arguments Raise {A} e.
Arguments OutOfFuel {A}.

(** ** Helper functions *)

(** The [while True] loop of [read_7bit_encoded_int] (and of
    [Integer.parse], which repeats it with another message): [b] is the
    bytes from index [i] on, [n] and [shift] are the loop's variables. *)
Fixpoint varint_loop (msg : string) (b : bytes) (n shift : Z)
  : outcome (Z * bytes) :=
  match b with
  | [] => Raise (ViewStateException msg)
  | tmp :: b' =>
      let n := Z.lor n (Z.shiftl (Z.land (byte_val tmp) 0x7F) shift) in
      if Z.land (byte_val tmp) 0x80 =? 0
      then Return (n, b')
      else varint_loop msg b' n (shift + 7)
  end.

Definition read_7bit_encoded_int (b : bytes) : outcome (Z * bytes) :=
  varint_loop "Unexpected end of data while reading 7-bit encoded int" b 0 0.

(** [int.from_bytes(bs, byteorder='little', signed=False)]. *)
Fixpoint from_bytes_little (bs : bytes) : Z :=
  match bs with
  | [] => 0
  | c :: bs' => byte_val c + 256 * from_bytes_little bs'
  end.

Definition from_bytes_little_signed (bs : bytes) : Z :=
  let u := from_bytes_little bs in
  let w := 8 * Z.of_nat (length bs) in
  if u <? 2 ^ (w - 1) then u else u - 2 ^ w.

Definition read_int16 (b : bytes) : outcome (Z * bytes) :=
  if (length b <? 2)%nat
  then Raise (ViewStateException "Not enough bytes for int16")
  else Return (from_bytes_little_signed (take 2 b), drop 2 b).

Definition read_int32 (b : bytes) : outcome (Z * bytes) :=
  if (length b <? 4)%nat
  then Raise (ViewStateException "Not enough bytes for int32")
  else Return (from_bytes_little (take 4 b), drop 4 b).

Definition read_int64 (b : bytes) : outcome (Z * bytes) :=
  if (length b <? 8)%nat
  then Raise (ViewStateException "Not enough bytes for int64")
  else Return (from_bytes_little (take 8 b), drop 8 b).

(** A Python [float] is an IEEE 754 binary64: not a number, an infinity, or
    the finite value [(-1)^neg * m * 2^e]. *)
Inductive pyfloat :=
| FNaN
| FInf (neg : bool)
| FFinite (neg : bool) (m e : Z).

(** [struct.unpack('<d', bs)[0]]: sign bit 63, exponent bits 52..62,
    fraction bits 0..51. *)
Definition unpack_d (bs : bytes) : pyfloat :=
  let bits := from_bytes_little bs in
  let neg := Z.testbit bits 63 in
  let ex := Z.land (Z.shiftr bits 52) 0x7FF in
  let frac := Z.land bits (2 ^ 52 - 1) in
  if ex =? 0x7FF then (if frac =? 0 then FInf neg else FNaN)
  else if ex =? 0 then FFinite neg frac (-1074)
  else FFinite neg (2 ^ 52 + frac) (ex - 1075).

(** [struct.unpack('<f', bs)[0]]: a binary32 (sign bit 31, exponent bits
    23..30, fraction bits 0..22), widened exactly. *)
Definition unpack_f (bs : bytes) : pyfloat :=
  let bits := from_bytes_little bs in
  let neg := Z.testbit bits 31 in
  let ex := Z.land (Z.shiftr bits 23) 0xFF in
  let frac := Z.land bits (2 ^ 23 - 1) in
  if ex =? 0xFF then (if frac =? 0 then FInf neg else FNaN)
  else if ex =? 0 then FFinite neg frac (-149)
  else FFinite neg (2 ^ 23 + frac) (ex - 150).

Definition read_double (b : bytes) : outcome (pyfloat * bytes) :=
  if (length b <? 8)%nat
  then Raise (ViewStateException "Not enough bytes for double")
  else Return (unpack_d (take 8 b), drop 8 b).

Definition read_float (b : bytes) : outcome (pyfloat * bytes) :=
  if (length b <? 4)%nat
  then Raise (ViewStateException "Not enough bytes for float")
  else Return (unpack_f (take 4 b), drop 4 b).

(** ** Built-in conversions to [str] *)

Definition is_continuation (c : Z) : bool := (0x80 <=? c) && (c <=? 0xBF).

(** [bs.decode('utf-8', errors='replace')]: a well-formed sequence gives its
    code point; an ill-formed one gives U+FFFD for its longest prefix that
    starts a well-formed sequence (one byte when none does), and decoding
    goes on after it. *)
Fixpoint utf8_decode_replace (bs : bytes) : pystr :=
  match bs with
  | [] => []
  | c0 :: t0 =>
    let ch := byte_val c0 in
    if ch <? 0x80 then ch :: utf8_decode_replace t0
    else if ch <? 0xC2 then 0xFFFD :: utf8_decode_replace t0
    else if ch <? 0xE0 then
      match t0 with
      | [] => [0xFFFD]
      | c1 :: t1 =>
        let ch2 := byte_val c1 in
        if is_continuation ch2
        then (Z.shiftl ch 6 + ch2 - (Z.shiftl 0xC0 6 + 0x80))
               :: utf8_decode_replace t1
        else 0xFFFD :: utf8_decode_replace t0
      end
    else if ch <? 0xF0 then
      match t0 with
      | [] => [0xFFFD]
      | c1 :: t1 =>
        let ch2 := byte_val c1 in
        if negb (is_continuation ch2)
           || (if ch2 <? 0xA0 then ch =? 0xE0 else ch =? 0xED)
        then 0xFFFD :: utf8_decode_replace t0
        else
          match t1 with
          | [] => [0xFFFD]
          | c2 :: t2 =>
            let ch3 := byte_val c2 in
            if is_continuation ch3
            then (Z.shiftl ch 12 + Z.shiftl ch2 6 + ch3
                  - (Z.shiftl 0xE0 12 + Z.shiftl 0x80 6 + 0x80))
                   :: utf8_decode_replace t2
            else 0xFFFD :: utf8_decode_replace t1
          end
      end
    else if ch <? 0xF5 then
      match t0 with
      | [] => [0xFFFD]
      | c1 :: t1 =>
        let ch2 := byte_val c1 in
        if negb (is_continuation ch2)
           || (if ch2 <? 0x90 then ch =? 0xF0 else ch =? 0xF4)
        then 0xFFFD :: utf8_decode_replace t0
        else
          match t1 with
          | [] => [0xFFFD]
          | c2 :: t2 =>
            let ch3 := byte_val c2 in
            if negb (is_continuation ch3)
            then 0xFFFD :: utf8_decode_replace t1
            else
              match t2 with
              | [] => [0xFFFD]
              | c3 :: t3 =>
                let ch4 := byte_val c3 in
                if is_continuation ch4
                then (Z.shiftl ch 18 + Z.shiftl ch2 12 + Z.shiftl ch3 6 + ch4
                      - (Z.shiftl 0xF0 18 + Z.shiftl 0x80 12
                         + Z.shiftl 0x80 6 + 0x80))
                       :: utf8_decode_replace t3
                else 0xFFFD :: utf8_decode_replace t2
              end
          end
      end
    else 0xFFFD :: utf8_decode_replace t0
  end.

(** One byte inside [repr(bs)]. *)
Definition bytes_repr_char (quote : Z) (c : byte) : pystr :=
  let v := byte_val c in
  if (v =? quote) || (v =? 0x5C) then [0x5C; v]
  else if v =? 0x09 then str "\t"
  else if v =? 0x0A then str "\n"
  else if v =? 0x0D then str "\r"
  else if (v <? 0x20) || (0x7F <=? v) then str ("\x" +:+ hex2 v)
  else [v].

(** [str(bs)] for a [bytes] object, which is [repr(bs)]: [b'...'], in
    double quotes when [bs] has a single quote and no double quote. *)
Definition bytes_repr (bs : bytes) : pystr :=
  let squote := existsb (fun c => byte_val c =? 0x27) bs in
  let dquote := existsb (fun c => byte_val c =? 0x22) bs in
  let quote := if squote && negb dquote then 0x22 else 0x27 in
  [0x62; quote] ++ flat_map (bytes_repr_char quote) bs ++ [quote].

(** ** Values

    What a parser returns: [None], [bool], [int], [float], [str],
    [datetime] (as microseconds since 0001-01-01 00:00), tuples, lists and
    dicts. A [dict] keeps its entries in insertion order. *)
Inductive pyvalue :=
| VNone
| VBool (b : bool)
| VInt (n : Z)
| VFloat (x : pyfloat)
| VStr (s : pystr)
| VDateTime (us : Z)
| VTuple (items : list pyvalue)
| VList (items : list pyvalue)
| VDict (items : list (pyvalue * pyvalue)).

(** Microseconds from 0001-01-01 00:00 to [datetime.max], plus one. *)
Definition datetime_end : Z := 3652059 * 86400 * 1000000.

(** [datetime(1, 1, 1) + timedelta(microseconds=ticks // 10)], which raises
    [OverflowError] past year 9999. *)
Definition parse_dotnet_datetime (ticks : Z) : outcome pyvalue :=
  let us := ticks / 10 in
  if us <? datetime_end then Return (VDateTime us) else Raise OverflowError.

Definition COLORS (i : Z) : option string :=
  match i with
  | 0 => Some "Black"
  | 1 => Some "White"
  | 2 => Some "Red"
  | 3 => Some "Green"
  | 4 => Some "Blue"
  | _ => None
  end%string.

(** *** Dict keys *)

(** [hash(v)] succeeds: lists and dicts are unhashable, a tuple is hashable
    when its items are. *)
Fixpoint hashable (v : pyvalue) : bool :=
  match v with
  | VList _ | VDict _ => false
  | VTuple items => forallb hashable items
  | _ => true
  end.

(** The number a [bool], [int] or [float] stands for; a finite one is held
    scaled by [2^1074], which makes every finite float an integer. *)
Inductive num :=
| NumFinite (q : Z)
| NumInf (neg : bool)
| NumNaN.

Definition num_of (v : pyvalue) : option num :=
  match v with
  | VBool b => Some (NumFinite ((if b then 1 else 0) * 2 ^ 1074))
  | VInt n => Some (NumFinite (n * 2 ^ 1074))
  | VFloat FNaN => Some NumNaN
  | VFloat (FInf neg) => Some (NumInf neg)
  | VFloat (FFinite neg m e) =>
      Some (NumFinite ((if neg then - m else m) * 2 ^ (e + 1074)))
  | _ => None
  end.

Definition num_eq (x y : num) : bool :=
  match x, y with
  | NumFinite p, NumFinite q => p =? q
  | NumInf s, NumInf t => Bool.eqb s t
  | _, _ => false
  end.

(** [a == b] for two hashable values that are distinct objects: numbers
    compare by value across [bool], [int] and [float] (a NaN equals
    nothing), strings and datetimes among themselves, tuples item by
    item. *)
Fixpoint key_eq (a b : pyvalue) : bool :=
  match a, b with
  | VNone, VNone => true
  | VStr s, VStr t => bool_decide (s = t)
  | VDateTime x, VDateTime y => x =? y
  | VTuple xs, VTuple ys =>
      (fix items_eq (xs ys : list pyvalue) : bool :=
         match xs, ys with
         | [], [] => true
         | x :: xs', y :: ys' => key_eq x y && items_eq xs' ys'
         | _, _ => false
         end) xs ys
  | _, _ =>
      match num_of a, num_of b with
      | Some x, Some y => num_eq x y
      | _, _ => false
      end
  end.

(** The entries of [d] after [d[k] = v]: an entry whose key equals [k]
    keeps its key and its place and takes [v], otherwise [(k, v)] goes last. *)
Fixpoint dict_set (d : list (pyvalue * pyvalue)) (k v : pyvalue)
  : list (pyvalue * pyvalue) :=
  match d with
  | [] => [(k, v)]
  | (k0, v0) :: d' =>
      if key_eq k0 k then (k0, v) :: d' else (k0, v0) :: dict_set d' k v
  end.

(** [d[k] = v] as a statement: [TypeError] on an unhashable key. *)
Definition dict_setitem (d : list (pyvalue * pyvalue)) (k v : pyvalue)
  : outcome (list (pyvalue * pyvalue)) :=
  if hashable k then Return (dict_set d k v) else Raise TypeError.

(** ** Parser context *)

(** The two tables of [ParserContext]; only strings are ever stored. *)
Record ParserContext := {
  type_table : list pystr;
  string_table : list pystr
}.

(** [ParserContext()]. *)
Definition new_context : ParserContext :=
  {| type_table := []; string_table := [] |}.

(** A computation that reads and updates the context: the context comes
    back with every outcome, a raise included. *)
Definition M (A : Type) : Type := ParserContext -> outcome A * ParserContext.

Definition ret {A} (a : A) : M A := fun ctx => (Return a, ctx).

Definition raise {A} (e : exn) : M A := fun ctx => (Raise e, ctx).

Definition lift {A} (o : outcome A) : M A := fun ctx => (o, ctx).

Definition bind {A B} (m : M A) (k : A -> M B) : M B :=
  fun ctx =>
    match m ctx with
    | (Return a, ctx') => k a ctx'
    | (Raise e, ctx') => (Raise e, ctx')
    | (OutOfFuel, ctx') => (OutOfFuel, ctx')
    end.

Notation "'let*' p ':=' m 'in' k" := (bind m (fun p => k))
  (at level 10, p pattern, m at level 100, k at level 200).

(** [try: m  except IndexError: raise ViewStateException(msg)]. *)
Definition except_IndexError {A} (m : M A) (msg : string) : M A :=
  fun ctx =>
    match m ctx with
    | (Raise IndexError, ctx') => (Raise (ViewStateException msg), ctx')
    | r => r
    end.

(** [l[idx]] for a list: a negative index counts from the end. *)
Definition list_getitem {A} (l : list A) (idx : Z) : outcome A :=
  let i := if idx <? 0 then idx + Z.of_nat (length l) else idx in
  if i <? 0 then Raise IndexError
  else match l !! Z.to_nat i with
       | Some a => Return a
       | None => Raise IndexError
       end.

Definition add_type (t : pystr) : M Z :=
  fun ctx =>
    let tbl := type_table ctx ++ [t] in
    (Return (Z.of_nat (length tbl) - 1),
     {| type_table := tbl; string_table := string_table ctx |}).

Definition get_type (idx : Z) : M pystr :=
  fun ctx => (list_getitem (type_table ctx) idx, ctx).

Definition add_string (s : pystr) : M Z :=
  fun ctx =>
    let tbl := string_table ctx ++ [s] in
    (Return (Z.of_nat (length tbl) - 1),
     {| type_table := type_table ctx; string_table := tbl |}).

Definition get_string (idx : Z) : M pystr :=
  fun ctx => (list_getitem (string_table ctx) idx, ctx).

(** ** Parsers *)

(** A [parse(b, ctx)] method: the value and the bytes left. *)
Definition parser := bytes -> M (pyvalue * bytes).

(** [b[i]] for [bytes] and [i >= 0]. *)
Definition bytes_getitem (b : bytes) (i : nat) : outcome Z :=
  match b !! i with
  | Some c => Return (byte_val c)
  | None => Raise IndexError
  end.

(** [if b[0] != marker: raise ViewStateException("Invalid marker for ...")]. *)
Definition check_marker (b : bytes) (marker : Z) (name : string) : M unit :=
  let* c := lift (bytes_getitem b 0) in
  if c =? marker then ret tt
  else raise (ViewStateException ("Invalid marker for " +:+ name)).

Definition Noop_parse : parser := fun b =>
  ret (VNone, drop 1 b).

Definition Const_parse (const : pyvalue) : parser := fun b =>
  ret (const, drop 1 b).

Definition Integer_parse : parser := fun b =>
  let* _ := check_marker b 0x02 "Integer" in
  let b := drop 1 b in
  let* (n, b) := lift (varint_loop
                        "Unexpected end of data while parsing integer" b 0 0) in
  ret (VInt n, b).

Definition ByteValue_parse : parser := fun b =>
  let* _ := check_marker b 0x03 "Byte" in
  let* c := lift (bytes_getitem b 1) in
  ret (VInt c, drop 2 b).

Definition CharValue_parse : parser := fun b =>
  let* _ := check_marker b 0x04 "Char" in
  let* c := lift (bytes_getitem b 1) in
  ret (VStr [c], drop 2 b).

(** [StringValue.parse], which always returns a [str]. *)
Definition StringValue_parse (b : bytes) : M (pystr * bytes) :=
  let* _ := check_marker b 0x05 "String" in
  let b := drop 1 b in
  let* (n, b) := lift (read_7bit_encoded_int b) in
  if n <? 0 then raise (ViewStateException "Invalid string length")
  else if n =? 0 then ret ([], b)
  else if Z.of_nat (length b) <? n
  then raise (ViewStateException "Not enough bytes for string")
  else ret (utf8_decode_replace (take (Z.to_nat n) b), drop (Z.to_nat n) b).

Definition DateTimeValue_parse : parser := fun b =>
  let* _ := check_marker b 0x06 "DateTime" in
  let b := drop 1 b in
  let* (ticks, b) := lift (read_int64 b) in
  let* dt := lift (parse_dotnet_datetime ticks) in
  ret (dt, b).

Definition DoubleValue_parse : parser := fun b =>
  let* _ := check_marker b 0x07 "Double" in
  let b := drop 1 b in
  let* (val, b) := lift (read_double b) in
  ret (VFloat val, b).

Definition FloatValue_parse : parser := fun b =>
  let* _ := check_marker b 0x08 "Float" in
  let b := drop 1 b in
  let* (val, b) := lift (read_float b) in
  ret (VFloat val, b).

Definition RGBA_parse : parser := fun b =>
  let* _ := check_marker b 0x09 "RGBA" in
  let b := drop 1 b in
  let* (val, b) := lift (read_int32 b) in
  let a := Z.land (Z.shiftr val 24) 0xFF in
  let r := Z.land (Z.shiftr val 16) 0xFF in
  let g := Z.land (Z.shiftr val 8) 0xFF in
  let blue := Z.land val 0xFF in
  ret (VStr (str ("RGBA(" +:+ dec r +:+ ", " +:+ dec g +:+ ", "
                    +:+ dec blue +:+ ", " +:+ dec a +:+ ")")), b).

Definition KnownColor_parse : parser := fun b =>
  let* _ := check_marker b 0x0A "KnownColor" in
  let b := drop 1 b in
  let* (color_index, b) := lift (read_7bit_encoded_int b) in
  let color := match COLORS color_index with
               | Some c => c
               | None => "Unknown"%string
               end in
  ret (VStr (str ("KnownColor: " +:+ color)), b).

(** [TypeValue.parse], which always returns a [str]. *)
Definition TypeValue_parse (b : bytes) : M (pystr * bytes) :=
  let* _ := check_marker b 0x19 "Type" in
  let b := drop 1 b in
  let* c := lift (bytes_getitem b 0) in
  if c =? 0x2B then
    let b := drop 1 b in
    let* (idx, b) := lift (read_7bit_encoded_int b) in
    let* type_ref := except_IndexError (get_type idx)
                       "Invalid type reference index" in
    ret (type_ref, b)
  else
    let* (type_name, b) := StringValue_parse b in
    let* _ := add_type type_name in
    ret (type_name, b).

(** [EnumValue.parse] where every [int] can be printed;
    [EnumValue_parse_at] is the rule under a limit on digits. *)
Definition EnumValue_parse : parser := fun b =>
  let* _ := check_marker b 0x0B "Enum" in
  let b := drop 1 b in
  let* (type_ref, b) := TypeValue_parse b in
  let* (enum_val, b) := lift (read_7bit_encoded_int b) in
  ret (VStr (str "Enum(" ++ type_ref ++ str (", " +:+ dec enum_val +:+ ")")),
       b).

Definition ColorEmpty_parse : parser := fun b =>
  let* _ := check_marker b 0x0C "Color.Empty" in
  ret (VStr (str "Color.Empty"), drop 1 b).

Definition PairValue_parse (Parser_parse : parser) : parser := fun b =>
  let* _ := check_marker b 0x0F "Pair" in
  let b := drop 1 b in
  let* (first, b) := Parser_parse b in
  let* (second, b) := Parser_parse b in
  ret (VTuple [first; second], b).

Definition TripletValue_parse (Parser_parse : parser) : parser := fun b =>
  let* _ := check_marker b 0x10 "Triplet" in
  let b := drop 1 b in
  let* (first, b) := Parser_parse b in
  let* (second, b) := Parser_parse b in
  let* (third, b) := Parser_parse b in
  ret (VTuple [first; second; third], b).

(** [for _ in range(n): val, b = Parser.parse(b, ctx); arr.append(val)], the
    loop of [TypedArray.parse] and of [ListValue.parse]. *)
Fixpoint values_loop (Parser_parse : parser) (n : nat) (b : bytes)
    (arr : list pyvalue) : M (list pyvalue * bytes) :=
  match n with
  | O => ret (arr, b)
  | S n' =>
      let* (val, b) := Parser_parse b in
      values_loop Parser_parse n' b (arr ++ [val])
  end.

Definition TypedArray_parse (Parser_parse : parser) : parser := fun b =>
  let* _ := check_marker b 0x14 "TypedArray" in
  let b := drop 1 b in
  let* (type_ref, b) := Parser_parse b in
  let* (length, b) := lift (read_7bit_encoded_int b) in
  let* (arr, b) := values_loop Parser_parse (Z.to_nat length) b [] in
  ret (VList arr, b).

(** [for _ in range(n): s, b = StringValue.parse(b, ctx); arr.append(s)]. *)
Fixpoint strings_loop (n : nat) (b : bytes) (arr : list pyvalue)
  : M (list pyvalue * bytes) :=
  match n with
  | O => ret (arr, b)
  | S n' =>
      let* (s, b) := StringValue_parse b in
      strings_loop n' b (arr ++ [VStr s])
  end.

Definition StringArray_parse : parser := fun b =>
  let* _ := check_marker b 0x15 "StringArray" in
  let b := drop 1 b in
  let* (n, b) := lift (read_7bit_encoded_int b) in
  let* (arr, b) := strings_loop (Z.to_nat n) b [] in
  ret (VList arr, b).

Definition ListValue_parse (Parser_parse : parser) : parser := fun b =>
  let* _ := check_marker b 0x16 "List" in
  let b := drop 1 b in
  let* (n, b) := lift (read_7bit_encoded_int b) in
  let* (lst, b) := values_loop Parser_parse (Z.to_nat n) b [] in
  ret (VList lst, b).

(** The loop of [DictValue.parse]: a key, a value, then [d[key] = value]. *)
Fixpoint dict_loop (Parser_parse : parser) (n : nat) (b : bytes)
    (d : list (pyvalue * pyvalue)) : M (list (pyvalue * pyvalue) * bytes) :=
  match n with
  | O => ret (d, b)
  | S n' =>
      let* (key, b) := Parser_parse b in
      let* (value, b) := Parser_parse b in
      let* d := lift (dict_setitem d key value) in
      dict_loop Parser_parse n' b d
  end.

Definition DictValue_parse (Parser_parse : parser) : parser := fun b =>
  let* marker := lift (bytes_getitem b 0) in
  let b := drop 1 b in
  let* (n, b) := lift (read_7bit_encoded_int b) in
  let* (d, b) := dict_loop Parser_parse (Z.to_nat n) b [] in
  ret (VDict d, b).

Definition UnitEmpty_parse : parser := fun b =>
  let* _ := check_marker b 0x1C "Unit.Empty" in
  ret (VStr (str "Unit(0, 0)"), drop 1 b).

Definition IndexedString_parse : parser := fun b =>
  let* token := lift (bytes_getitem b 0) in
  let b := drop 1 b in
  if token =? 0x1F then
    match b with
    | [] => raise (ViewStateException "No data for IndexedString reference")
    | c :: b' =>
        let idx := byte_val c in
        let b := b' in
        let* s := except_IndexError (get_string idx)
                    "Invalid string reference index" in
        ret (VStr s, b)
    end
  else
    let* (s, b) := StringValue_parse b in
    let* _ := add_string s in
    ret (VStr s, b).

Definition FormattedString_parse (Parser_parse : parser) : parser := fun b =>
  let* _ := check_marker b 0x28 "FormattedString" in
  let b := drop 1 b in
  let* (type_ref, b) := Parser_parse b in
  let* (s, b) := StringValue_parse b in
  match type_ref with
  | VNone => ret (VNone, b)
  | _ => ret (VStr (str "SerialisedObject(" ++ s ++ str ")"), b)
  end.

Definition BinaryFormatted_parse : parser := fun b =>
  let* _ := check_marker b 0x32 "BinaryFormatted" in
  let b := drop 1 b in
  let* (n, b) := lift (read_7bit_encoded_int b) in
  if Z.of_nat (length b) <? n
  then raise (ViewStateException
                "Not enough data for binary formatted object")
  else
    let val := take (Z.to_nat n) b in
    ret (VStr (str "BinaryFormatted(" ++ bytes_repr val ++ str ")"),
         drop (Z.to_nat n) b).

(** The loop of [SparseArray.parse]; [length] is the declared full length. *)
Fixpoint sparse_loop (Parser_parse : parser) (length : Z) (n : nat)
    (b : bytes) (arr : list pyvalue) : M (list pyvalue * bytes) :=
  match n with
  | O => ret (arr, b)
  | S n' =>
      let* (idx, b) := lift (read_7bit_encoded_int b) in
      if (idx <? 0) || (length <=? idx)
      then raise (ViewStateException "Invalid index in sparse array")
      else
        let* (val, b) := Parser_parse b in
        sparse_loop Parser_parse length n' b (<[Z.to_nat idx := val]> arr)
  end.

(** [SparseArray.parse] where [[None] * length] can always be allocated;
    [SparseArray_parse_at] is the rule where it cannot. *)
Definition SparseArray_parse (Parser_parse : parser) : parser := fun b =>
  let* _ := check_marker b 0x3C "SparseArray" in
  let b := drop 1 b in
  let* (type_ref, b) := Parser_parse b in
  let* (length, b) := lift (read_7bit_encoded_int b) in
  let* (num_non_null, b) := lift (read_7bit_encoded_int b) in
  let arr := replicate (Z.to_nat length) VNone in
  let* (arr, b) :=
    sparse_loop Parser_parse length (Z.to_nat num_non_null) b arr in
  ret (VList arr, b).

(** The classes that carry a [marker] attribute, which [ParserMeta] puts in
    [Parser.registry]. *)
Inductive parser_cls :=
| Noop | NoneConst | EmptyConst | ZeroConst | TrueConst | FalseConst
| Integer | ByteValue | CharValue | StringValue | DateTimeValue
| DoubleValue | FloatValue | RGBA | KnownColor | EnumValue | ColorEmpty
| PairValue | TripletValue | TypedArray | StringArray | ListValue
| DictValue | TypeValue | UnitValue | UnitEmpty | IndexedString
| FormattedString | BinaryFormatted | SparseArray.

(** [Parser.registry], by marker. *)
Definition registry (marker : byte) : option parser_cls :=
  match marker with
  | x01 => Some Noop
  | x64 => Some NoneConst
  | x65 => Some EmptyConst
  | x66 => Some ZeroConst
  | x67 => Some TrueConst
  | x68 => Some FalseConst
  | x02 => Some Integer
  | x03 => Some ByteValue
  | x04 => Some CharValue
  | x05 => Some StringValue
  | x06 => Some DateTimeValue
  | x07 => Some DoubleValue
  | x08 => Some FloatValue
  | x09 => Some RGBA
  | x0a => Some KnownColor
  | x0b => Some EnumValue
  | x0c => Some ColorEmpty
  | x0f => Some PairValue
  | x10 => Some TripletValue
  | x14 => Some TypedArray
  | x15 => Some StringArray
  | x16 => Some ListValue
  | x17 | x18 => Some DictValue
  | x19 => Some TypeValue
  | x1b => Some UnitValue
  | x1c => Some UnitEmpty
  | x1e | x1f => Some IndexedString
  | x28 => Some FormattedString
  | x32 => Some BinaryFormatted
  | x3c => Some SparseArray
  | _ => None
  end.

(** The marker that a rule compares the first byte it is given with, and
    the name in the message it raises when they differ; [None] for the
    rules that make no such comparison. *)
Definition checked_marker (cls : parser_cls) : option (Z * string) :=
  match cls with
  | Noop | NoneConst | EmptyConst | ZeroConst | TrueConst | FalseConst
  | DictValue | IndexedString => None
  | Integer => Some (0x02, "Integer"%string)
  | ByteValue => Some (0x03, "Byte"%string)
  | CharValue => Some (0x04, "Char"%string)
  | StringValue => Some (0x05, "String"%string)
  | DateTimeValue => Some (0x06, "DateTime"%string)
  | DoubleValue => Some (0x07, "Double"%string)
  | FloatValue => Some (0x08, "Float"%string)
  | RGBA => Some (0x09, "RGBA"%string)
  | KnownColor => Some (0x0A, "KnownColor"%string)
  | EnumValue => Some (0x0B, "Enum"%string)
  | ColorEmpty => Some (0x0C, "Color.Empty"%string)
  | PairValue => Some (0x0F, "Pair"%string)
  | TripletValue => Some (0x10, "Triplet"%string)
  | TypedArray => Some (0x14, "TypedArray"%string)
  | StringArray => Some (0x15, "StringArray"%string)
  | ListValue => Some (0x16, "List"%string)
  | TypeValue => Some (0x19, "Type"%string)
  | UnitValue => Some (0x1B, "Unit"%string)
  | UnitEmpty => Some (0x1C, "Unit.Empty"%string)
  | FormattedString => Some (0x28, "FormattedString"%string)
  | BinaryFormatted => Some (0x32, "BinaryFormatted"%string)
  | SparseArray => Some (0x3C, "SparseArray"%string)
  end.

(** The result of [parse_viewstate]. *)
Record ViewState := {
  value : pyvalue;
  macEnabled : bool;
  raw : bytes
}.

(** An instance of the parameter below for closed examples: none of them
    decodes a Unit, so none depends on it. *)
Definition float_str_unused : pyfloat -> pystr := fun _ => [].

Section Decoder.

(** [str(x)] for a [float], the shortest decimal that reads back as [x]:
    a parameter of the model. Only [UnitValue.parse] formats a float. *)
Variable float_str : pyfloat -> pystr.

Definition UnitValue_parse : parser := fun b =>
  let* _ := check_marker b 0x1B "Unit" in
  let b := drop 1 b in
  let* (dbl, b) := lift (read_double b) in
  let* (int_val, b) := lift (read_int32 b) in
  ret (VStr (str "Unit(" ++ float_str dbl
             ++ str (", " +:+ dec int_val +:+ ")")), b).

(** [parser_cls.parse(b, ctx)]; [Parser_parse] is what the rule calls as
    [Parser.parse]. *)
Definition cls_parse (Parser_parse : parser) (cls : parser_cls) : parser :=
  match cls with
  | Noop => Noop_parse
  | NoneConst => Const_parse VNone
  | EmptyConst => Const_parse (VStr [])
  | ZeroConst => Const_parse (VInt 0)
  | TrueConst => Const_parse (VBool true)
  | FalseConst => Const_parse (VBool false)
  | Integer => Integer_parse
  | ByteValue => ByteValue_parse
  | CharValue => CharValue_parse
  | StringValue => fun b => let* (s, b) := StringValue_parse b in
                            ret (VStr s, b)
  | DateTimeValue => DateTimeValue_parse
  | DoubleValue => DoubleValue_parse
  | FloatValue => FloatValue_parse
  | RGBA => RGBA_parse
  | KnownColor => KnownColor_parse
  | EnumValue => EnumValue_parse
  | ColorEmpty => ColorEmpty_parse
  | PairValue => PairValue_parse Parser_parse
  | TripletValue => TripletValue_parse Parser_parse
  | TypedArray => TypedArray_parse Parser_parse
  | StringArray => StringArray_parse
  | ListValue => ListValue_parse Parser_parse
  | DictValue => DictValue_parse Parser_parse
  | TypeValue => fun b => let* (t, b) := TypeValue_parse b in
                          ret (VStr t, b)
  | UnitValue => UnitValue_parse
  | UnitEmpty => UnitEmpty_parse
  | IndexedString => IndexedString_parse
  | FormattedString => FormattedString_parse Parser_parse
  | BinaryFormatted => BinaryFormatted_parse
  | SparseArray => SparseArray_parse Parser_parse
  end.

(** The body of [Parser.parse]: the marker is read, not consumed, and the
    registered class gets the whole of [b]. *)
Definition Parser_parse_body (Parser_parse : parser) : parser := fun b =>
  match b with
  | [] => raise (ViewStateException "No data to parse")
  | marker :: _ =>
      match registry marker with
      | None => raise (ViewStateException
                         ("Unknown marker 0x" +:+ hex2 (byte_val marker)))
      | Some parser_cls => cls_parse Parser_parse parser_cls b
      end
  end.

(** [Parser.parse] with at most [fuel] calls of it nested in one another. *)
Fixpoint Parser_parse_fuel (fuel : nat) : parser :=
  match fuel with
  | O => fun _ ctx => (OutOfFuel, ctx)
  | S fuel' => Parser_parse_body (Parser_parse_fuel fuel')
  end.

(** [Parser.parse] on a stack without limit: every nested call gets fewer
    bytes than its caller, so one level of nesting per byte, and one more,
    is enough (see [Parser_parse_fuel_enough]). [Parser_parse_at] is
    [Parser.parse] under the recursion limit. *)
Definition Parser_parse : parser := fun b =>
  Parser_parse_fuel (S (length b)) b.

Definition parse_viewstate (b : bytes) : outcome ViewState :=
  match b with
  | xff :: x01 :: b =>
      let ctx := new_context in
      match fst (Parser_parse b ctx) with
      | Return (value, remain) =>
          let len := length remain in
          if (len =? 0)%nat
          then Return {| value := value; macEnabled := false; raw := b |}
          else if (len =? 20)%nat || (len =? 32)%nat
          then Return {| value := value; macEnabled := true; raw := b |}
          else Raise (ViewStateException
                        ("Invalid trailing bytes length: "
                           +:+ dec (Z.of_nat len)))
      | Raise e => Raise e
      | OutOfFuel => OutOfFuel
      end
  | _ => Raise (ViewStateException "Not a valid ASP.NET 2.0 LOS stream")
  end.

End Decoder.

(** ** The interpreter's limits

    The definitions above are the decoder on an interpreter that always has
    stack and memory left and prints every [int]. CPython has three limits
    that input can reach, and the definitions below are the same source
    with them:
    - a call of a function defined in Python needs a frame, and raises
      [RecursionError] when the recursion limit allows none; the frames
      counted are those of the functions of the source, one for each call
      in progress, and what an interpreter charges besides for a built-in
      call in progress is left out;
    - [[None] * n] raises [OverflowError] when [n] exceeds [sys.maxsize]
      and [MemoryError] when the list cannot be allocated;
    - formatting an [int] in decimal raises [ValueError] when it has more
      digits than [sys.get_int_max_str_digits()], unless that is 0.
    Allocations whose size is bounded by the size of the input are taken to
    succeed. A function [X_at f] is the body of [X] running in a frame above
    which the interpreter allows [f] more. *)

Record interpreter := {
  (** [str(x)] for a [float]. *)
  str_of_float : pyfloat -> pystr;
  (** Whether a list of that many items can be allocated now. *)
  can_allocate : Z -> bool;
  (** [sys.get_int_max_str_digits()]: 4300 unless set otherwise, 0 for no
      limit. *)
  int_max_str_digits : Z
}.

(** [sys.maxsize] of a 64-bit CPython. *)
Definition maxsize : Z := 2 ^ 63 - 1.

(** [[v] * n]. *)
Definition list_repeat (py : interpreter) (v : pyvalue) (n : Z)
  : outcome (list pyvalue) :=
  if n <=? 0 then Return []
  else if maxsize <? n then Raise OverflowError
  else if can_allocate py n then Return (replicate (Z.to_nat n) v)
  else Raise MemoryError.

(** ["{}".format(n)] for an [int] [n >= 0]. *)
Definition int_str (py : interpreter) (n : Z) : outcome string :=
  let digits := Z.of_nat (String.length (dec n)) in
  if (0 <? int_max_str_digits py) && (int_max_str_digits py <? digits)
  then Raise ValueError
  else Return (dec n).

(** A call, from a frame above which [f] more are allowed, of a function
    defined in Python: its body runs with one frame fewer. *)
Definition call {A} (f : nat) (callee : nat -> M A) : M A :=
  match f with
  | O => raise RecursionError
  | S f' => callee f'
  end.

(** [d[key]], given what the lookup finds. *)
Definition dict_getitem {A} (found : option A) : M A :=
  match found with
  | Some a => ret a
  | None => raise KeyError
  end.

(** [try: m  except KeyError: handler]. *)
Definition except_KeyError {A} (m handler : M A) : M A :=
  fun ctx =>
    match m ctx with
    | (Raise KeyError, ctx') => handler ctx'
    | r => r
    end.

Section Interpreter.

Variable py : interpreter.

Definition StringValue_parse_at (f : nat) (b : bytes) : M (pystr * bytes) :=
  let* _ := check_marker b 0x05 "String" in
  let b := drop 1 b in
  let* (n, b) := call f (fun _ => lift (read_7bit_encoded_int b)) in
  if n <? 0 then raise (ViewStateException "Invalid string length")
  else if n =? 0 then ret ([], b)
  else if Z.of_nat (length b) <? n
  then raise (ViewStateException "Not enough bytes for string")
  else ret (utf8_decode_replace (take (Z.to_nat n) b), drop (Z.to_nat n) b).

Definition DateTimeValue_parse_at (f : nat) : parser := fun b =>
  let* _ := check_marker b 0x06 "DateTime" in
  let b := drop 1 b in
  let* (ticks, b) := call f (fun _ => lift (read_int64 b)) in
  let* dt := call f (fun _ => lift (parse_dotnet_datetime ticks)) in
  ret (dt, b).

Definition DoubleValue_parse_at (f : nat) : parser := fun b =>
  let* _ := check_marker b 0x07 "Double" in
  let b := drop 1 b in
  let* (val, b) := call f (fun _ => lift (read_double b)) in
  ret (VFloat val, b).

Definition FloatValue_parse_at (f : nat) : parser := fun b =>
  let* _ := check_marker b 0x08 "Float" in
  let b := drop 1 b in
  let* (val, b) := call f (fun _ => lift (read_float b)) in
  ret (VFloat val, b).

Definition RGBA_parse_at (f : nat) : parser := fun b =>
  let* _ := check_marker b 0x09 "RGBA" in
  let b := drop 1 b in
  let* (val, b) := call f (fun _ => lift (read_int32 b)) in
  let a := Z.land (Z.shiftr val 24) 0xFF in
  let r := Z.land (Z.shiftr val 16) 0xFF in
  let g := Z.land (Z.shiftr val 8) 0xFF in
  let blue := Z.land val 0xFF in
  let* r := lift (int_str py r) in
  let* g := lift (int_str py g) in
  let* blue := lift (int_str py blue) in
  let* a := lift (int_str py a) in
  ret (VStr (str ("RGBA(" +:+ r +:+ ", " +:+ g +:+ ", "
                    +:+ blue +:+ ", " +:+ a +:+ ")")), b).

Definition KnownColor_parse_at (f : nat) : parser := fun b =>
  let* _ := check_marker b 0x0A "KnownColor" in
  let b := drop 1 b in
  let* (color_index, b) := call f (fun _ => lift (read_7bit_encoded_int b)) in
  let* color := except_KeyError (dict_getitem (COLORS color_index))
                  (ret "Unknown"%string) in
  ret (VStr (str ("KnownColor: " +:+ color)), b).

Definition TypeValue_parse_at (f : nat) (b : bytes) : M (pystr * bytes) :=
  let* _ := check_marker b 0x19 "Type" in
  let b := drop 1 b in
  let* c := lift (bytes_getitem b 0) in
  if c =? 0x2B then
    let b := drop 1 b in
    let* (idx, b) := call f (fun _ => lift (read_7bit_encoded_int b)) in
    let* type_ref := except_IndexError (call f (fun _ => get_type idx))
                       "Invalid type reference index" in
    ret (type_ref, b)
  else
    let* (type_name, b) := call f (fun f' => StringValue_parse_at f' b) in
    let* _ := call f (fun _ => add_type type_name) in
    ret (type_name, b).

Definition EnumValue_parse_at (f : nat) : parser := fun b =>
  let* _ := check_marker b 0x0B "Enum" in
  let b := drop 1 b in
  let* (type_ref, b) := call f (fun f' => TypeValue_parse_at f' b) in
  let* (enum_val, b) := call f (fun _ => lift (read_7bit_encoded_int b)) in
  let* enum_val := lift (int_str py enum_val) in
  ret (VStr (str "Enum(" ++ type_ref ++ str (", " +:+ enum_val +:+ ")")),
       b).

Definition TypedArray_parse_at (f : nat) (Parser_parse : parser) : parser :=
  fun b =>
  let* _ := check_marker b 0x14 "TypedArray" in
  let b := drop 1 b in
  let* (type_ref, b) := Parser_parse b in
  let* (length, b) := call f (fun _ => lift (read_7bit_encoded_int b)) in
  let* (arr, b) := values_loop Parser_parse (Z.to_nat length) b [] in
  ret (VList arr, b).

Fixpoint strings_loop_at (f : nat) (n : nat) (b : bytes)
    (arr : list pyvalue) : M (list pyvalue * bytes) :=
  match n with
  | O => ret (arr, b)
  | S n' =>
      let* (s, b) := call f (fun f' => StringValue_parse_at f' b) in
      strings_loop_at f n' b (arr ++ [VStr s])
  end.

Definition StringArray_parse_at (f : nat) : parser := fun b =>
  let* _ := check_marker b 0x15 "StringArray" in
  let b := drop 1 b in
  let* (n, b) := call f (fun _ => lift (read_7bit_encoded_int b)) in
  let* (arr, b) := strings_loop_at f (Z.to_nat n) b [] in
  ret (VList arr, b).

Definition ListValue_parse_at (f : nat) (Parser_parse : parser) : parser :=
  fun b =>
  let* _ := check_marker b 0x16 "List" in
  let b := drop 1 b in
  let* (n, b) := call f (fun _ => lift (read_7bit_encoded_int b)) in
  let* (lst, b) := values_loop Parser_parse (Z.to_nat n) b [] in
  ret (VList lst, b).

Definition DictValue_parse_at (f : nat) (Parser_parse : parser) : parser :=
  fun b =>
  let* marker := lift (bytes_getitem b 0) in
  let b := drop 1 b in
  let* (n, b) := call f (fun _ => lift (read_7bit_encoded_int b)) in
  let* (d, b) := dict_loop Parser_parse (Z.to_nat n) b [] in
  ret (VDict d, b).

Definition UnitValue_parse_at (f : nat) : parser := fun b =>
  let* _ := check_marker b 0x1B "Unit" in
  let b := drop 1 b in
  let* (dbl, b) := call f (fun _ => lift (read_double b)) in
  let* (int_val, b) := call f (fun _ => lift (read_int32 b)) in
  let* int_val := lift (int_str py int_val) in
  ret (VStr (str "Unit(" ++ str_of_float py dbl
             ++ str (", " +:+ int_val +:+ ")")), b).

Definition IndexedString_parse_at (f : nat) : parser := fun b =>
  let* token := lift (bytes_getitem b 0) in
  let b := drop 1 b in
  if token =? 0x1F then
    match b with
    | [] => raise (ViewStateException "No data for IndexedString reference")
    | c :: b' =>
        let idx := byte_val c in
        let b := b' in
        let* s := except_IndexError (call f (fun _ => get_string idx))
                    "Invalid string reference index" in
        ret (VStr s, b)
    end
  else
    let* (s, b) := call f (fun f' => StringValue_parse_at f' b) in
    let* _ := call f (fun _ => add_string s) in
    ret (VStr s, b).

Definition FormattedString_parse_at (f : nat) (Parser_parse : parser)
  : parser := fun b =>
  let* _ := check_marker b 0x28 "FormattedString" in
  let b := drop 1 b in
  let* (type_ref, b) := Parser_parse b in
  let* (s, b) := call f (fun f' => StringValue_parse_at f' b) in
  match type_ref with
  | VNone => ret (VNone, b)
  | _ => ret (VStr (str "SerialisedObject(" ++ s ++ str ")"), b)
  end.

Definition BinaryFormatted_parse_at (f : nat) : parser := fun b =>
  let* _ := check_marker b 0x32 "BinaryFormatted" in
  let b := drop 1 b in
  let* (n, b) := call f (fun _ => lift (read_7bit_encoded_int b)) in
  if Z.of_nat (length b) <? n
  then raise (ViewStateException
                "Not enough data for binary formatted object")
  else
    let val := take (Z.to_nat n) b in
    ret (VStr (str "BinaryFormatted(" ++ bytes_repr val ++ str ")"),
         drop (Z.to_nat n) b).

Fixpoint sparse_loop_at (f : nat) (Parser_parse : parser) (length : Z)
    (n : nat) (b : bytes) (arr : list pyvalue) : M (list pyvalue * bytes) :=
  match n with
  | O => ret (arr, b)
  | S n' =>
      let* (idx, b) := call f (fun _ => lift (read_7bit_encoded_int b)) in
      if (idx <? 0) || (length <=? idx)
      then raise (ViewStateException "Invalid index in sparse array")
      else
        let* (val, b) := Parser_parse b in
        sparse_loop_at f Parser_parse length n' b (<[Z.to_nat idx := val]> arr)
  end.

Definition SparseArray_parse_at (f : nat) (Parser_parse : parser) : parser :=
  fun b =>
  let* _ := check_marker b 0x3C "SparseArray" in
  let b := drop 1 b in
  let* (type_ref, b) := Parser_parse b in
  let* (length, b) := call f (fun _ => lift (read_7bit_encoded_int b)) in
  let* (num_non_null, b) :=
    call f (fun _ => lift (read_7bit_encoded_int b)) in
  let* arr := lift (list_repeat py VNone length) in
  let* (arr, b) :=
    sparse_loop_at f Parser_parse length (Z.to_nat num_non_null) b arr in
  ret (VList arr, b).

(** [parser_cls.parse(b, ctx)] in a frame with [f] more above it;
    [Parser_parse] is what the rule calls as [Parser.parse], from that
    frame. The rules that call no function defined in Python are the ones
    above. *)
Definition cls_parse_at (f : nat) (Parser_parse : parser)
    (cls : parser_cls) : parser :=
  match cls with
  | Noop => Noop_parse
  | NoneConst => Const_parse VNone
  | EmptyConst => Const_parse (VStr [])
  | ZeroConst => Const_parse (VInt 0)
  | TrueConst => Const_parse (VBool true)
  | FalseConst => Const_parse (VBool false)
  | Integer => Integer_parse
  | ByteValue => ByteValue_parse
  | CharValue => CharValue_parse
  | StringValue => fun b => let* (s, b) := StringValue_parse_at f b in
                            ret (VStr s, b)
  | DateTimeValue => DateTimeValue_parse_at f
  | DoubleValue => DoubleValue_parse_at f
  | FloatValue => FloatValue_parse_at f
  | RGBA => RGBA_parse_at f
  | KnownColor => KnownColor_parse_at f
  | EnumValue => EnumValue_parse_at f
  | ColorEmpty => ColorEmpty_parse
  | PairValue => PairValue_parse Parser_parse
  | TripletValue => TripletValue_parse Parser_parse
  | TypedArray => TypedArray_parse_at f Parser_parse
  | StringArray => StringArray_parse_at f
  | ListValue => ListValue_parse_at f Parser_parse
  | DictValue => DictValue_parse_at f Parser_parse
  | TypeValue => fun b => let* (t, b) := TypeValue_parse_at f b in
                          ret (VStr t, b)
  | UnitValue => UnitValue_parse_at f
  | UnitEmpty => UnitEmpty_parse
  | IndexedString => IndexedString_parse_at f
  | FormattedString => FormattedString_parse_at f Parser_parse
  | BinaryFormatted => BinaryFormatted_parse_at f
  | SparseArray => SparseArray_parse_at f Parser_parse
  end.

(** [Parser.parse]: the lookup in the registry is guarded, the call of the
    class's [parse] takes a frame, and so does every call of
    [Parser.parse] that the rule makes. *)
Fixpoint Parser_parse_at (f : nat) : parser := fun b =>
  match b with
  | [] => raise (ViewStateException "No data to parse")
  | marker :: _ =>
      let* parser_cls :=
        except_KeyError (dict_getitem (registry marker))
          (raise (ViewStateException
                    ("Unknown marker 0x" +:+ hex2 (byte_val marker)))) in
      call f (fun f1 =>
        cls_parse_at f1
          (fun b' => call f1 (fun f2 => Parser_parse_at f2 b'))
          parser_cls b)
  end.

(** [parse_viewstate]: [ParserContext()] runs [__init__], and
    [Parser.parse] is called from the same frame. *)
Definition parse_viewstate_at (f : nat) (b : bytes) : outcome ViewState :=
  match b with
  | xff :: x01 :: b =>
      match f with
      | O => Raise RecursionError
      | S f1 =>
          let ctx := new_context in
          match fst (Parser_parse_at f1 b ctx) with
          | Return (value, remain) =>
              let len := length remain in
              if (len =? 0)%nat
              then Return {| value := value; macEnabled := false; raw := b |}
              else if (len =? 20)%nat || (len =? 32)%nat
              then Return {| value := value; macEnabled := true; raw := b |}
              else
                match int_str py (Z.of_nat len) with
                | Return len =>
                    Raise (ViewStateException
                             ("Invalid trailing bytes length: " +:+ len))
                | Raise e => Raise e
                | OutOfFuel => OutOfFuel
                end
          | Raise e => Raise e
          | OutOfFuel => OutOfFuel
          end
      end
  | _ => Raise (ViewStateException "Not a valid ASP.NET 2.0 LOS stream")
  end.

End Interpreter.

(** An interpreter for closed examples: the default digit limit, room for
    lists of up to a million items, and [float_str_unused]. *)
Definition py_default : interpreter :=
  {| str_of_float := float_str_unused;
     can_allocate := fun n => n <=? 1000000;
     int_max_str_digits := 4300 |}.

(** ** Definitions used to state the properties *)

(** The encoder the specification describes: little-endian 7-bit groups,
    each byte carrying the next-lowest 7 bits, the high bit set on every
    byte but the last. [k] bounds the number of groups. *)
Fixpoint encode_groups (k : nat) (n : Z) : bytes :=
  match k with
  | O => []
  | S k' =>
      if n <? 128 then [byte_of_Z n]
      else byte_of_Z (n mod 128 + 128) :: encode_groups k' (n / 128)
  end.

Definition encode_7bit (n : Z) : bytes :=
  encode_groups (S (Z.to_nat (Z.log2 n))) n.

(** One mutation of the context: an entry goes at the end of one table. *)
Inductive ctx_step : ParserContext -> ParserContext -> Prop :=
| step_add_type ctx t :
    ctx_step ctx {| type_table := type_table ctx ++ [t];
                    string_table := string_table ctx |}
| step_add_string ctx s :
    ctx_step ctx {| type_table := type_table ctx;
                    string_table := string_table ctx ++ [s] |}.

(** Any number of them. *)
Definition ctx_grow : relation ParserContext := rtc ctx_step.

(** What a call that started in [ctx] leaves behind: a grown context, and
    an outcome that is a raise or a result satisfying [Q]. *)
Definition post {A} (Q : A -> Prop) (ctx : ParserContext)
    (r : outcome A * ParserContext) : Prop :=
  ctx_grow ctx r.2 /\
  match r.1 with
  | Return a => Q a
  | Raise _ => True
  | OutOfFuel => False
  end.

(** Two computations that do the same from every context, with [post]. *)
Definition agree {A} (Q : A -> Prop) (m1 m2 : M A) : Prop :=
  forall ctx, m1 ctx = m2 ctx /\ post Q ctx (m1 ctx).

(** The bytes left by a parser that was given [b]: the marker is gone, and
    what is left is a suffix of the bytes that followed it. *)
Definition advances {A} (b : bytes) : A * bytes -> Prop :=
  fun '(_, b') => b <> [] /\ b' `suffix_of` drop 1 b.

(** The bytes left are a suffix of the bytes given. *)
Definition within {A} (b : bytes) : A * bytes -> Prop :=
  fun '(_, b') => b' `suffix_of` b.

(** [d] one-element lists (16 01), one inside the other, around the null
    constant (64), and the value they decode to. *)
Fixpoint nested_lists (d : nat) : bytes :=
  match d with
  | O => [x64]
  | S d' => x16 :: x01 :: nested_lists d'
  end.

Fixpoint nested_value (d : nat) : pyvalue :=
  match d with
  | O => VNone
  | S d' => VList [nested_value d']
  end.

(** [n] key/value pairs decoded one after the other by [P], from [b] in
    [ctx] to [b'] in [ctx']. *)
Inductive pairs_decode (P : parser)
  : nat -> bytes -> ParserContext -> list (pyvalue * pyvalue)
    -> bytes -> ParserContext -> Prop :=
| pairs_decode_nil b ctx : pairs_decode P 0 b ctx [] b ctx
| pairs_decode_cons n b ctx k b1 ctx1 v b2 ctx2 kvs b3 ctx3 :
    P b ctx = (Return (k, b1), ctx1) ->
    P b1 ctx1 = (Return (v, b2), ctx2) ->
    pairs_decode P n b2 ctx2 kvs b3 ctx3 ->
    pairs_decode P (S n) b ctx ((k, v) :: kvs) b3 ctx3.

(** The dict that holds [d] and then takes the pairs in order. *)
Definition dict_update (d kvs : list (pyvalue * pyvalue))
  : list (pyvalue * pyvalue) :=
  fold_left (fun d kv => dict_set d kv.1 kv.2) kvs d.

(** ** Definitions used to state the further properties *)

(** A byte whose continuation bit is set. *)
Definition continues (c : byte) : Prop := Z.land (byte_val c) 0x80 <> 0.

(** [n.to_bytes(k, byteorder='little')] for [0 <= n < 256^k]. *)
Fixpoint to_bytes_little (k : nat) (n : Z) : bytes :=
  match k with
  | O => []
  | S k' => byte_of_Z (n mod 256) :: to_bytes_little k' (n / 256)
  end.

(** A string production: the marker, the length as 7-bit groups, the
    bytes. *)
Definition encode_string (bs : bytes) : bytes :=
  x05 :: encode_7bit (Z.of_nat (length bs)) ++ bs.

(** No entry of a dict has a key equal to the key of a later entry. *)
Fixpoint distinct_keys (d : list (pyvalue * pyvalue)) : Prop :=
  match d with
  | [] => True
  | (k, _) :: d' =>
      Forall (fun e => key_eq k e.1 = false) d' /\ distinct_keys d'
  end.

Definition is_None (v : pyvalue) : bool :=
  match v with
  | VNone => true
  | _ => false
  end.

(** The number of items that are not [None]. *)
Definition count_values (items : list pyvalue) : nat :=
  length (filter (fun v => is_None v = false) items).

(** Whenever [m1] returns, [m2] returns a related result and leaves the
    same context. *)
Definition simulates {A B} (R : A -> B -> Prop) (m1 : M A) (m2 : M B)
  : Prop :=
  forall ctx a ctx', m1 ctx = (Return a, ctx') ->
    exists a', m2 ctx = (Return a', ctx') /\ R a a'.

(** The same result, with [extra] after the bytes left. *)
Definition extended {A} (extra : bytes) (r r' : A * bytes) : Prop :=
  r'.1 = r.1 /\ r'.2 = r.2 ++ extra.

(** The messages [Parser.parse] raises a [ViewStateException] with, the
    unknown markers apart. *)
Definition parser_messages : list string :=
  [ "No data to parse";
    "Unexpected end of data while reading 7-bit encoded int";
    "Unexpected end of data while parsing integer";
    "Not enough bytes for int32";
    "Not enough bytes for int64";
    "Not enough bytes for double";
    "Not enough bytes for float";
    "Not enough bytes for string";
    "Invalid marker for String";
    "Invalid marker for Type";
    "Invalid type reference index";
    "No data for IndexedString reference";
    "Invalid string reference index";
    "Not enough data for binary formatted object";
    "Invalid index in sparse array" ]%string.

(** The exceptions [Parser.parse] can end with. *)
Definition parser_raises (e : exn) : Prop :=
  match e with
  | ViewStateException msg =>
      In msg parser_messages
      \/ exists marker : byte,
           registry marker = None
           /\ msg = ("Unknown marker 0x" +:+ hex2 (byte_val marker))%string
  | IndexError | TypeError | OverflowError => True
  | KeyError | ValueError | MemoryError | RecursionError => False
  end.

(** A computation that raises only within [parser_raises] and returns only
    results that satisfy [Q]. *)
Definition raises_within {A} (Q : A -> Prop) (m : M A) : Prop :=
  forall ctx,
    match (m ctx).1 with
    | Return a => Q a
    | Raise e => parser_raises e
    | OutOfFuel => True
    end.

(** Messages of [raise] statements in the source that no input reaches
    through [parse_viewstate]. *)
Definition unreachable_messages : list string :=
  [ "Invalid string length";
    "Not enough bytes for int16";
    "Invalid marker for Integer";
    "Invalid marker for Byte";
    "Invalid marker for Char";
    "Invalid marker for DateTime";
    "Invalid marker for Double";
    "Invalid marker for Float";
    "Invalid marker for RGBA";
    "Invalid marker for KnownColor";
    "Invalid marker for Enum";
    "Invalid marker for Color.Empty";
    "Invalid marker for Pair";
    "Invalid marker for Triplet";
    "Invalid marker for TypedArray";
    "Invalid marker for StringArray";
    "Invalid marker for List";
    "Invalid marker for Unit";
    "Invalid marker for Unit.Empty";
    "Invalid marker for FormattedString";
    "Invalid marker for BinaryFormatted";
    "Invalid marker for SparseArray" ]%string.

(** An exception that one of the interpreter's limits raises: a
    [RecursionError] only when the stack is [low], a [MemoryError] only
    when some list cannot be allocated, a [ValueError] only under a limit
    on digits. *)
Definition limit_raised (py : interpreter) (low : Prop) (e : exn) : Prop :=
  (e = RecursionError /\ low)
  \/ e = OverflowError
  \/ (e = MemoryError
      /\ exists n, 0 < n <= maxsize /\ can_allocate py n = false)
  \/ (e = ValueError /\ 0 < int_max_str_digits py).

(** [m1], run under the limits, does what [m2] does without them, unless a
    limit stops it: a result of [m1] is the result of [m2], with the same
    context, and satisfies [Q]; an exception of [m1] is the exception of
    [m2], with the same context, or one that a limit raised. *)
Definition refines {A} (py : interpreter) (low : Prop) (Q : A -> Prop)
    (m1 m2 : M A) : Prop :=
  forall ctx,
    match m1 ctx with
    | (Return a, ctx') => m2 ctx = (Return a, ctx') /\ Q a
    | (Raise e, ctx') => m2 ctx = (Raise e, ctx') \/ limit_raised py low e
    | (OutOfFuel, _) => False
    end.

(** * Properties *)

(** ** Bytes and 7-bit groups *)

Lemma byte_val_range c : 0 <= byte_val c < 256.
Proof.
  unfold byte_val. pose proof (Byte.to_N_bounded c). lia.
Qed.

Lemma byte_val_of_Z z : 0 <= z < 256 -> byte_val (byte_of_Z z) = z.
Proof.
  intros Hz. unfold byte_val, byte_of_Z.
  destruct (Byte.of_N (Z.to_N z)) as [c|] eqn:E.
  - apply Byte.to_of_N in E. lia.
  - apply Byte.of_N_None_iff in E. lia.
Qed.


Lemma group_lor r : 0 <= r < 128 -> r + 128 = Z.lor r 128 /\ Z.land r 127 = r.
Proof.
  intros Hr.
  assert (E : Z.land r 127 = r).
  { change 127 with (Z.ones 7). rewrite Z.land_ones by lia.
    apply Z.mod_small. change (2 ^ 7) with 128. lia. }
  split; [|exact E].
  apply Z.add_nocarry_lor.
  rewrite <- E, <- Z.land_assoc. change (Z.land 127 128) with 0.
  apply Z.land_0_r.
Qed.

Lemma low7_group r : 0 <= r < 128 -> Z.land (r + 128) 127 = r.
Proof.
  intros Hr. destruct (group_lor r Hr) as [-> E].
  rewrite Z.land_lor_distr_l, E. change (Z.land 128 127) with 0.
  apply Z.lor_0_r.
Qed.

Lemma high_bit_group r : 0 <= r < 128 -> Z.land (r + 128) 128 = 128.
Proof.
  intros Hr. destruct (group_lor r Hr) as [-> E].
  rewrite Z.land_lor_distr_l. change (Z.land 128 128) with 128.
  rewrite <- E, <- Z.land_assoc. change (Z.land 127 128) with 0.
  rewrite Z.land_0_r. reflexivity.
Qed.

Lemma high_bit_clear r : 0 <= r < 128 -> Z.land r 128 = 0.
Proof.
  intros Hr. destruct (group_lor r Hr) as [_ E].
  rewrite <- E, <- Z.land_assoc. change (Z.land 127 128) with 0.
  apply Z.land_0_r.
Qed.

(** Splitting off the low group: [n = (n mod 128) | ((n / 128) << 7)]. *)
Lemma split_low_group n shift :
  0 <= n -> 0 <= shift ->
  Z.lor (Z.shiftl (n mod 128) shift) (Z.shiftl (n / 128) (shift + 7))
  = Z.shiftl n shift.
Proof.
  intros Hn Hs.
  replace (shift + 7) with (7 + shift) by lia.
  rewrite <- (Z.shiftl_shiftl (n / 128) 7 shift) by lia.
  rewrite <- Z.shiftl_lor. f_equal.
  change 128 with (2 ^ 7).
  rewrite <- Z.shiftr_div_pow2, <- Z.land_ones by lia.
  rewrite <- Z.ldiff_ones_r by lia.
  rewrite Z.lor_comm. apply Z.lor_ldiff_and.
Qed.

Lemma encode_groups_S k n :
  encode_groups (S k) n
  = if n <? 128 then [byte_of_Z n]
    else byte_of_Z (n mod 128 + 128) :: encode_groups k (n / 128).
Proof. reflexivity. Qed.

Lemma varint_loop_last msg n acc shift rest :
  0 <= n < 128 ->
  varint_loop msg (byte_of_Z n :: rest) acc shift
  = Return (Z.lor acc (Z.shiftl n shift), rest).
Proof.
  intros Hn. cbn [varint_loop]. rewrite byte_val_of_Z by lia.
  rewrite high_bit_clear by lia. cbn [Z.eqb].
  destruct (group_lor n Hn) as [_ ->]. reflexivity.
Qed.

Lemma varint_loop_encode msg k : forall n acc shift rest,
  0 <= n -> n < 2 ^ (7 * Z.of_nat (S k)) -> 0 <= shift ->
  varint_loop msg (encode_groups (S k) n ++ rest) acc shift
  = Return (Z.lor acc (Z.shiftl n shift), rest).
Proof.
  induction k as [|k IH]; intros n acc shift rest Hn Hlt Hs;
    rewrite encode_groups_S; destruct (n <? 128) eqn:E;
    try (apply Z.ltb_lt in E; apply varint_loop_last; lia).
  - apply Z.ltb_ge in E. change (2 ^ (7 * Z.of_nat 1)) with 128 in Hlt. lia.
  - apply Z.ltb_ge in E. rewrite <- app_comm_cons. cbn [varint_loop].
    pose proof (Z.mod_pos_bound n 128 ltac:(lia)) as Hr.
    rewrite byte_val_of_Z by lia.
    rewrite high_bit_group, low7_group by lia. cbn [Z.eqb].
    rewrite IH.
    + rewrite <- Z.lor_assoc, split_low_group by lia. reflexivity.
    + apply Z.div_pos; lia.
    + apply Z.div_lt_upper_bound; [lia|].
      replace (7 * Z.of_nat (S (S k))) with (7 + 7 * Z.of_nat (S k)) in Hlt
        by lia.
      rewrite Z.pow_add_r in Hlt by lia. exact Hlt.
    + lia.
Qed.

Lemma encode_7bit_enough n :
  0 <= n -> n < 2 ^ (7 * Z.of_nat (S (Z.to_nat (Z.log2 n)))).
Proof.
  intros Hn.
  destruct (Z.eq_dec n 0) as [->|Hnz].
  - reflexivity.
  - pose proof (Z.log2_spec n ltac:(lia)) as [_ Hlt].
    pose proof (Z.log2_nonneg n).
    eapply Z.lt_le_trans; [exact Hlt|].
    apply Z.pow_le_mono_r; lia.
Qed.

Theorem read_7bit_encode n rest :
  0 <= n -> read_7bit_encoded_int (encode_7bit n ++ rest) = Return (n, rest).
Proof.
  intros Hn. unfold read_7bit_encoded_int, encode_7bit.
  rewrite varint_loop_encode by (auto using encode_7bit_enough; lia).
  rewrite Z.shiftl_0_r. reflexivity.
Qed.

(** ** Reasoning about parsers *)

Lemma agree_ret {A} (Q : A -> Prop) a : Q a -> agree Q (ret a) (ret a).
Proof.
  intros HQ ctx. split; [reflexivity|]. split; [apply rtc_refl|exact HQ].
Qed.

Lemma agree_raise {A} (Q : A -> Prop) e : agree Q (raise e) (raise e).
Proof. intros ctx. split; [reflexivity|]. split; [apply rtc_refl|exact I]. Qed.

Lemma agree_lift {A} (Q : A -> Prop) (o : outcome A) :
  o <> OutOfFuel -> (forall a, o = Return a -> Q a) ->
  agree Q (lift o) (lift o).
Proof.
  intros Hf HQ ctx. split; [reflexivity|]. split; [apply rtc_refl|].
  unfold lift; cbn. destruct o; auto.
Qed.

Lemma agree_bind {A B} (Q1 : A -> Prop) (Q : B -> Prop) m1 m2 k1 k2 :
  agree Q1 m1 m2 ->
  (forall a, Q1 a -> agree Q (k1 a) (k2 a)) ->
  agree Q (bind m1 k1) (bind m2 k2).
Proof.
  intros Hm Hk ctx. destruct (Hm ctx) as [E [Hg HQ]].
  unfold bind. rewrite <- E.
  destruct (m1 ctx) as [[a|e|] ctx']; cbn in *.
  - destruct (Hk a HQ ctx') as [E' [Hg' HQ']]. split; [exact E'|].
    split; [|exact HQ']. eapply rtc_trans; eassumption.
  - split; [reflexivity|]. split; [exact Hg|exact I].
  - contradiction.
Qed.

Lemma agree_weaken {A} (Q1 Q2 : A -> Prop) m1 m2 :
  agree Q1 m1 m2 -> (forall a, Q1 a -> Q2 a) -> agree Q2 m1 m2.
Proof.
  intros H HQ ctx. destruct (H ctx) as [E [Hg H1]]. split; [exact E|].
  split; [exact Hg|]. destruct (m1 ctx).1; auto.
Qed.

Lemma agree_if {A} (Q : A -> Prop) (c : bool) m1 m2 n1 n2 :
  (c = true -> agree Q m1 m2) -> (c = false -> agree Q n1 n2) ->
  agree Q (if c then m1 else n1) (if c then m2 else n2).
Proof. destruct c; auto. Qed.

Lemma agree_add_type t : agree (fun _ => True) (add_type t) (add_type t).
Proof.
  intros ctx. split; [reflexivity|]. split; [|exact I].
  apply rtc_once. constructor.
Qed.

Lemma agree_add_string s : agree (fun _ => True) (add_string s) (add_string s).
Proof.
  intros ctx. split; [reflexivity|]. split; [|exact I].
  apply rtc_once. constructor.
Qed.

Lemma agree_except_get (tbl : ParserContext -> list pystr) idx msg :
  agree (fun _ => True)
    (except_IndexError (fun ctx => (list_getitem (tbl ctx) idx, ctx)) msg)
    (except_IndexError (fun ctx => (list_getitem (tbl ctx) idx, ctx)) msg).
Proof.
  intros ctx. split; [reflexivity|]. unfold except_IndexError, list_getitem.
  split.
  - destruct (_ <? 0); [destruct idx; apply rtc_refl|].
    destruct (tbl ctx !! _); apply rtc_refl.
  - destruct (_ <? 0); cbn; [exact I|].
    destruct (tbl ctx !! _); cbn; exact I.
Qed.

(** pure readers *)
Lemma varint_loop_spec msg b : forall n shift r,
  0 <= n -> 0 <= shift ->
  varint_loop msg b n shift = r ->
  r <> OutOfFuel /\
  forall n' b', r = Return (n', b') ->
    0 <= n' /\ b <> [] /\ b' `suffix_of` drop 1 b.
Proof.
  induction b as [|c b IH]; intros n shift r Hn Hs <-; cbn [varint_loop].
  - split; [discriminate|]. intros ? ? [=].
  - pose proof (byte_val_range c) as Hc.
    assert (Hn' : 0 <= Z.lor n (Z.shiftl (Z.land (byte_val c) 127) shift)).
    { apply Z.lor_nonneg. split; [lia|]. apply Z.shiftl_nonneg.
      apply Z.land_nonneg. lia. }
    destruct (_ =? 0).
    + split; [discriminate|]. intros ? ? [= <- <-]. split; [exact Hn'|].
      split; [discriminate|]. reflexivity.
    + destruct (IH _ (shift + 7) _ Hn' ltac:(lia) eq_refl) as [Hf Hr].
      split; [exact Hf|]. intros n' b' E.
      destruct (Hr n' b' E) as (H1 & H2 & H3). split; [exact H1|].
      split; [discriminate|]. cbn [drop]. etrans; [exact H3|apply suffix_drop].
Qed.

Lemma suffix_drop_2_1 (b : bytes) : drop 2 b `suffix_of` drop 1 b.
Proof. destruct b as [|c b]; [reflexivity|]. apply (suffix_drop b 1). Qed.

Ltac solve_suffix :=
  repeat match goal with
  | |- ?x `suffix_of` ?x => reflexivity
  | |- drop 2 ?b `suffix_of` drop 1 ?b => apply suffix_drop_2_1
  | H : ?x `suffix_of` ?y |- ?x `suffix_of` _ => (etrans; [exact H|]); clear H
  | |- drop _ _ `suffix_of` _ =>
      first [reflexivity | etrans; [apply suffix_drop|]]
  end.

Lemma suffix_tail_length (b b' : bytes) :
  b <> [] -> b' `suffix_of` drop 1 b -> (length b' < length b)%nat.
Proof.
  intros Hne Hs. apply suffix_length in Hs. rewrite length_drop in Hs.
  destruct b; [congruence|]. cbn in *. lia.
Qed.

Lemma agree_pure {A} (Q : A -> Prop) (o : outcome A) :
  (forall r, o = r -> r <> OutOfFuel /\ forall a, r = Return a -> Q a) ->
  agree Q (lift o) (lift o).
Proof.
  intros H. destruct (H o eq_refl) as [Hf HQ]. apply agree_lift; auto.
Qed.

Lemma agree_varint msg b :
  agree (fun '(n, b') => 0 <= n /\ b <> [] /\ b' `suffix_of` drop 1 b)
    (lift (varint_loop msg b 0 0)) (lift (varint_loop msg b 0 0)).
Proof.
  apply agree_pure. intros r E.
  destruct (varint_loop_spec msg b 0 0 r ltac:(lia) ltac:(lia) E) as [Hf Hr].
  split; [exact Hf|]. intros [n b'] ->. apply Hr. reflexivity.
Qed.

Lemma agree_read_7bit b :
  agree (fun '(n, b') => 0 <= n /\ b' `suffix_of` b)
    (lift (read_7bit_encoded_int b)) (lift (read_7bit_encoded_int b)).
Proof.
  eapply agree_weaken; [apply agree_varint|].
  intros [n b'] (Hn & _ & Hs). split; [exact Hn|]. solve_suffix.
Qed.

Lemma agree_fixed {A} (f : bytes -> A) (k : nat) msg (b : bytes) :
  agree (within b)
    (lift (if (length b <? k)%nat then Raise (ViewStateException msg)
           else Return (f (take k b), drop k b)))
    (lift (if (length b <? k)%nat then Raise (ViewStateException msg)
           else Return (f (take k b), drop k b))).
Proof.
  apply agree_lift; destruct (length b <? k)%nat; try discriminate.
  intros [a b'] [= <- <-]. apply suffix_drop.
Qed.

Lemma agree_getitem b i :
  agree (fun _ => b <> [])
    (lift (bytes_getitem b i)) (lift (bytes_getitem b i)).
Proof.
  apply agree_lift; unfold bytes_getitem; destruct (b !! i) eqn:E;
    try discriminate.
  intros a _ ->. discriminate.
Qed.

Lemma agree_check_marker b marker name :
  agree (fun _ => b <> [])
    (check_marker b marker name) (check_marker b marker name).
Proof.
  unfold check_marker. eapply agree_bind; [apply agree_getitem|].
  intros c Hne. cbn beta. destruct (c =? marker);
    [apply agree_ret; exact Hne|apply agree_raise].
Qed.

(** One step through a [let*]: the first computation by a lemma, then the
    continuation with what the lemma gives about the result. *)
Ltac agree_step lem :=
  eapply agree_bind; [apply lem|]; cbn beta zeta; intros [] ?;
  unfold advances, within in *; cbn beta iota in *; destruct_and?.

Ltac agree_loop lem :=
  eapply agree_bind; [apply lem; solve [assumption | solve_suffix]|];
  cbn beta zeta; intros [] ?;
  unfold advances, within in *; cbn beta iota in *; destruct_and?.

Ltac agree_marker :=
  eapply agree_bind; [apply agree_check_marker|]; intros [] ?; cbn beta zeta.

Ltac agree_done :=
  first [ apply agree_raise
        | apply agree_ret; cbn; repeat split; try assumption; solve_suffix ].

Lemma Noop_agree b :
  b <> [] -> agree (advances b) (Noop_parse b) (Noop_parse b).
Proof. intros. unfold Noop_parse. agree_done. Qed.

Lemma Const_agree c b :
  b <> [] -> agree (advances b) (Const_parse c b) (Const_parse c b).
Proof. intros. unfold Const_parse. agree_done. Qed.

Lemma Integer_agree b : agree (advances b) (Integer_parse b) (Integer_parse b).
Proof.
  unfold Integer_parse. agree_marker. agree_step agree_varint. agree_done.
Qed.

Lemma ByteValue_agree b :
  agree (advances b) (ByteValue_parse b) (ByteValue_parse b).
Proof.
  unfold ByteValue_parse. agree_marker.
  eapply agree_bind; [apply agree_getitem|]. intros c _. agree_done.
Qed.

Lemma CharValue_agree b :
  agree (advances b) (CharValue_parse b) (CharValue_parse b).
Proof.
  unfold CharValue_parse. agree_marker.
  eapply agree_bind; [apply agree_getitem|]. intros c _. agree_done.
Qed.

Lemma StringValue_agree b :
  agree (advances b) (StringValue_parse b) (StringValue_parse b).
Proof.
  unfold StringValue_parse. agree_marker. agree_step agree_read_7bit.
  repeat (apply agree_if; intros _); agree_done.
Qed.

Lemma DateTimeValue_agree b :
  agree (advances b) (DateTimeValue_parse b) (DateTimeValue_parse b).
Proof.
  unfold DateTimeValue_parse. agree_marker.
  agree_step (agree_fixed from_bytes_little 8).
  eapply agree_bind with (Q1 := fun _ => True).
  - apply agree_lift; unfold parse_dotnet_datetime;
      destruct (_ <? _); try discriminate; auto.
  - intros dt _. agree_done.
Qed.

Lemma DoubleValue_agree b :
  agree (advances b) (DoubleValue_parse b) (DoubleValue_parse b).
Proof.
  unfold DoubleValue_parse. agree_marker.
  agree_step (agree_fixed unpack_d 8). agree_done.
Qed.

Lemma FloatValue_agree b :
  agree (advances b) (FloatValue_parse b) (FloatValue_parse b).
Proof.
  unfold FloatValue_parse. agree_marker.
  agree_step (agree_fixed unpack_f 4). agree_done.
Qed.

Lemma RGBA_agree b : agree (advances b) (RGBA_parse b) (RGBA_parse b).
Proof.
  unfold RGBA_parse. agree_marker.
  agree_step (agree_fixed from_bytes_little 4). agree_done.
Qed.

Lemma KnownColor_agree b :
  agree (advances b) (KnownColor_parse b) (KnownColor_parse b).
Proof.
  unfold KnownColor_parse. agree_marker. agree_step agree_read_7bit.
  agree_done.
Qed.

Lemma TypeValue_agree b :
  agree (advances b) (TypeValue_parse b) (TypeValue_parse b).
Proof.
  unfold TypeValue_parse. agree_marker.
  eapply agree_bind; [apply agree_getitem|]. intros c _. cbn beta.
  apply agree_if; intros _.
  - agree_step agree_read_7bit.
    eapply agree_bind; [apply (agree_except_get type_table)|].
    intros t _. agree_done.
  - agree_step StringValue_agree.
    eapply agree_bind; [apply agree_add_type|]. intros _ _. agree_done.
Qed.

Lemma ColorEmpty_agree b :
  agree (advances b) (ColorEmpty_parse b) (ColorEmpty_parse b).
Proof. unfold ColorEmpty_parse. agree_marker. agree_done. Qed.

Lemma UnitEmpty_agree b :
  agree (advances b) (UnitEmpty_parse b) (UnitEmpty_parse b).
Proof. unfold UnitEmpty_parse. agree_marker. agree_done. Qed.

Lemma UnitValue_agree float_str b :
  agree (advances b) (UnitValue_parse float_str b)
    (UnitValue_parse float_str b).
Proof.
  unfold UnitValue_parse. agree_marker.
  agree_step (agree_fixed unpack_d 8).
  agree_step (agree_fixed from_bytes_little 4). agree_done.
Qed.

Lemma IndexedString_agree b :
  agree (advances b) (IndexedString_parse b) (IndexedString_parse b).
Proof.
  unfold IndexedString_parse.
  eapply agree_bind; [apply agree_getitem|]. intros token Hne. cbn beta zeta.
  apply agree_if; intros _.
  - destruct (drop 1 b) as [|c b'] eqn:E; [apply agree_raise|].
    eapply agree_bind; [apply (agree_except_get string_table)|].
    intros s _. apply agree_ret. split; [exact Hne|].
    rewrite E. apply suffix_cons_r. reflexivity.
  - agree_step StringValue_agree.
    eapply agree_bind; [apply agree_add_string|]. intros _ _. agree_done.
Qed.

Lemma BinaryFormatted_agree b :
  agree (advances b) (BinaryFormatted_parse b) (BinaryFormatted_parse b).
Proof.
  unfold BinaryFormatted_parse. agree_marker. agree_step agree_read_7bit.
  apply agree_if; intros _; agree_done.
Qed.

Lemma EnumValue_agree b :
  agree (advances b) (EnumValue_parse b) (EnumValue_parse b).
Proof.
  unfold EnumValue_parse. agree_marker. agree_step TypeValue_agree.
  agree_step agree_read_7bit. agree_done.
Qed.

Lemma strings_loop_agree t n : forall b arr,
  b `suffix_of` t ->
  agree (within t) (strings_loop n b arr) (strings_loop n b arr).
Proof.
  induction n as [|n IH]; intros b arr Hb; cbn [strings_loop].
  - apply agree_ret. exact Hb.
  - agree_step StringValue_agree. apply IH. solve_suffix.
Qed.

Lemma StringArray_agree b :
  agree (advances b) (StringArray_parse b) (StringArray_parse b).
Proof.
  unfold StringArray_parse. agree_marker. agree_step agree_read_7bit.
  agree_loop (strings_loop_agree (drop 1 b)). agree_done.
Qed.

(** *** Rules that call [Parser.parse] *)

Section RecursiveRules.

(** Two versions of [Parser.parse] that do the same on fewer than [L]
    bytes, and the bytes [b], at most [L] of them, of the rule at hand. *)
Variables (rec1 rec2 : parser) (L : nat) (b : bytes).
Hypothesis rec_agree :
  forall b', (length b' < L)%nat -> agree (advances b') (rec1 b') (rec2 b').
Hypothesis b_short : (length b <= L)%nat.

Lemma nested_agree b' :
  b <> [] -> b' `suffix_of` drop 1 b ->
  agree (advances b') (rec1 b') (rec2 b').
Proof.
  intros Hne Hs. apply rec_agree.
  pose proof (suffix_tail_length b b' Hne Hs). lia.
Qed.

Ltac agree_nested :=
  eapply agree_bind; [apply nested_agree; [assumption|solve_suffix]|];
  cbn beta zeta; intros [] ?;
  unfold advances, within in *; cbn beta iota in *; destruct_and?.

Lemma PairValue_agree :
  agree (advances b) (PairValue_parse rec1 b) (PairValue_parse rec2 b).
Proof.
  unfold PairValue_parse. agree_marker. do 2 agree_nested. agree_done.
Qed.

Lemma TripletValue_agree :
  agree (advances b) (TripletValue_parse rec1 b) (TripletValue_parse rec2 b).
Proof.
  unfold TripletValue_parse. agree_marker. do 3 agree_nested. agree_done.
Qed.

Lemma values_loop_agree n : forall b' arr,
  b <> [] -> b' `suffix_of` drop 1 b ->
  agree (within (drop 1 b)) (values_loop rec1 n b' arr)
    (values_loop rec2 n b' arr).
Proof.
  induction n as [|n IH]; intros b' arr Hne Hb; cbn [values_loop].
  - apply agree_ret. exact Hb.
  - agree_nested. apply IH; [assumption|solve_suffix].
Qed.

Lemma TypedArray_agree :
  agree (advances b) (TypedArray_parse rec1 b) (TypedArray_parse rec2 b).
Proof.
  unfold TypedArray_parse. agree_marker. agree_nested.
  agree_step agree_read_7bit.
  agree_loop values_loop_agree. agree_done.
Qed.

Lemma ListValue_agree :
  agree (advances b) (ListValue_parse rec1 b) (ListValue_parse rec2 b).
Proof.
  unfold ListValue_parse. agree_marker. agree_step agree_read_7bit.
  agree_loop values_loop_agree. agree_done.
Qed.

Lemma agree_dict_setitem d k v :
  agree (fun _ => True) (lift (dict_setitem d k v)) (lift (dict_setitem d k v)).
Proof.
  apply agree_lift; unfold dict_setitem; destruct (hashable k);
    try discriminate; auto.
Qed.

Lemma dict_loop_agree n : forall b' d,
  b <> [] -> b' `suffix_of` drop 1 b ->
  agree (within (drop 1 b)) (dict_loop rec1 n b' d) (dict_loop rec2 n b' d).
Proof.
  induction n as [|n IH]; intros b' d Hne Hb; cbn [dict_loop].
  - apply agree_ret. exact Hb.
  - do 2 agree_nested.
    eapply agree_bind; [apply agree_dict_setitem|]. intros d' _.
    apply IH; [assumption|solve_suffix].
Qed.

Lemma DictValue_agree :
  agree (advances b) (DictValue_parse rec1 b) (DictValue_parse rec2 b).
Proof.
  unfold DictValue_parse.
  eapply agree_bind; [apply agree_getitem|]. intros marker Hne. cbn beta zeta.
  agree_step agree_read_7bit.
  agree_loop dict_loop_agree. agree_done.
Qed.

Lemma FormattedString_agree :
  agree (advances b) (FormattedString_parse rec1 b)
    (FormattedString_parse rec2 b).
Proof.
  unfold FormattedString_parse. agree_marker. agree_nested.
  agree_step StringValue_agree.
  match goal with |- context [match ?v with VNone => _ | _ => _ end] =>
    destruct v end; agree_done.
Qed.

Lemma sparse_loop_agree len n : forall b' arr,
  b <> [] -> b' `suffix_of` drop 1 b ->
  agree (within (drop 1 b)) (sparse_loop rec1 len n b' arr)
    (sparse_loop rec2 len n b' arr).
Proof.
  induction n as [|n IH]; intros b' arr Hne Hb; cbn [sparse_loop].
  - apply agree_ret. exact Hb.
  - agree_step agree_read_7bit. apply agree_if; intros _;
      [apply agree_raise|].
    agree_nested. apply IH; [assumption|solve_suffix].
Qed.

Lemma SparseArray_agree :
  agree (advances b) (SparseArray_parse rec1 b) (SparseArray_parse rec2 b).
Proof.
  unfold SparseArray_parse. agree_marker. agree_nested.
  do 2 agree_step agree_read_7bit.
  agree_loop sparse_loop_agree. agree_done.
Qed.

End RecursiveRules.

Create HintDb rules discriminated.

#[local] Hint Resolve Noop_agree Const_agree Integer_agree ByteValue_agree
  CharValue_agree DateTimeValue_agree DoubleValue_agree FloatValue_agree
  RGBA_agree KnownColor_agree EnumValue_agree ColorEmpty_agree
  PairValue_agree TripletValue_agree TypedArray_agree StringArray_agree
  ListValue_agree DictValue_agree UnitValue_agree UnitEmpty_agree
  IndexedString_agree FormattedString_agree BinaryFormatted_agree
  SparseArray_agree : rules.

(** ** [Parser.parse] is total and satisfies its recursive equation *)

Section Dispatch.

Variable float_str : pyfloat -> pystr.

Lemma cls_parse_agree (rec1 rec2 : parser) (L : nat) (b : bytes) cls :
  (forall b', (length b' < L)%nat -> agree (advances b') (rec1 b') (rec2 b')) ->
  (length b <= L)%nat -> b <> [] ->
  agree (advances b)
    (cls_parse float_str rec1 cls b) (cls_parse float_str rec2 cls b).
Proof.
  intros Hrec Hlen Hne.
  destruct cls; cbn [cls_parse]; eauto with rules.
  - agree_step StringValue_agree. agree_done.
  - agree_step TypeValue_agree. agree_done.
Qed.

Lemma Parser_parse_body_agree (rec1 rec2 : parser) (L : nat) :
  (forall b, (length b < L)%nat -> agree (advances b) (rec1 b) (rec2 b)) ->
  forall b, (length b < S L)%nat ->
    agree (advances b)
      (Parser_parse_body float_str rec1 b) (Parser_parse_body float_str rec2 b).
Proof.
  intros Hrec b Hlen. unfold Parser_parse_body.
  destruct b as [|marker b]; [apply agree_raise|].
  destruct (registry marker); [|apply agree_raise].
  apply (cls_parse_agree rec1 rec2 L); [exact Hrec|lia|discriminate].
Qed.

Lemma Parser_parse_fuel_agree fuel : forall b,
  (length b < fuel)%nat ->
  agree (advances b)
    (Parser_parse_fuel float_str fuel b)
    (Parser_parse_fuel float_str (S fuel) b).
Proof.
  induction fuel as [|fuel IH]; intros b Hlen; [lia|].
  change (agree (advances b)
            (Parser_parse_body float_str (Parser_parse_fuel float_str fuel) b)
            (Parser_parse_body float_str
               (Parser_parse_fuel float_str (S fuel)) b)).
  apply (Parser_parse_body_agree _ _ fuel); [exact IH|exact Hlen].
Qed.

Lemma Parser_parse_fuel_more k : forall fuel b ctx,
  (length b < fuel)%nat ->
  Parser_parse_fuel float_str (k + fuel) b ctx
  = Parser_parse_fuel float_str fuel b ctx.
Proof.
  induction k as [|k IH]; intros fuel b ctx Hlen; [reflexivity|].
  change (S k + fuel)%nat with (S (k + fuel)).
  destruct (Parser_parse_fuel_agree (k + fuel) b ltac:(lia) ctx) as [<- _].
  apply IH, Hlen.
Qed.

(** Any fuel above the number of bytes gives what [Parser_parse] gives. *)
Theorem Parser_parse_fuel_enough fuel b ctx :
  (length b < fuel)%nat ->
  Parser_parse_fuel float_str fuel b ctx = Parser_parse float_str b ctx.
Proof.
  intros Hlen. unfold Parser_parse.
  replace fuel with ((fuel - S (length b)) + S (length b))%nat by lia.
  apply Parser_parse_fuel_more. lia.
Qed.

(** [Parser_parse] never runs out of fuel: it returns a value and fewer
    bytes than it was given, or it raises; the context only grows. *)
Theorem Parser_parse_post b ctx :
  post (advances b) ctx (Parser_parse float_str b ctx).
Proof.
  unfold Parser_parse.
  destruct (Parser_parse_fuel_agree (S (length b)) b ltac:(lia) ctx)
    as [_ H].
  exact H.
Qed.

(** The recursive equation of the source: [Parser.parse] is its body, with
    [Parser.parse] itself for the calls the rules make. *)
Theorem Parser_parse_unfold b ctx :
  Parser_parse float_str b ctx
  = Parser_parse_body float_str (Parser_parse float_str) b ctx.
Proof.
  unfold Parser_parse at 1. cbn [Parser_parse_fuel].
  apply (Parser_parse_body_agree _ _ (length b)); [|lia].
  intros b' Hlen ctx'. rewrite Parser_parse_fuel_enough by exact Hlen.
  split; [reflexivity|apply Parser_parse_post].
Qed.

End Dispatch.

(** ** The envelope: header, root value, trailer *)

Section Envelope.

Variable float_str : pyfloat -> pystr.

Lemma parse_viewstate_header input :
  take 2 input = [xff; x01] -> input = xff :: x01 :: drop 2 input.
Proof.
  destruct input as [|c0 [|c1 b]]; try discriminate.
  cbn. intros [= -> ->]. reflexivity.
Qed.

Lemma parse_viewstate_bad_header input :
  take 2 input <> [xff; x01] ->
  parse_viewstate float_str input
  = Raise (ViewStateException "Not a valid ASP.NET 2.0 LOS stream").
Proof.
  intros Hhead.
  destruct input as [|c0 [|c1 b]];
    [reflexivity|destruct c0; reflexivity|].
  destruct c0; try reflexivity. destruct c1; try reflexivity.
  destruct Hhead. reflexivity.
Qed.

Example scenario_empty_string :
  parse_viewstate float_str [xff; x01; x65]
  = Return {| value := VStr []; macEnabled := false; raw := [x65] |}.
Proof. reflexivity. Qed.

Example scenario_int_300 :
  parse_viewstate float_str [xff; x01; x02; xac; x02]
  = Return {| value := VInt 300; macEnabled := false;
              raw := [x02; xac; x02] |}.
Proof. reflexivity. Qed.

Example scenario_byte_123 :
  parse_viewstate float_str [xff; x01; x03; x7b]
  = Return {| value := VInt 123; macEnabled := false; raw := [x03; x7b] |}.
Proof. reflexivity. Qed.

(** C1: when the input starts with FF 01 and the root value decodes, the
    bytes left after it decide the result: none gives [macEnabled = false],
    20 or 32 give [macEnabled = true], any other number raises "Invalid
    trailing bytes length: n"; on success [raw] is the input without its
    two header bytes, which is the bytes of the root value followed by the
    trailer. *)
Theorem C1_trailer_classification (input : bytes) v remain ctx' :
  take 2 input = [xff; x01] ->
  Parser_parse float_str (drop 2 input) new_context
  = (Return (v, remain), ctx') ->
  (exists payload, payload <> [] /\ drop 2 input = payload ++ remain)
  /\ (length remain = 0%nat ->
      parse_viewstate float_str input
      = Return {| value := v; macEnabled := false; raw := drop 2 input |})
  /\ (length remain = 20%nat \/ length remain = 32%nat ->
      parse_viewstate float_str input
      = Return {| value := v; macEnabled := true; raw := drop 2 input |})
  /\ (length remain <> 0%nat -> length remain <> 20%nat ->
      length remain <> 32%nat ->
      parse_viewstate float_str input
      = Raise (ViewStateException
                 ("Invalid trailing bytes length: "
                    +:+ dec (Z.of_nat (length remain))))).
Proof.
  intros Hhead Hroot. split.
  - pose proof (Parser_parse_post float_str (drop 2 input) new_context)
      as [_ H].
    rewrite Hroot in H. cbn in H. destruct H as [Hne [pre Hpre]].
    destruct (drop 2 input) as [|c b] eqn:E; [congruence|].
    exists (c :: pre). split; [discriminate|].
    change (b = pre ++ remain) in Hpre. rewrite Hpre. reflexivity.
  - rewrite (parse_viewstate_header input Hhead) at 1 3 5.
    cbn [parse_viewstate]. rewrite Hroot. cbn [fst].
    repeat split.
    + intros ->. reflexivity.
    + intros [-> | ->]; reflexivity.
    + intros H0 H20 H32.
      destruct (length remain =? 0)%nat eqn:E0;
        [apply Nat.eqb_eq in E0; contradiction|].
      destruct (length remain =? 20)%nat eqn:E20;
        [apply Nat.eqb_eq in E20; contradiction|].
      destruct (length remain =? 32)%nat eqn:E32;
        [apply Nat.eqb_eq in E32; contradiction|].
      reflexivity.
Qed.

(** ** Reads past the end *)

(** A varint whose every byte has the continuation bit set, up to the end
    of the data, raises the module's own exception. *)
Lemma varint_loop_truncated msg b : forall n shift,
  Forall (fun c => Z.land (byte_val c) 0x80 <> 0) b ->
  varint_loop msg b n shift = Raise (ViewStateException msg).
Proof.
  induction b as [|c b IH]; intros n shift Hb; [reflexivity|].
  inversion Hb as [|? ? Hc Hb']; subst. cbn [varint_loop].
  apply Z.eqb_neq in Hc. rewrite Hc. apply IH, Hb'.
Qed.

Lemma read_7bit_truncated b :
  Forall (fun c => Z.land (byte_val c) 0x80 <> 0) b ->
  read_7bit_encoded_int b
  = Raise (ViewStateException
             "Unexpected end of data while reading 7-bit encoded int").
Proof. apply varint_loop_truncated. Qed.

Example integer_truncated :
  parse_viewstate float_str [xff; x01; x02; x80]
  = Raise (ViewStateException "Unexpected end of data while parsing integer").
Proof. reflexivity. Qed.

(** C2: a byte or char marker with nothing after it does not raise the
    module's own exception: [b[1]] raises [IndexError]; so do a type
    marker with nothing after it and a string read by [StringValue.parse]
    from no bytes at all (inside an enum, a string array or a formatted
    string). *)
Theorem C2_read_past_end_raises_IndexError :
  parse_viewstate float_str [xff; x01; x03] = Raise IndexError
  /\ parse_viewstate float_str [xff; x01; x04] = Raise IndexError
  /\ parse_viewstate float_str [xff; x01; x19] = Raise IndexError
  /\ parse_viewstate float_str [xff; x01; x0b] = Raise IndexError
  /\ parse_viewstate float_str [xff; x01; x15; x01] = Raise IndexError
  /\ parse_viewstate float_str [xff; x01; x28; x64] = Raise IndexError.
Proof. repeat split; reflexivity. Qed.

(** ** Varint round trip *)

(** C3: for [0 <= n <= 2^32 - 1], reading the 7-bit groups of [n] gives
    back [n] and leaves exactly the bytes that followed them. *)
Theorem C3_varint_round_trip (n : Z) (rest : bytes) :
  0 <= n <= 2 ^ 32 - 1 ->
  read_7bit_encoded_int (encode_7bit n ++ rest) = Return (n, rest).
Proof. intros [Hn _]. apply read_7bit_encode, Hn. Qed.

Example encode_300 : encode_7bit 300 = [xac; x02].
Proof. reflexivity. Qed.

End Envelope.

(** ** Stepping through a rule *)

Lemma bind_Return {A B} (m : M A) (k : A -> M B) ctx a ctx' :
  m ctx = (Return a, ctx') -> bind m k ctx = k a ctx'.
Proof. intros E. unfold bind. rewrite E. reflexivity. Qed.

Lemma bind_Raise {A B} (m : M A) (k : A -> M B) ctx e ctx' :
  m ctx = (Raise e, ctx') -> bind m k ctx = (Raise e, ctx').
Proof. intros E. unfold bind. rewrite E. reflexivity. Qed.

Lemma bind_lift_Return {A B} (o : outcome A) (k : A -> M B) ctx a :
  o = Return a -> bind (lift o) k ctx = k a ctx.
Proof. intros ->. reflexivity. Qed.

Lemma check_marker_ok (marker : byte) (b : bytes) name ctx :
  check_marker (marker :: b) (byte_val marker) name ctx = (Return tt, ctx).
Proof.
  unfold check_marker, bind, lift. cbn [bytes_getitem lookup list_lookup].
  rewrite Z.eqb_refl. reflexivity.
Qed.

(** The dispatcher on a registered marker is the rule of its class, applied
    to the same bytes. *)
Lemma Parser_parse_registered float_str marker cls b ctx :
  registry marker = Some cls ->
  Parser_parse float_str (marker :: b) ctx
  = cls_parse float_str (Parser_parse float_str) cls (marker :: b) ctx.
Proof.
  intros E. rewrite Parser_parse_unfold. unfold Parser_parse_body.
  rewrite E. reflexivity.
Qed.

(** ** The back-reference tables *)

Lemma ctx_step_prefix ctx ctx' :
  ctx_step ctx ctx' ->
  type_table ctx `prefix_of` type_table ctx'
  /\ string_table ctx `prefix_of` string_table ctx'.
Proof.
  intros []; cbn; split; try reflexivity; apply prefix_app_r; reflexivity.
Qed.

(** A grown context has the old tables as prefixes of the new ones: no
    entry was removed or replaced. *)
Lemma ctx_grow_prefix ctx ctx' :
  ctx_grow ctx ctx' ->
  type_table ctx `prefix_of` type_table ctx'
  /\ string_table ctx `prefix_of` string_table ctx'.
Proof.
  induction 1 as [|ctx ctx1 ctx2 Hstep _ [IHt IHs]]; [split; reflexivity|].
  destruct (ctx_step_prefix _ _ Hstep) as [Ht Hs].
  split; etrans; eassumption.
Qed.

Lemma list_getitem_out_of_range {A} (l : list A) idx :
  Z.of_nat (length l) <= idx -> list_getitem l idx = Raise IndexError.
Proof.
  intros Hidx. unfold list_getitem.
  destruct (idx <? 0) eqn:E; [apply Z.ltb_lt in E; lia|]. rewrite E.
  rewrite (lookup_ge_None_2 l (Z.to_nat idx)) by lia. reflexivity.
Qed.

Lemma TypeValue_reference (b : bytes) ctx idx b' :
  read_7bit_encoded_int b = Return (idx, b') ->
  TypeValue_parse (x19 :: x2b :: b) ctx
  = match list_getitem (type_table ctx) idx with
    | Return t => (Return (t, b'), ctx)
    | Raise IndexError =>
        (Raise (ViewStateException "Invalid type reference index"), ctx)
    | Raise e => (Raise e, ctx)
    | OutOfFuel => (OutOfFuel, ctx)
    end.
Proof.
  intros Hread. unfold TypeValue_parse.
  rewrite (bind_Return _ _ _ _ _ (check_marker_ok x19 _ "Type" ctx)).
  cbn [drop]. rewrite (bind_lift_Return _ _ _ 0x2B) by reflexivity.
  cbn [Z.eqb Pos.eqb drop]. rewrite (bind_lift_Return _ _ _ _ Hread).
  unfold bind, except_IndexError, get_type.
  destruct (list_getitem (type_table ctx) idx) as [t|[]|]; reflexivity.
Qed.

Lemma IndexedString_reference (c : byte) (b : bytes) ctx :
  IndexedString_parse (x1f :: c :: b) ctx
  = match list_getitem (string_table ctx) (byte_val c) with
    | Return s => (Return (VStr s, b), ctx)
    | Raise IndexError =>
        (Raise (ViewStateException "Invalid string reference index"), ctx)
    | Raise e => (Raise e, ctx)
    | OutOfFuel => (OutOfFuel, ctx)
    end.
Proof.
  unfold IndexedString_parse.
  rewrite (bind_lift_Return _ _ _ 0x1F) by reflexivity.
  cbn [Z.eqb Pos.eqb drop]. unfold bind, except_IndexError, get_string.
  destruct (list_getitem (string_table ctx) (byte_val c)) as [t|[]|];
    reflexivity.
Qed.

Section Tables.

Variable float_str : pyfloat -> pystr.

(** C4: a call of [Parser.parse] changes the context only by steps that
    put one entry at the end of a table, so both old tables are prefixes
    of the new ones, whatever the outcome; a type reference (19 2B index)
    whose index is not below the length of the type table, and a string
    reference (1F index) whose index is not below the length of the string
    table, raise "Invalid type reference index" and "Invalid string
    reference index". *)
Theorem C4_tables_append_only_and_checked (b : bytes) (ctx : ParserContext) :
  (let ctx' := (Parser_parse float_str b ctx).2 in
   ctx_grow ctx ctx'
   /\ type_table ctx `prefix_of` type_table ctx'
   /\ string_table ctx `prefix_of` string_table ctx')
  /\ (forall idx b',
        read_7bit_encoded_int b = Return (idx, b') ->
        Z.of_nat (length (type_table ctx)) <= idx ->
        TypeValue_parse (x19 :: x2b :: b) ctx
        = (Raise (ViewStateException "Invalid type reference index"), ctx)
        /\ Parser_parse float_str (x19 :: x2b :: b) ctx
           = (Raise (ViewStateException "Invalid type reference index"), ctx))
  /\ (forall c : byte,
        Z.of_nat (length (string_table ctx)) <= byte_val c ->
        Parser_parse float_str (x1f :: c :: b) ctx
        = (Raise (ViewStateException "Invalid string reference index"), ctx)).
Proof.
  split; [|split].
  - destruct (Parser_parse_post float_str b ctx) as [Hg _].
    cbn zeta. split; [exact Hg|]. apply ctx_grow_prefix, Hg.
  - intros idx b' Hread Hidx.
    assert (E : TypeValue_parse (x19 :: x2b :: b) ctx
                = (Raise (ViewStateException "Invalid type reference index"),
                   ctx)).
    { rewrite (TypeValue_reference b ctx idx b' Hread).
      rewrite list_getitem_out_of_range by exact Hidx. reflexivity. }
    split; [exact E|].
    rewrite (Parser_parse_registered float_str x19 TypeValue) by reflexivity.
    cbn [cls_parse]. apply bind_Raise, E.
  - intros c Hc.
    rewrite (Parser_parse_registered float_str x1f IndexedString)
      by reflexivity.
    cbn [cls_parse]. rewrite IndexedString_reference.
    rewrite list_getitem_out_of_range by exact Hc. reflexivity.
Qed.

End Tables.

(** ** Sparse arrays *)

(** The first [k] entries of the loop, then the rest. *)
Lemma sparse_loop_split (P : parser) len k n : forall b arr ctx,
  sparse_loop P len (k + n) b arr ctx
  = match sparse_loop P len k b arr ctx with
    | (Return (arr', b'), ctx') => sparse_loop P len n b' arr' ctx'
    | (Raise e, ctx') => (Raise e, ctx')
    | (OutOfFuel, ctx') => (OutOfFuel, ctx')
    end.
Proof.
  induction k as [|k IH]; intros b arr ctx; [reflexivity|].
  cbn [Nat.add sparse_loop]. unfold bind, lift, raise.
  destruct (read_7bit_encoded_int b) as [[idx b1]| |]; try reflexivity.
  destruct ((idx <? 0) || (len <=? idx)); [reflexivity|].
  destruct (P b1 ctx) as [[[val b2]| |] ctx1]; try reflexivity.
  apply IH.
Qed.

(** An index at or past the declared length stops the loop. *)
Lemma sparse_loop_invalid_index (P : parser) len n b arr ctx idx b' :
  read_7bit_encoded_int b = Return (idx, b') ->
  len <= idx ->
  sparse_loop P len (S n) b arr ctx
  = (Raise (ViewStateException "Invalid index in sparse array"), ctx).
Proof.
  intros Hread Hidx. cbn [sparse_loop].
  rewrite (bind_lift_Return _ _ _ _ Hread).
  replace (len <=? idx) with true by (symmetry; apply Z.leb_le, Hidx).
  rewrite orb_true_r. reflexivity.
Qed.

(** ** New values and back-references *)

Lemma byte_val_inj (c c' : byte) : byte_val c = byte_val c' -> c = c'.
Proof.
  unfold byte_val. intros E. apply N2Z.inj in E.
  pose proof (Byte.of_to_N c) as H. rewrite E, Byte.of_to_N in H.
  congruence.
Qed.

(** [StringValue.parse] does not touch the context. *)
Lemma StringValue_parse_ctx b ctx :
  StringValue_parse b ctx = ((StringValue_parse b ctx).1, ctx).
Proof.
  unfold StringValue_parse, check_marker, bind, lift, ret, raise.
  destruct (bytes_getitem b 0) as [c| |]; try reflexivity.
  destruct (c =? 5); try reflexivity.
  destruct (read_7bit_encoded_int (drop 1 b)) as [[n b1]| |]; try reflexivity.
  destruct (n <? 0); try reflexivity.
  destruct (n =? 0); try reflexivity.
  destruct (_ <? n); reflexivity.
Qed.

(** A type in its new-value form: the string is returned and goes at the
    end of the type table. *)
Lemma TypeValue_new (c : byte) (b : bytes) ctx :
  c <> x2b ->
  TypeValue_parse (x19 :: c :: b) ctx
  = match (StringValue_parse (c :: b) ctx).1 with
    | Return (s, b1) =>
        (Return (s, b1),
         {| type_table := type_table ctx ++ [s];
            string_table := string_table ctx |})
    | Raise e => (Raise e, ctx)
    | OutOfFuel => (OutOfFuel, ctx)
    end.
Proof.
  intros Hc. unfold TypeValue_parse.
  rewrite (bind_Return _ _ _ _ _ (check_marker_ok x19 _ "Type" ctx)).
  cbn [drop]. rewrite (bind_lift_Return _ _ _ (byte_val c)) by reflexivity.
  destruct (byte_val c =? 43) eqn:E.
  { apply Z.eqb_eq in E. destruct Hc. apply byte_val_inj. exact E. }
  unfold bind at 1. rewrite StringValue_parse_ctx.
  destruct (StringValue_parse (c :: b) ctx).1 as [[s b1]| |]; reflexivity.
Qed.

(** An indexed string in its new-value form. *)
Lemma IndexedString_new (b : bytes) ctx :
  IndexedString_parse (x1e :: b) ctx
  = match (StringValue_parse b ctx).1 with
    | Return (s, b1) =>
        (Return (VStr s, b1),
         {| type_table := type_table ctx;
            string_table := string_table ctx ++ [s] |})
    | Raise e => (Raise e, ctx)
    | OutOfFuel => (OutOfFuel, ctx)
    end.
Proof.
  unfold IndexedString_parse.
  rewrite (bind_lift_Return _ _ _ 0x1E) by reflexivity.
  cbn [Z.eqb Pos.eqb drop]. rewrite drop_0.
  unfold bind at 1. rewrite StringValue_parse_ctx.
  destruct (StringValue_parse b ctx).1 as [[s b1]| |]; reflexivity.
Qed.

Lemma grown_first_entry (tbl : list pystr) (s : pystr) :
  [s] `prefix_of` tbl -> list_getitem tbl 0 = Return s.
Proof.
  intros [ext ->]. reflexivity.
Qed.

Section BackReferences.

Variable float_str : pyfloat -> pystr.

(** C6 as the code has it: the root value of FF 01 19 05 03 66 6F 6F 19 2B
    00 is the type "foo", and the three bytes 19 2B 00 left after it are
    not a trailer, so [parse_viewstate] raises; decoded as two values one
    after the other with the same context, and as the pair FF 01 0F 19 05
    03 66 6F 6F 19 2B 00, both occurrences are "foo". In general a type
    (19 ...) or an indexed string (1E ...) that is decoded in its
    new-value form when its table is empty is what the reference with
    index 0 (19 2B 00, 1F 00) decodes to from then on. *)
Theorem C6_back_reference_resolves :
  parse_viewstate float_str
    [xff; x01; x19; x05; x03; x66; x6f; x6f; x19; x2b; x00]
  = Raise (ViewStateException "Invalid trailing bytes length: 3")
  /\ (exists ctx1,
        Parser_parse float_str
          [x19; x05; x03; x66; x6f; x6f; x19; x2b; x00] new_context
        = (Return (VStr (str "foo"), [x19; x2b; x00]), ctx1)
        /\ Parser_parse float_str [x19; x2b; x00] ctx1
           = (Return (VStr (str "foo"), []), ctx1))
  /\ parse_viewstate float_str
       [xff; x01; x0f; x19; x05; x03; x66; x6f; x6f; x19; x2b; x00]
     = Return {| value := VTuple [VStr (str "foo"); VStr (str "foo")];
                 macEnabled := false;
                 raw := [x0f; x19; x05; x03; x66; x6f; x6f; x19; x2b; x00] |}
  /\ (forall (c : byte) b v b1 ctx ctx1 ctx2 rest,
        c <> x2b ->
        type_table ctx = [] ->
        Parser_parse float_str (x19 :: c :: b) ctx = (Return (v, b1), ctx1) ->
        ctx_grow ctx1 ctx2 ->
        Parser_parse float_str (x19 :: x2b :: x00 :: rest) ctx2
        = (Return (v, rest), ctx2))
  /\ (forall b v b1 ctx ctx1 ctx2 rest,
        string_table ctx = [] ->
        Parser_parse float_str (x1e :: b) ctx = (Return (v, b1), ctx1) ->
        ctx_grow ctx1 ctx2 ->
        Parser_parse float_str (x1f :: x00 :: rest) ctx2
        = (Return (v, rest), ctx2)).
Proof.
  split; [reflexivity|]. split; [eexists; split; reflexivity|].
  split; [reflexivity|]. split.
  - intros c b v b1 ctx ctx1 ctx2 rest Hc Hempty Hnew Hgrow.
    rewrite (Parser_parse_registered float_str x19 TypeValue) in Hnew
      by reflexivity.
    cbn [cls_parse] in Hnew. unfold bind in Hnew.
    rewrite (TypeValue_new c b ctx Hc) in Hnew.
    destruct (StringValue_parse (c :: b) ctx).1 as [[s b1']| |];
      try discriminate.
    injection Hnew as <- <- <-.
    apply ctx_grow_prefix in Hgrow as [Ht _]. cbn in Ht.
    rewrite Hempty in Ht.
    rewrite (Parser_parse_registered float_str x19 TypeValue) by reflexivity.
    cbn [cls_parse]. unfold bind.
    rewrite (TypeValue_reference (x00 :: rest) ctx2 0 rest) by reflexivity.
    rewrite (grown_first_entry _ s Ht). reflexivity.
  - intros b v b1 ctx ctx1 ctx2 rest Hempty Hnew Hgrow.
    rewrite (Parser_parse_registered float_str x1e IndexedString) in Hnew
      by reflexivity.
    cbn [cls_parse] in Hnew. rewrite IndexedString_new in Hnew.
    destruct (StringValue_parse b ctx).1 as [[s b1']| |]; try discriminate.
    injection Hnew as <- <- <-.
    apply ctx_grow_prefix in Hgrow as [_ Hs]. cbn in Hs.
    rewrite Hempty in Hs.
    rewrite (Parser_parse_registered float_str x1f IndexedString)
      by reflexivity.
    cbn [cls_parse]. rewrite IndexedString_reference.
    change (byte_val x00) with 0.
    rewrite (grown_first_entry _ s Hs). reflexivity.
Qed.

End BackReferences.

(** ** The dispatcher and the marker *)

Lemma check_marker_bad (c : byte) (b : bytes) m name ctx :
  byte_val c <> m ->
  check_marker (c :: b) m name ctx
  = (Raise (ViewStateException ("Invalid marker for " +:+ name)), ctx).
Proof.
  intros Hc. unfold check_marker, bind, lift.
  cbn [bytes_getitem lookup list_lookup].
  destruct (Z.eqb_spec (byte_val c) m); [contradiction|reflexivity].
Qed.

Lemma registry_checked_marker marker cls m name :
  registry marker = Some cls -> checked_marker cls = Some (m, name) ->
  byte_val marker = m.
Proof.
  intros Hreg Hcls.
  destruct marker; try discriminate Hreg; injection Hreg as <-;
    try discriminate Hcls; injection Hcls as <- _; reflexivity.
Qed.

Lemma cls_parse_wrong_marker float_str rec cls m name (c : byte) b ctx :
  checked_marker cls = Some (m, name) -> byte_val c <> m ->
  cls_parse float_str rec cls (c :: b) ctx
  = (Raise (ViewStateException ("Invalid marker for " +:+ name)), ctx).
Proof.
  intros Hcls Hc.
  destruct cls; try discriminate Hcls; injection Hcls as <- <-;
    cbn [cls_parse];
    first [ apply bind_Raise; apply check_marker_bad, Hc
          | apply bind_Raise; apply bind_Raise; apply check_marker_bad, Hc ].
Qed.

Lemma cls_parse_unchecked_marker float_str rec cls (c c' : byte) b ctx :
  checked_marker cls = None ->
  (cls = IndexedString -> (c = x1f <-> c' = x1f)) ->
  cls_parse float_str rec cls (c :: b) ctx
  = cls_parse float_str rec cls (c' :: b) ctx.
Proof.
  intros Hcls Hidx.
  destruct cls; try discriminate Hcls; try reflexivity.
  specialize (Hidx eq_refl). cbn [cls_parse]. unfold IndexedString_parse.
  rewrite !(bind_lift_Return _ _ _ (byte_val _)) by reflexivity.
  cbn [drop].
  destruct (Z.eqb_spec (byte_val c) 31) as [E|E],
    (Z.eqb_spec (byte_val c') 31) as [E'|E']; try reflexivity.
  - apply (byte_val_inj c x1f) in E. apply Hidx in E. subst c'.
    destruct E'. reflexivity.
  - apply (byte_val_inj c' x1f) in E'. apply Hidx in E'. subst c.
    destruct E. reflexivity.
Qed.

Section Marker.

Variable float_str : pyfloat -> pystr.

(** C7 as the code has it: [Parser.parse] reads the marker without
    consuming it and gives the whole of [b], marker included, to the class
    registered for it; what the rule leaves on success is a suffix of the
    bytes after the marker, so the marker is removed once, by the rule;
    twenty-two of the thirty rules compare the first byte they are given
    with their marker ([checked_marker]) and raise "Invalid marker for .."
    when it is another, which the dispatcher never causes and which
    happens when another rule calls the rule directly on bytes that do not
    start with its marker (a string-array element, the type of an enum);
    the other eight make no such comparison: [Noop], the five constants
    and [DictValue] do the same whatever the first byte is, and
    [IndexedString] only tells 1F from every other byte; a marker with
    no registered class raises "Unknown marker 0x.." with that byte, as FF
    01 FE does. *)
Theorem C7_dispatch_passes_marker (marker : byte) (payload : bytes)
    (ctx : ParserContext) :
  Parser_parse float_str (marker :: payload) ctx
  = match registry marker with
    | Some cls =>
        cls_parse float_str (Parser_parse float_str) cls (marker :: payload)
          ctx
    | None =>
        (Raise (ViewStateException
                  ("Unknown marker 0x" +:+ hex2 (byte_val marker))), ctx)
    end
  /\ (forall v rest ctx',
        Parser_parse float_str (marker :: payload) ctx
        = (Return (v, rest), ctx') ->
        rest `suffix_of` payload)
  /\ (marker <> x02 ->
      Integer_parse (marker :: payload) ctx
      = (Raise (ViewStateException "Invalid marker for Integer"), ctx))
  /\ parse_viewstate float_str [xff; x01; x15; x01; x02; x01]
     = Raise (ViewStateException "Invalid marker for String")
  /\ parse_viewstate float_str [xff; x01; x0b; x05; x00; x00]
     = Raise (ViewStateException "Invalid marker for Type")
  /\ parse_viewstate float_str [xff; x01; xfe]
     = Raise (ViewStateException "Unknown marker 0xfe")
  /\ (forall cls m name,
        checked_marker cls = Some (m, name) ->
        (registry marker = Some cls -> byte_val marker = m)
        /\ (forall rec,
              byte_val marker <> m ->
              cls_parse float_str rec cls (marker :: payload) ctx
              = (Raise (ViewStateException ("Invalid marker for " +:+ name)),
                 ctx)))
  /\ (forall cls rec (c : byte),
        checked_marker cls = None ->
        (cls = IndexedString -> (marker = x1f <-> c = x1f)) ->
        cls_parse float_str rec cls (marker :: payload) ctx
        = cls_parse float_str rec cls (c :: payload) ctx).
Proof.
  split; [|split; [|split; [|split; [|split; [|split; [|split]]]]]];
    try reflexivity.
  - rewrite Parser_parse_unfold. unfold Parser_parse_body.
    destruct (registry marker); reflexivity.
  - intros v rest ctx' E.
    destruct (Parser_parse_post float_str (marker :: payload) ctx) as [_ H].
    rewrite E in H. cbn in H. destruct H as [_ H].
    rewrite drop_0 in H. exact H.
  - intros Hm. unfold Integer_parse, check_marker.
    rewrite (bind_Raise _ _ _
               (ViewStateException "Invalid marker for Integer") ctx);
      [reflexivity|].
    rewrite (bind_lift_Return _ _ _ (byte_val marker)) by reflexivity.
    destruct (byte_val marker =? 2) eqn:E; [|reflexivity].
    apply Z.eqb_eq in E. destruct Hm. apply byte_val_inj, E.
  - intros cls m name Hcls. split.
    + intros Hreg. apply (registry_checked_marker marker cls m name Hreg Hcls).
    + intros rec Hm. apply (cls_parse_wrong_marker _ _ _ _ _ _ _ _ Hcls Hm).
  - intros cls rec c Hcls Hidx. apply cls_parse_unchecked_marker; assumption.
Qed.

(** ** Formatted strings *)

(** C8: a formatted string (28) is a nested value, read through
    [Parser.parse], then a string read by [StringValue.parse]; when the
    nested value is [None] the result is [None], otherwise it is
    "SerialisedObject(" + the string + ")"; either way the bytes left are
    the ones after the string. *)
Theorem C8_formatted_string b type_ref b1 s b2 ctx ctx1 :
  Parser_parse float_str b ctx = (Return (type_ref, b1), ctx1) ->
  StringValue_parse b1 ctx1 = (Return (s, b2), ctx1) ->
  Parser_parse float_str (x28 :: b) ctx
  = (Return (match type_ref with
             | VNone => VNone
             | _ => VStr (str "SerialisedObject(" ++ s ++ str ")")
             end, b2), ctx1).
Proof.
  intros Htype Hs.
  rewrite (Parser_parse_registered float_str x28 FormattedString)
    by reflexivity.
  cbn [cls_parse]. unfold FormattedString_parse.
  rewrite (bind_Return _ _ _ _ _
             (check_marker_ok x28 _ "FormattedString" ctx)).
  cbn [drop]. rewrite drop_0. rewrite (bind_Return _ _ _ _ _ Htype).
  rewrite (bind_Return _ _ _ _ _ Hs).
  destruct type_ref; reflexivity.
Qed.

End Marker.

(** ** Dicts *)

Lemma pairs_decode_length P n b ctx kvs b' ctx' :
  pairs_decode P n b ctx kvs b' ctx' -> length kvs = n.
Proof. induction 1; cbn; congruence. Qed.

Lemma dict_loop_pairs P n b ctx kvs b' ctx' :
  pairs_decode P n b ctx kvs b' ctx' ->
  Forall (fun kv => hashable kv.1 = true) kvs ->
  forall d, dict_loop P n b d ctx = (Return (dict_update d kvs, b'), ctx').
Proof.
  induction 1 as [|n b ctx k b1 ctx1 v b2 ctx2 kvs b3 ctx3 Hk Hv _ IH];
    intros Hhash d; [reflexivity|].
  inversion Hhash as [|? ? Hh Hhash']; subst. cbn in Hh.
  cbn [dict_loop]. rewrite (bind_Return _ _ _ _ _ Hk).
  rewrite (bind_Return _ _ _ _ _ Hv).
  unfold dict_setitem. rewrite Hh.
  rewrite (bind_lift_Return _ _ _ (dict_set d k v)) by reflexivity.
  apply IH, Hhash'.
Qed.

Lemma dict_loop_inv P n : forall b d ctx d' b' ctx',
  dict_loop P n b d ctx = (Return (d', b'), ctx') ->
  exists kvs,
    pairs_decode P n b ctx kvs b' ctx'
    /\ Forall (fun kv => hashable kv.1 = true) kvs
    /\ d' = dict_update d kvs.
Proof.
  induction n as [|n IH]; intros b d ctx d' b' ctx' E.
  - injection E as <- <- <-. exists []. repeat split; constructor.
  - cbn [dict_loop] in E. unfold bind at 1 in E.
    destruct (P b ctx) as [[[k b1]| |] ctx1] eqn:Hk; try discriminate.
    unfold bind at 1 in E.
    destruct (P b1 ctx1) as [[[v b2]| |] ctx2] eqn:Hv; try discriminate.
    unfold bind, lift, dict_setitem in E.
    destruct (hashable k) eqn:Hh; try discriminate.
    destruct (IH _ _ _ _ _ _ E) as (kvs & Hp & Hhash & ->).
    exists ((k, v) :: kvs). split; [econstructor; eassumption|].
    split; [constructor; assumption|reflexivity].
Qed.

Lemma dict_set_length d k v :
  (length d <= length (dict_set d k v) <= S (length d))%nat.
Proof.
  induction d as [|[k0 v0] d IH]; cbn; [lia|].
  destruct (key_eq k0 k); cbn; lia.
Qed.

Lemma dict_update_length kvs : forall d,
  (length (dict_update d kvs) <= length d + length kvs)%nat.
Proof.
  induction kvs as [|[k v] kvs IH]; intros d; cbn; [lia|].
  etrans; [apply IH|]. pose proof (dict_set_length d k v). lia.
Qed.

(** [d[k] = v] replaces the value of the first entry whose key equals [k],
    in place, and adds an entry at the end when there is none. *)
Lemma dict_set_spec d k v :
  (exists pre k0 v0 post,
      d = pre ++ (k0, v0) :: post
      /\ Forall (fun e => key_eq e.1 k = false) pre
      /\ key_eq k0 k = true
      /\ dict_set d k v = pre ++ (k0, v) :: post)
  \/ (Forall (fun e => key_eq e.1 k = false) d
      /\ dict_set d k v = d ++ [(k, v)]).
Proof.
  induction d as [|[k0 v0] d IH]; cbn [dict_set].
  - right. split; [constructor|reflexivity].
  - destruct (key_eq k0 k) eqn:E.
    + left. exists [], k0, v0, d. repeat split; [constructor|exact E].
    + destruct IH as [(pre & k1 & v1 & post & -> & Hpre & Hk & ->)
                     |[Hd ->]].
      * left. exists ((k0, v0) :: pre), k1, v1, post.
        repeat split; [constructor; assumption|exact Hk].
      * right. split; [constructor; assumption|reflexivity].
Qed.

Section Dicts.

Variable float_str : pyfloat -> pystr.

(** C10: a dict with either marker (17 or 18) that declares [n] pairs
    decodes exactly [n] keys and values, one after the other, and is built
    from them by [d[key] = value]: a pair whose key equals the key of an
    entry replaces the value of that entry, so the dict can have fewer
    than [n] entries (two declared pairs with the keys 1 and True give one
    entry); the two markers give the same outcome on the same payload. *)
Theorem C10_dict_pairs (b : bytes) (ctx : ParserContext) :
  Parser_parse float_str (x17 :: b) ctx = Parser_parse float_str (x18 :: b) ctx
  /\ (forall n b1 kvs b2 ctx2,
        read_7bit_encoded_int b = Return (n, b1) ->
        pairs_decode (Parser_parse float_str) (Z.to_nat n) b1 ctx kvs b2 ctx2 ->
        Forall (fun kv => hashable kv.1 = true) kvs ->
        Parser_parse float_str (x17 :: b) ctx
        = (Return (VDict (dict_update [] kvs), b2), ctx2)
        /\ length kvs = Z.to_nat n
        /\ (length (dict_update [] kvs) <= Z.to_nat n)%nat)
  /\ (forall v b2 ctx2,
        Parser_parse float_str (x17 :: b) ctx = (Return (v, b2), ctx2) ->
        exists n b1 kvs,
          read_7bit_encoded_int b = Return (n, b1)
          /\ pairs_decode (Parser_parse float_str) (Z.to_nat n) b1 ctx kvs
               b2 ctx2
          /\ length kvs = Z.to_nat n
          /\ v = VDict (dict_update [] kvs))
  /\ (forall d k v,
        (exists pre k0 v0 post,
            d = pre ++ (k0, v0) :: post
            /\ Forall (fun e => key_eq e.1 k = false) pre
            /\ key_eq k0 k = true
            /\ dict_update d [(k, v)] = pre ++ (k0, v) :: post)
        \/ (Forall (fun e => key_eq e.1 k = false) d
            /\ dict_update d [(k, v)] = d ++ [(k, v)]))
  /\ (forall k1 v1 k2 v2,
        key_eq k1 k2 = true ->
        dict_update [] [(k1, v1); (k2, v2)] = [(k1, v2)])
  /\ parse_viewstate float_str [xff; x01; x17; x02; x02; x01; x65; x67; x66]
     = Return {| value := VDict [(VInt 1, VInt 0)]; macEnabled := false;
                 raw := [x17; x02; x02; x01; x65; x67; x66] |}.
Proof.
  assert (Hdict : forall marker,
             registry marker = Some DictValue ->
             Parser_parse float_str (marker :: b) ctx
             = (let* (n, b) := lift (read_7bit_encoded_int b) in
                let* (d, b) :=
                  dict_loop (Parser_parse float_str) (Z.to_nat n) b [] in
                ret (VDict d, b)) ctx).
  { intros marker Hreg.
    rewrite (Parser_parse_registered float_str marker DictValue b ctx Hreg).
    cbn [cls_parse]. unfold DictValue_parse.
    rewrite (bind_lift_Return _ _ _ (byte_val marker)) by reflexivity.
    cbn [drop]. rewrite drop_0. reflexivity. }
  split; [|split; [|split; [|split; [|split]]]].
  - rewrite !Hdict by reflexivity. reflexivity.
  - intros n b1 kvs b2 ctx2 Hn Hpairs Hhash.
    split; [|split].
    + rewrite Hdict by reflexivity.
      rewrite (bind_lift_Return _ _ _ _ Hn).
      rewrite (bind_Return _ _ _ _ _ (dict_loop_pairs _ _ _ _ _ _ _
                                        Hpairs Hhash [])).
      reflexivity.
    + apply (pairs_decode_length _ _ _ _ _ _ _ Hpairs).
    + rewrite <- (pairs_decode_length _ _ _ _ _ _ _ Hpairs).
      apply (dict_update_length kvs []).
  - intros v b2 ctx2 E. rewrite Hdict in E by reflexivity.
    unfold bind at 1, lift in E.
    destruct (read_7bit_encoded_int b) as [[n b1]| |]; try discriminate.
    unfold bind in E.
    destruct (dict_loop (Parser_parse float_str) (Z.to_nat n) b1 [] ctx)
      as [[[d b']| |] ctx'] eqn:Hloop; try discriminate.
    injection E as <- <- <-.
    destruct (dict_loop_inv _ _ _ _ _ _ _ _ Hloop) as (kvs & Hp & _ & ->).
    exists n, b1, kvs. repeat split; try assumption.
    apply (pairs_decode_length _ _ _ _ _ _ _ Hp).
  - intros d k v. apply dict_set_spec.
  - intros k1 v1 k2 v2 E. cbn. rewrite E. reflexivity.
  - reflexivity.
Qed.

End Dicts.

(** * Further properties

    Properties of the source that the specification does not state. *)

(** ** The 7-bit reader, on every input *)

Lemma lor_below a b k : 0 <= k -> 0 <= a < 2 ^ k -> 0 <= b < 2 ^ k ->
  0 <= Z.lor a b < 2 ^ k.
Proof.
  intros Hk Ha Hb. split; [apply Z.lor_nonneg; lia|].
  destruct (Z.eq_dec a 0) as [->|Ha0]; [rewrite Z.lor_0_l; lia|].
  destruct (Z.eq_dec b 0) as [->|Hb0]; [rewrite Z.lor_0_r; lia|].
  assert (0 <= Z.lor a b) by (apply Z.lor_nonneg; lia).
  destruct (Z.eq_dec (Z.lor a b) 0) as [->|Hnz]; [lia|].
  apply Z.log2_lt_pow2; [lia|].
  rewrite Z.log2_lor by lia.
  apply Z.max_lub_lt; apply Z.log2_lt_pow2; lia.
Qed.

Lemma group_shift_below c shift :
  0 <= shift ->
  0 <= Z.shiftl (Z.land (byte_val c) 0x7F) shift < 2 ^ (shift + 7).
Proof.
  intros Hs. pose proof (byte_val_range c).
  assert (0 <= Z.land (byte_val c) 127 < 128).
  { change 127 with (Z.ones 7). rewrite Z.land_ones by lia.
    apply Z.mod_pos_bound. lia. }
  rewrite Z.shiftl_mul_pow2 by lia. rewrite Z.pow_add_r by lia.
  change (2 ^ 7) with 128. nia.
Qed.

Lemma varint_loop_returns msg b : forall acc shift n rest,
  0 <= shift -> 0 <= acc < 2 ^ shift ->
  varint_loop msg b acc shift = Return (n, rest) ->
  exists pre c,
    b = pre ++ c :: rest
    /\ Forall continues pre
    /\ ~ continues c
    /\ 0 <= n < 2 ^ (shift + 7 * Z.of_nat (S (length pre))).
Proof.
  induction b as [|c b IH]; intros acc shift n rest Hs Hacc E;
    cbn [varint_loop] in E; [discriminate|].
  pose proof (group_shift_below c shift Hs) as Hg.
  assert (Hacc' : 0 <= Z.lor acc (Z.shiftl (Z.land (byte_val c) 127) shift)
                  < 2 ^ (shift + 7)).
  { apply lor_below; [lia| |exact Hg].
    split; [lia|]. eapply Z.lt_le_trans; [apply Hacc|].
    apply Z.pow_le_mono_r; lia. }
  destruct (Z.land (byte_val c) 128 =? 0) eqn:Ec.
  - injection E as <- <-. exists [], c. split; [reflexivity|].
    split; [constructor|]. split.
    + intros H. apply H, Z.eqb_eq, Ec.
    + cbn [length]. replace (shift + 7 * Z.of_nat 1) with (shift + 7) by lia.
      exact Hacc'.
  - assert (Hs' : 0 <= shift + 7) by lia.
    destruct (IH _ _ _ _ Hs' Hacc' E)
      as (pre & c' & -> & Hpre & Hc' & Hn).
    exists (c :: pre), c'. split; [reflexivity|].
    split; [constructor; [apply Z.eqb_neq, Ec|exact Hpre]|].
    split; [exact Hc'|].
    cbn [length]. 
    replace (shift + 7 * Z.of_nat (S (S (length pre))))
      with (shift + 7 + 7 * Z.of_nat (S (length pre))) by lia.
    exact Hn.
Qed.

Lemma varint_loop_raises msg b : forall acc shift e,
  varint_loop msg b acc shift = Raise e ->
  Forall continues b /\ e = ViewStateException msg.
Proof.
  induction b as [|c b IH]; intros acc shift e E; cbn [varint_loop] in E.
  - injection E as <-. split; [constructor|reflexivity].
  - destruct (Z.land (byte_val c) 128 =? 0) eqn:Ec; [discriminate|].
    destruct (IH _ _ _ E) as [Hb ->]. split; [|reflexivity].
    constructor; [apply Z.eqb_neq, Ec|exact Hb].
Qed.

Lemma varint_loop_messages msg1 msg2 b : forall acc shift,
  varint_loop msg2 b acc shift
  = match varint_loop msg1 b acc shift with
    | Raise _ => Raise (ViewStateException msg2)
    | r => r
    end.
Proof.
  induction b as [|c b IH]; intros acc shift; cbn [varint_loop];
    [reflexivity|].
  destruct (_ =? 0); [reflexivity|apply IH].
Qed.

(** X1: [read_7bit_encoded_int] fails exactly on the inputs in which
    every byte has its continuation bit set (the empty input among them);
    it fails with "Unexpected end of data while reading 7-bit encoded int"
    and with nothing else, however many bytes it is given. *)
Theorem read_7bit_fails_iff_unterminated b :
  (Forall continues b
   <-> read_7bit_encoded_int b
       = Raise (ViewStateException
                  "Unexpected end of data while reading 7-bit encoded int"))
  /\ (forall e, read_7bit_encoded_int b = Raise e ->
        e = ViewStateException
              "Unexpected end of data while reading 7-bit encoded int")
  /\ read_7bit_encoded_int b <> OutOfFuel.
Proof.
  split; [split|split].
  - apply read_7bit_truncated.
  - intros E. apply (varint_loop_raises _ _ _ _ _ E).
  - intros e E. apply (varint_loop_raises _ _ _ _ _ E).
  - intros E.
    destruct (varint_loop_spec _ b 0 0 _ (Z.le_refl 0) (Z.le_refl 0) E)
      as [H _].
    apply H. reflexivity.
Qed.

(** X2: when [read_7bit_encoded_int] returns, it has consumed a run of
    bytes with the continuation bit set and one byte without it, what it
    returns after them is the input after that byte, and the number is
    non-negative and below 2^(7k) for the k bytes consumed: there is no
    bound on k, so none on the number. *)
Theorem read_7bit_returns_shape b n rest :
  read_7bit_encoded_int b = Return (n, rest) ->
  exists pre c,
    b = pre ++ c :: rest
    /\ Forall continues pre
    /\ ~ continues c
    /\ 0 <= n < 2 ^ (7 * Z.of_nat (S (length pre))).
Proof.
  intros E.
  assert (H0 : 0 <= 0 < 2 ^ 0) by (change (2 ^ 0) with 1; lia).
  destruct (varint_loop_returns _ b 0 0 n rest (Z.le_refl 0) H0 E)
    as (pre & c & Hb & Hpre & Hc & Hn).
  rewrite Z.add_0_l in Hn. exists pre, c. auto.
Qed.

(** X3: the loop written out in [Integer.parse] computes what
    [read_7bit_encoded_int] computes on the bytes after the marker; only
    the message of the failure differs. *)
Theorem Integer_parse_as_read_7bit p ctx :
  Integer_parse (x02 :: p) ctx
  = match read_7bit_encoded_int p with
    | Return (n, rest) => (Return (VInt n, rest), ctx)
    | Raise _ =>
        (Raise (ViewStateException
                  "Unexpected end of data while parsing integer"), ctx)
    | OutOfFuel => (OutOfFuel, ctx)
    end.
Proof.
  unfold Integer_parse.
  rewrite (bind_Return _ _ _ _ _ (check_marker_ok x02 _ "Integer" ctx)).
  cbn [drop]. rewrite drop_0. unfold bind, lift, read_7bit_encoded_int.
  rewrite (varint_loop_messages
             "Unexpected end of data while reading 7-bit encoded int"
             "Unexpected end of data while parsing integer").
  destruct (varint_loop _ p 0 0) as [[n rest]| |]; reflexivity.
Qed.

Lemma Integer_parse_encode n rest ctx :
  0 <= n ->
  Integer_parse (x02 :: encode_7bit n ++ rest) ctx
  = (Return (VInt n, rest), ctx).
Proof.
  intros Hn. unfold Integer_parse.
  rewrite (bind_Return _ _ _ _ _ (check_marker_ok x02 _ "Integer" ctx)).
  cbn [drop]. rewrite drop_0. unfold bind, lift.
  pose proof (read_7bit_encode n rest Hn) as E.
  unfold read_7bit_encoded_int in E.
  rewrite (varint_loop_messages
             "Unexpected end of data while reading 7-bit encoded int"
             "Unexpected end of data while parsing integer"), E.
  reflexivity.
Qed.

(** ** Fixed-width integers *)

Lemma from_bytes_little_range bs :
  0 <= from_bytes_little bs < 256 ^ Z.of_nat (length bs).
Proof.
  induction bs as [|c bs IH]; [cbn; lia|].
  cbn [from_bytes_little length]. pose proof (byte_val_range c).
  rewrite Nat2Z.inj_succ, Z.pow_succ_r by lia. lia.
Qed.

Lemma from_to_bytes_little k : forall n,
  0 <= n < 256 ^ Z.of_nat k ->
  from_bytes_little (to_bytes_little k n) = n.
Proof.
  induction k as [|k IH]; intros n Hn.
  - cbn in *. lia.
  - cbn [to_bytes_little from_bytes_little].
    rewrite Nat2Z.inj_succ, Z.pow_succ_r in Hn by lia.
    rewrite byte_val_of_Z by (apply Z.mod_pos_bound; lia).
    rewrite IH.
    + pose proof (Z.div_mod n 256 ltac:(lia)). lia.
    + split; [apply Z.div_pos; lia|].
      apply Z.div_lt_upper_bound; lia.
Qed.

Lemma length_to_bytes_little k : forall n, length (to_bytes_little k n) = k.
Proof. induction k; intros n; cbn; [reflexivity|f_equal; auto]. Qed.

Lemma read_int32_to_bytes n rest :
  0 <= n < 2 ^ 32 ->
  read_int32 (to_bytes_little 4 n ++ rest) = Return (n, rest).
Proof.
  intros Hn.
  - unfold read_int32.
    rewrite length_app, length_to_bytes_little. cbn [Nat.ltb Nat.leb Nat.add].
    rewrite (take_app_length' _ _ 4), (drop_app_length' _ _ 4)
      by (symmetry; apply length_to_bytes_little).
    rewrite from_to_bytes_little by (change (256 ^ Z.of_nat 4) with (2 ^ 32); lia).
    reflexivity.
Qed.

Lemma read_int64_to_bytes n rest :
  0 <= n < 2 ^ 64 ->
  read_int64 (to_bytes_little 8 n ++ rest) = Return (n, rest).
Proof.
  intros Hn.
  - unfold read_int64.
    rewrite length_app, length_to_bytes_little. cbn [Nat.ltb Nat.leb Nat.add].
    rewrite (take_app_length' _ _ 8), (drop_app_length' _ _ 8)
      by (symmetry; apply length_to_bytes_little).
    rewrite from_to_bytes_little by (change (256 ^ Z.of_nat 8) with (2 ^ 64); lia).
    reflexivity.
Qed.

(** X5: [read_int32] and [read_int64] read back the 4 and the 8
    little-endian bytes of an unsigned number and leave what follows: both
    are unsigned, whatever the top bit. *)
Theorem read_int32_int64_round_trip n rest :
  (0 <= n < 2 ^ 32 ->
   read_int32 (to_bytes_little 4 n ++ rest) = Return (n, rest))
  /\ (0 <= n < 2 ^ 64 ->
      read_int64 (to_bytes_little 8 n ++ rest) = Return (n, rest)).
Proof.
  split; [apply read_int32_to_bytes|apply read_int64_to_bytes].
Qed.

(** X6: [read_int16] is signed: it reads back a number between -2^15 and
    2^15 - 1 from the 2 little-endian bytes of its two's complement. *)
Theorem read_int16_signed_round_trip n rest :
  - 2 ^ 15 <= n < 2 ^ 15 ->
  read_int16 (to_bytes_little 2 (n mod 2 ^ 16) ++ rest) = Return (n, rest).
Proof.
  intros Hn. unfold read_int16.
  rewrite length_app, length_to_bytes_little. cbn [Nat.ltb Nat.leb Nat.add].
  rewrite (take_app_length' _ _ 2), (drop_app_length' _ _ 2)
    by (symmetry; apply length_to_bytes_little).
  unfold from_bytes_little_signed. rewrite length_to_bytes_little.
  pose proof (Z.mod_pos_bound n (2 ^ 16) ltac:(lia)) as Hm.
  rewrite from_to_bytes_little by (change (256 ^ Z.of_nat 2) with (2 ^ 16); lia).
  change (8 * Z.of_nat 2) with 16. change (16 - 1) with 15.
  destruct (Z.ltb_spec (n mod 2 ^ 16) (2 ^ 15)) as [Hlt|Hge]; do 2 f_equal.
  - destruct (Z_lt_dec n 0) as [Hneg|Hpos].
    + replace n with ((n + 2 ^ 16) + (-1) * 2 ^ 16) in Hlt by lia.
      rewrite Z.mod_add, Z.mod_small in Hlt by lia. lia.
    + apply Z.mod_small. lia.
  - destruct (Z_lt_dec n 0) as [Hneg|Hpos].
    + replace n with ((n + 2 ^ 16) + (-1) * 2 ^ 16) at 1 by lia.
      rewrite Z.mod_add, Z.mod_small by lia. lia.
    + rewrite Z.mod_small in Hge by lia. lia.
Qed.

(** ** Strings *)

Lemma utf8_ascii bs :
  Forall (fun c => byte_val c < 0x80) bs ->
  utf8_decode_replace bs = map byte_val bs.
Proof.
  induction 1 as [|c bs Hc _ IH]; [reflexivity|].
  cbn [utf8_decode_replace map].
  destruct (Z.ltb_spec (byte_val c) 128); [|lia]. rewrite IH. reflexivity.
Qed.

Lemma StringValue_parse_encode bs rest ctx :
  StringValue_parse (encode_string bs ++ rest) ctx
  = (Return (utf8_decode_replace bs, rest), ctx).
Proof.
  unfold StringValue_parse, encode_string. rewrite <- app_comm_cons.
  rewrite (bind_Return _ _ _ _ _ (check_marker_ok x05 _ "String" ctx)).
  cbn [drop]. rewrite drop_0, <- app_assoc.
  rewrite (bind_lift_Return _ _ _ _ (read_7bit_encode _ _ (Nat2Z.is_nonneg _))).
  destruct (Z.ltb_spec (Z.of_nat (length bs)) 0) as [Hneg|_]; [lia|].
  destruct (Z.eqb_spec (Z.of_nat (length bs)) 0) as [Hz|Hnz].
  - destruct bs; [reflexivity|cbn in Hz; lia].
  - rewrite length_app.
    destruct (Z.ltb_spec (Z.of_nat (length bs + length rest))
                (Z.of_nat (length bs))) as [Hlt|_]; [lia|].
    rewrite Nat2Z.id, take_app_length, drop_app_length. reflexivity.
Qed.

Lemma StringValue_parse_short n bs ctx :
  0 <= n -> Z.of_nat (length bs) < n ->
  StringValue_parse (x05 :: encode_7bit n ++ bs) ctx
  = (Raise (ViewStateException "Not enough bytes for string"), ctx).
Proof.
  intros Hn Hshort. unfold StringValue_parse.
  rewrite (bind_Return _ _ _ _ _ (check_marker_ok x05 _ "String" ctx)).
  cbn [drop]. rewrite drop_0.
  rewrite (bind_lift_Return _ _ _ _ (read_7bit_encode _ _ Hn)).
  destruct (Z.ltb_spec n 0); [lia|].
  destruct (Z.eqb_spec n 0); [lia|].
  destruct (Z.ltb_spec (Z.of_nat (length bs)) n); [reflexivity|lia].
Qed.

Section Strings.
Variable float_str : pyfloat -> pystr.

(** X12: a string production, the marker 05, the length as 7-bit groups
    and that many bytes below 0x80, decodes to the string of those
    characters, leaves what follows and leaves the context as it was. *)
Theorem string_round_trip bs rest ctx :
  Forall (fun c => byte_val c < 0x80) bs ->
  Parser_parse float_str (encode_string bs ++ rest) ctx
  = (Return (VStr (map byte_val bs), rest), ctx).
Proof.
  intros Hascii. unfold encode_string. rewrite <- app_comm_cons.
  rewrite (Parser_parse_registered float_str x05 StringValue)
    by reflexivity.
  cbn [cls_parse].
  change (x05 :: encode_7bit (Z.of_nat (length bs)) ++ bs ++ rest)
    with (x05 :: (encode_7bit (Z.of_nat (length bs)) ++ bs ++ rest)).
  replace (x05 :: (encode_7bit (Z.of_nat (length bs)) ++ bs ++ rest))
    with (encode_string bs ++ rest)
    by (unfold encode_string; rewrite <- app_comm_cons, <- app_assoc;
        reflexivity).
  rewrite (bind_Return _ _ _ _ _ (StringValue_parse_encode bs rest ctx)).
  rewrite (utf8_ascii bs Hascii). reflexivity.
Qed.

(** X13: a string whose declared length exceeds the bytes that follow
    raises "Not enough bytes for string"; nothing is returned for the
    bytes there are. *)
Theorem string_short_payload n bs ctx :
  0 <= n -> Z.of_nat (length bs) < n ->
  Parser_parse float_str (x05 :: encode_7bit n ++ bs) ctx
  = (Raise (ViewStateException "Not enough bytes for string"), ctx).
Proof.
  intros Hn Hshort.
  rewrite (Parser_parse_registered float_str x05 StringValue)
    by reflexivity.
  cbn [cls_parse]. apply bind_Raise.
  apply (StringValue_parse_short n bs ctx Hn Hshort).
Qed.

End Strings.

(** ** Collections *)

Lemma values_loop_length P n : forall b arr ctx arr' b' ctx',
  values_loop P n b arr ctx = (Return (arr', b'), ctx') ->
  exists items, arr' = arr ++ items /\ length items = n.
Proof.
  induction n as [|n IH]; intros b arr ctx arr' b' ctx' E.
  - injection E as <- <- <-. exists []. split; [symmetry; apply app_nil_r|reflexivity].
  - cbn [values_loop] in E. unfold bind at 1 in E.
    destruct (P b ctx) as [[[val b1]| |] ctx1]; try discriminate.
    destruct (IH _ _ _ _ _ _ E) as (items & -> & Hlen).
    exists (val :: items). rewrite <- app_assoc. split; [reflexivity|].
    cbn. congruence.
Qed.

Lemma strings_loop_length n : forall b arr ctx arr' b' ctx',
  strings_loop n b arr ctx = (Return (arr', b'), ctx') ->
  exists strs, arr' = arr ++ map VStr strs /\ length strs = n.
Proof.
  induction n as [|n IH]; intros b arr ctx arr' b' ctx' E.
  - injection E as <- <- <-. exists []. split; [symmetry; apply app_nil_r|reflexivity].
  - cbn [strings_loop] in E. unfold bind at 1 in E.
    destruct (StringValue_parse b ctx) as [[[s b1]| |] ctx1]; try discriminate.
    destruct (IH _ _ _ _ _ _ E) as (strs & -> & Hlen).
    exists (s :: strs). rewrite <- app_assoc. split; [reflexivity|].
    cbn. congruence.
Qed.

Lemma strings_loop_ctx n : forall b arr ctx,
  (strings_loop n b arr ctx).2 = ctx.
Proof.
  induction n as [|n IH]; intros b arr ctx; [reflexivity|].
  cbn [strings_loop]. unfold bind. rewrite StringValue_parse_ctx.
  destruct (StringValue_parse b ctx).1 as [[s b']| |]; try reflexivity.
  apply IH.
Qed.

Lemma read_7bit_nonneg b n rest :
  read_7bit_encoded_int b = Return (n, rest) -> 0 <= n.
Proof.
  intros E.
  destruct (varint_loop_spec _ b 0 0 _ (Z.le_refl 0) (Z.le_refl 0) E)
    as [_ H].
  apply (H n rest eq_refl).
Qed.

Section Arrays.
Variable float_str : pyfloat -> pystr.

(** X15: a typed array that decodes is a list with exactly as many items
    as the count that follows its type. *)
Theorem typed_array_length b ctx v rest ctx' :
  Parser_parse float_str (x14 :: b) ctx = (Return (v, rest), ctx') ->
  exists type_ref b1 ctx1 n b2 items,
    Parser_parse float_str b ctx = (Return (type_ref, b1), ctx1)
    /\ read_7bit_encoded_int b1 = Return (n, b2)
    /\ v = VList items
    /\ Z.of_nat (length items) = n.
Proof.
  intros E.
  rewrite (Parser_parse_registered float_str x14 TypedArray) in E
    by reflexivity.
  cbn [cls_parse] in E. unfold TypedArray_parse in E.
  rewrite (bind_Return _ _ _ _ _ (check_marker_ok x14 _ "TypedArray" ctx)) in E.
  cbn [drop] in E. rewrite drop_0 in E. unfold bind at 1 in E.
  destruct (Parser_parse float_str b ctx) as [[[ty b1]| |] ctx1] eqn:Hty;
    try discriminate.
  unfold bind at 1, lift in E.
  destruct (read_7bit_encoded_int b1) as [[n b2]| |] eqn:Hn; try discriminate.
  unfold bind in E.
  destruct (values_loop _ _ _ _ _) as [[[arr b3]| |] ctx2] eqn:Hloop;
    try discriminate.
  injection E as <- <- <-.
  destruct (values_loop_length _ _ _ _ _ _ _ _ Hloop) as (items & -> & Hlen).
  exists ty, b1, ctx1, n, b2, items.
  split; [reflexivity|]. split; [exact Hn|]. split; [reflexivity|].
  rewrite Hlen. apply Z2Nat.id, (read_7bit_nonneg _ _ _ Hn).
Qed.

(** X16: a string array that decodes is a list of exactly the declared
    number of strings, and decoding it leaves the context as it was: its
    elements are never entered in a table. *)
Theorem string_array_strings b ctx v rest ctx' :
  Parser_parse float_str (x15 :: b) ctx = (Return (v, rest), ctx') ->
  ctx' = ctx
  /\ exists n b1 strs,
       read_7bit_encoded_int b = Return (n, b1)
       /\ v = VList (map VStr strs)
       /\ Z.of_nat (length strs) = n.
Proof.
  intros E.
  rewrite (Parser_parse_registered float_str x15 StringArray) in E
    by reflexivity.
  cbn [cls_parse] in E. unfold StringArray_parse in E.
  rewrite (bind_Return _ _ _ _ _ (check_marker_ok x15 _ "StringArray" ctx)) in E.
  cbn [drop] in E. rewrite drop_0 in E. unfold bind at 1, lift in E.
  destruct (read_7bit_encoded_int b) as [[n b1]| |] eqn:Hn; try discriminate.
  unfold bind in E.
  destruct (strings_loop _ _ _ _) as [[[arr b2]| |] ctx2] eqn:Hloop;
    try discriminate.
  injection E as <- <- <-.
  destruct (strings_loop_length _ _ _ _ _ _ _ Hloop) as (strs & -> & Hlen).
  split.
  - pose proof (strings_loop_ctx (Z.to_nat n) b1 [] ctx) as Hctx.
    rewrite Hloop in Hctx. exact Hctx.
  - exists n, b1, strs. split; [reflexivity|]. split; [reflexivity|].
    rewrite Hlen. apply Z2Nat.id, (read_7bit_nonneg _ _ _ Hn).
Qed.
End Arrays.

(** ** Sparse arrays *)

Lemma count_values_insert (items : list pyvalue) : forall i v,
  (count_values (<[i := v]> items) <= S (count_values items))%nat.
Proof.
  unfold count_values.
  induction items as [|x items IH]; intros i v.
  { destruct i; cbn; lia. }
  destruct i as [|i].
  - change (<[0%nat:=v]> (x :: items)) with (v :: items).
    rewrite !filter_cons.
    destruct (decide (is_None v = false)), (decide (is_None x = false));
      cbn [length]; lia.
  - change (<[S i:=v]> (x :: items)) with (x :: <[i:=v]> items).
    rewrite !filter_cons. specialize (IH i v).
    destruct (decide (is_None x = false)); cbn [length]; lia.
Qed.

Lemma count_values_replicate n : count_values (replicate n VNone) = 0%nat.
Proof.
  unfold count_values. induction n as [|n IH]; [reflexivity|].
  cbn [replicate]. rewrite filter_cons.
  destruct (decide (is_None VNone = false)) as [H|_]; [discriminate|exact IH].
Qed.

Lemma sparse_loop_shape P len n : forall b arr ctx arr' b' ctx',
  sparse_loop P len n b arr ctx = (Return (arr', b'), ctx') ->
  length arr' = length arr
  /\ (count_values arr' <= count_values arr + n)%nat.
Proof.
  induction n as [|n IH]; intros b arr ctx arr' b' ctx' E.
  - injection E as <- <- <-. split; [reflexivity|lia].
  - cbn [sparse_loop] in E. unfold bind at 1, lift in E.
    destruct (read_7bit_encoded_int b) as [[idx b1]| |]; try discriminate.
    destruct ((idx <? 0) || (len <=? idx)); [discriminate|].
    unfold bind at 1 in E.
    destruct (P b1 ctx) as [[[val b2]| |] ctx1]; try discriminate.
    destruct (IH _ _ _ _ _ _ E) as [Hlen Hcount].
    rewrite length_insert in Hlen. split; [exact Hlen|].
    pose proof (count_values_insert arr (Z.to_nat idx) val). lia.
Qed.

Section SparseShape.
Variable float_str : pyfloat -> pystr.

(** X17: a sparse array that decodes is a list of exactly the declared
    length, in which at most the declared number of entries are not
    [None]. *)
Theorem sparse_array_shape b ctx v rest ctx' :
  Parser_parse float_str (x3c :: b) ctx = (Return (v, rest), ctx') ->
  exists type_ref b1 ctx1 len b2 count b3 items,
    Parser_parse float_str b ctx = (Return (type_ref, b1), ctx1)
    /\ read_7bit_encoded_int b1 = Return (len, b2)
    /\ read_7bit_encoded_int b2 = Return (count, b3)
    /\ v = VList items
    /\ Z.of_nat (length items) = len
    /\ Z.of_nat (count_values items) <= count.
Proof.
  intros E.
  rewrite (Parser_parse_registered float_str x3c SparseArray) in E
    by reflexivity.
  cbn [cls_parse] in E. unfold SparseArray_parse in E.
  rewrite (bind_Return _ _ _ _ _ (check_marker_ok x3c _ "SparseArray" ctx))
    in E.
  cbn [drop] in E. rewrite drop_0 in E. unfold bind at 1 in E.
  destruct (Parser_parse float_str b ctx) as [[[ty b1]| |] ctx1] eqn:Hty;
    try discriminate.
  unfold bind at 1, lift in E.
  destruct (read_7bit_encoded_int b1) as [[len b2]| |] eqn:Hlen;
    try discriminate.
  unfold bind at 1, lift in E.
  destruct (read_7bit_encoded_int b2) as [[count b3]| |] eqn:Hcount;
    try discriminate.
  unfold bind in E.
  destruct (sparse_loop _ _ _ _ _ _) as [[[arr b4]| |] ctx2] eqn:Hloop;
    try discriminate.
  injection E as <- <- <-.
  destruct (sparse_loop_shape _ _ _ _ _ _ _ _ _ Hloop) as [Hl Hc].
  rewrite length_replicate in Hl. rewrite count_values_replicate in Hc.
  pose proof (read_7bit_nonneg _ _ _ Hlen).
  pose proof (read_7bit_nonneg _ _ _ Hcount).
  exists ty, b1, ctx1, len, b2, count, b3, arr.
  split; [reflexivity|]. split; [exact Hlen|]. split; [exact Hcount|].
  split; [reflexivity|]. split; lia.
Qed.
End SparseShape.

(** ** Dict keys *)

Lemma dict_set_keys d k v :
  distinct_keys d -> distinct_keys (dict_set d k v).
Proof.
  induction d as [|[k0 v0] d IH]; cbn [dict_set distinct_keys].
  - intros _. split; [constructor|exact I].
  - intros [Hk0 Hd]. destruct (key_eq k0 k) eqn:E; cbn [distinct_keys].
    + split; assumption.
    + split; [|apply IH, Hd].
      clear IH Hd. induction d as [|[k1 v1] d IHd]; cbn [dict_set].
      * constructor; [exact E|constructor].
      * inversion Hk0 as [|? ? H1 Hrest]; subst.
        destruct (key_eq k1 k); constructor; auto.
Qed.

Lemma dict_set_hashable d k v :
  hashable k = true ->
  Forall (fun e => hashable e.1 = true) d ->
  Forall (fun e => hashable e.1 = true) (dict_set d k v).
Proof.
  intros Hk. induction 1 as [|[k0 v0] d H0 Hd IH]; cbn [dict_set].
  - constructor; [exact Hk|constructor].
  - destruct (key_eq k0 k); constructor; assumption.
Qed.

Lemma dict_loop_keys P n : forall b d ctx d' b' ctx',
  dict_loop P n b d ctx = (Return (d', b'), ctx') ->
  distinct_keys d -> Forall (fun e => hashable e.1 = true) d ->
  distinct_keys d' /\ Forall (fun e => hashable e.1 = true) d'
  /\ (length d' <= length d + n)%nat.
Proof.
  induction n as [|n IH]; intros b d ctx d' b' ctx' E Hd Hh.
  - injection E as <- <- <-. split; [exact Hd|]. split; [exact Hh|lia].
  - cbn [dict_loop] in E. unfold bind at 1 in E.
    destruct (P b ctx) as [[[k b1]| |] ctx1]; try discriminate.
    unfold bind at 1 in E.
    destruct (P b1 ctx1) as [[[v b2]| |] ctx2]; try discriminate.
    unfold bind, lift, dict_setitem in E.
    destruct (hashable k) eqn:Hk; try discriminate.
    destruct (IH _ _ _ _ _ _ E (dict_set_keys d k v Hd)
                (dict_set_hashable d k v Hk Hh)) as (H1 & H2 & H3).
    split; [exact H1|]. split; [exact H2|].
    pose proof (dict_set_length d k v). lia.
Qed.

Lemma dict_loop_split P k n : forall b d ctx,
  dict_loop P (k + n) b d ctx
  = match dict_loop P k b d ctx with
    | (Return (d', b'), ctx') => dict_loop P n b' d' ctx'
    | (Raise e, ctx') => (Raise e, ctx')
    | (OutOfFuel, ctx') => (OutOfFuel, ctx')
    end.
Proof.
  induction k as [|k IH]; intros b d ctx; [reflexivity|].
  cbn [Nat.add dict_loop]. unfold bind, lift, dict_setitem.
  destruct (P b ctx) as [[[key b1]| |] ctx1]; try reflexivity.
  destruct (P b1 ctx1) as [[[v b2]| |] ctx2]; try reflexivity.
  destruct (hashable key); [apply IH|reflexivity].
Qed.

Section DictKeys.
Variable float_str : pyfloat -> pystr.

Lemma DictValue_dispatch (marker : byte) b ctx :
  marker = x17 \/ marker = x18 ->
  Parser_parse float_str (marker :: b) ctx
  = (let* (n, b) := lift (read_7bit_encoded_int b) in
     let* (d, b) := dict_loop (Parser_parse float_str) (Z.to_nat n) b [] in
     ret (VDict d, b)) ctx.
Proof.
  intros Hm.
  rewrite (Parser_parse_registered float_str marker DictValue b ctx)
    by (destruct Hm as [-> | ->]; reflexivity).
  cbn [cls_parse]. unfold DictValue_parse.
  rewrite (bind_lift_Return _ _ _ (byte_val marker)) by reflexivity.
  cbn [drop]. rewrite drop_0. reflexivity.
Qed.

(** X19: a dict that decodes has hashable keys, no two of them equal, and
    at most as many entries as the declared number of pairs. *)
Theorem dict_keys_distinct (marker : byte) b ctx v rest ctx' :
  marker = x17 \/ marker = x18 ->
  Parser_parse float_str (marker :: b) ctx = (Return (v, rest), ctx') ->
  exists n b1 d,
    read_7bit_encoded_int b = Return (n, b1)
    /\ v = VDict d
    /\ distinct_keys d
    /\ Forall (fun e => hashable e.1 = true) d
    /\ Z.of_nat (length d) <= n.
Proof.
  intros Hm E. rewrite (DictValue_dispatch marker b ctx Hm) in E.
  unfold bind at 1, lift in E.
  destruct (read_7bit_encoded_int b) as [[n b1]| |] eqn:Hn; try discriminate.
  unfold bind in E.
  destruct (dict_loop _ _ _ _ _) as [[[d b2]| |] ctx2] eqn:Hloop;
    try discriminate.
  injection E as <- <- <-.
  destruct (dict_loop_keys _ _ _ _ _ _ _ _ Hloop I (Forall_nil_2 _))
    as (H1 & H2 & H3).
  pose proof (read_7bit_nonneg _ _ _ Hn).
  exists n, b1, d. split; [reflexivity|]. split; [reflexivity|].
  split; [exact H1|]. split; [exact H2|]. cbn in H3. lia.
Qed.

(** X20: a dict whose first [j] pairs decode with hashable keys and whose
    next pair decodes with a list or a dict as its key raises [TypeError],
    after the value of that pair has been decoded. *)
Theorem dict_unhashable_key_TypeError (marker : byte) b n b1 j kvs b2 ctx ctx2
    key b3 ctx3 val b4 ctx4 :
  marker = x17 \/ marker = x18 ->
  read_7bit_encoded_int b = Return (n, b1) ->
  (j < Z.to_nat n)%nat ->
  pairs_decode (Parser_parse float_str) j b1 ctx kvs b2 ctx2 ->
  Forall (fun kv => hashable kv.1 = true) kvs ->
  Parser_parse float_str b2 ctx2 = (Return (key, b3), ctx3) ->
  Parser_parse float_str b3 ctx3 = (Return (val, b4), ctx4) ->
  hashable key = false ->
  Parser_parse float_str (marker :: b) ctx = (Raise TypeError, ctx4).
Proof.
  intros Hm Hn Hj Hpairs Hhash Hkey Hval Hbad.
  rewrite (DictValue_dispatch marker b ctx Hm).
  rewrite (bind_lift_Return _ _ _ _ Hn). apply bind_Raise.
  replace (Z.to_nat n) with (j + S (Z.to_nat n - S j))%nat by lia.
  rewrite dict_loop_split.
  rewrite (dict_loop_pairs _ _ _ _ _ _ _ Hpairs Hhash []).
  cbn [dict_loop]. rewrite (bind_Return _ _ _ _ _ Hkey).
  rewrite (bind_Return _ _ _ _ _ Hval).
  unfold dict_setitem. rewrite Hbad. reflexivity.
Qed.
End DictKeys.

(** ** The context: add and get *)

Lemma list_getitem_nonneg {A} (l : list A) idx :
  0 <= idx ->
  list_getitem l idx
  = match l !! Z.to_nat idx with
    | Some a => Return a
    | None => Raise IndexError
    end.
Proof.
  intros Hidx. unfold list_getitem.
  destruct (Z.ltb_spec idx 0); [lia|].
  destruct (Z.ltb_spec idx 0); [lia|]. reflexivity.
Qed.

Lemma list_getitem_last {A} (l : list A) a :
  list_getitem (l ++ [a]) (-1) = Return a.
Proof.
  unfold list_getitem. cbn [Z.ltb Z.compare].
  rewrite length_app. cbn [length].
  destruct (Z.ltb_spec (-1 + Z.of_nat (length l + 1)) 0); [lia|].
  replace (Z.to_nat (-1 + Z.of_nat (length l + 1))) with (length l) by lia.
  rewrite lookup_app_r by lia. rewrite Nat.sub_diag. reflexivity.
Qed.

(** X7: [add_type] returns the index of the entry it appends; [get_type]
    at that index, and at -1, returns the entry; the entries below it and
    the string table read as before. *)
Theorem context_add_then_get (t : pystr) (ctx : ParserContext) :
  let idx := Z.of_nat (length (type_table ctx)) in
  let ctx' := (add_type t ctx).2 in
  (add_type t ctx).1 = Return idx
  /\ get_type idx ctx' = (Return t, ctx')
  /\ get_type (-1) ctx' = (Return t, ctx')
  /\ (forall j, 0 <= j < idx -> (get_type j ctx').1 = (get_type j ctx).1)
  /\ (forall j, (get_string j ctx').1 = (get_string j ctx).1).
Proof.
  cbn zeta. unfold add_type, get_type, get_string. cbn [fst snd type_table string_table].
  split; [|split; [|split; [|split]]].
  - rewrite length_app. cbn [length]. f_equal. lia.
  - rewrite list_getitem_nonneg by lia. rewrite Nat2Z.id.
    rewrite lookup_app_r by lia. rewrite Nat.sub_diag. reflexivity.
  - rewrite list_getitem_last. reflexivity.
  - intros j Hj. rewrite !list_getitem_nonneg by lia.
    rewrite lookup_app_l by lia. reflexivity.
  - reflexivity.
Qed.

(** ** Back-references by index *)

Section References.
Variable float_str : pyfloat -> pystr.

(** X8: a type reference 19 2B <index> decodes to [t] exactly when the
    type table holds [t] at the index, and raises "Invalid type reference
    index" exactly when the index is not below the length of the table;
    the context is left as it was. *)
Theorem type_reference_resolves_iff b idx b' ctx t :
  read_7bit_encoded_int b = Return (idx, b') ->
  (Parser_parse float_str (x19 :: x2b :: b) ctx = (Return (VStr t, b'), ctx)
   <-> type_table ctx !! Z.to_nat idx = Some t)
  /\ (Z.of_nat (length (type_table ctx)) <= idx
      <-> Parser_parse float_str (x19 :: x2b :: b) ctx
          = (Raise (ViewStateException "Invalid type reference index"), ctx)).
Proof.
  intros Hread. pose proof (read_7bit_nonneg _ _ _ Hread) as Hidx.
  rewrite (Parser_parse_registered float_str x19 TypeValue) by reflexivity.
  cbn [cls_parse]. unfold bind.
  rewrite (TypeValue_reference b ctx idx b' Hread).
  rewrite (list_getitem_nonneg _ idx Hidx).
  destruct (type_table ctx !! Z.to_nat idx) as [t'|] eqn:E.
  - split; split.
    + intros [= ->]. reflexivity.
    + intros [= ->]. reflexivity.
    + intros Hge. apply lookup_lt_Some in E. lia.
    + discriminate.
  - split; split.
    + discriminate.
    + discriminate.
    + reflexivity.
    + intros _. apply lookup_ge_None in E. lia.
Qed.

(** X9: a string reference 1F <index> decodes to [s] exactly when the
    string table holds [s] at the index, and raises "Invalid string
    reference index" exactly when the index is not below the length of
    the table. *)
Theorem string_reference_resolves_iff (c : byte) b ctx s :
  (Parser_parse float_str (x1f :: c :: b) ctx = (Return (VStr s, b), ctx)
   <-> string_table ctx !! Z.to_nat (byte_val c) = Some s)
  /\ (Z.of_nat (length (string_table ctx)) <= byte_val c
      <-> Parser_parse float_str (x1f :: c :: b) ctx
          = (Raise (ViewStateException "Invalid string reference index"),
             ctx)).
Proof.
  pose proof (byte_val_range c) as Hc.
  rewrite (Parser_parse_registered float_str x1f IndexedString) by reflexivity.
  cbn [cls_parse]. rewrite IndexedString_reference.
  rewrite (list_getitem_nonneg _ (byte_val c)) by lia.
  destruct (string_table ctx !! Z.to_nat (byte_val c)) as [s'|] eqn:E.
  - split; split.
    + intros [= ->]. reflexivity.
    + intros [= ->]. reflexivity.
    + intros Hge. apply lookup_lt_Some in E. lia.
    + discriminate.
  - split; split.
    + discriminate.
    + discriminate.
    + reflexivity.
    + intros _. apply lookup_ge_None in E. lia.
Qed.

Lemma grown_entry (tbl tbl' : list pystr) (s : pystr) :
  tbl ++ [s] `prefix_of` tbl' -> tbl' !! length tbl = Some s.
Proof.
  intros [ext ->]. rewrite <- app_assoc. rewrite lookup_app_r by lia.
  rewrite Nat.sub_diag. reflexivity.
Qed.

(** X10: a type decoded in its new-value form, whatever the type table
    held then, is what a reference to the length the table had then decodes
    to at any later point of the decode. *)
Theorem type_back_reference_any_index (c : byte) b v b1 ctx ctx1 ctx2 r rest :
  c <> x2b ->
  Parser_parse float_str (x19 :: c :: b) ctx = (Return (v, b1), ctx1) ->
  ctx_grow ctx1 ctx2 ->
  read_7bit_encoded_int r
  = Return (Z.of_nat (length (type_table ctx)), rest) ->
  Parser_parse float_str (x19 :: x2b :: r) ctx2 = (Return (v, rest), ctx2).
Proof.
  intros Hc Hnew Hgrow Hread.
  rewrite (Parser_parse_registered float_str x19 TypeValue) in Hnew
    by reflexivity.
  cbn [cls_parse] in Hnew. unfold bind in Hnew.
  rewrite (TypeValue_new c b ctx Hc) in Hnew.
  destruct (StringValue_parse (c :: b) ctx).1 as [[s b1']| |];
    try discriminate.
  injection Hnew as <- <- <-.
  apply ctx_grow_prefix in Hgrow as [Ht _]. cbn in Ht.
  rewrite (Parser_parse_registered float_str x19 TypeValue) by reflexivity.
  cbn [cls_parse]. unfold bind.
  rewrite (TypeValue_reference r ctx2 _ rest Hread).
  rewrite list_getitem_nonneg by lia. rewrite Nat2Z.id.
  rewrite (grown_entry _ _ s Ht). reflexivity.
Qed.

(** X11: an indexed string decoded in its new-value form, whatever the
    string table held then, is what a reference to the length the table
    had then decodes to at any later point of the decode. *)
Theorem string_back_reference_any_index b v b1 ctx ctx1 ctx2 (i : byte) rest :
  Parser_parse float_str (x1e :: b) ctx = (Return (v, b1), ctx1) ->
  ctx_grow ctx1 ctx2 ->
  byte_val i = Z.of_nat (length (string_table ctx)) ->
  Parser_parse float_str (x1f :: i :: rest) ctx2 = (Return (v, rest), ctx2).
Proof.
  intros Hnew Hgrow Hi.
  rewrite (Parser_parse_registered float_str x1e IndexedString) in Hnew
    by reflexivity.
  cbn [cls_parse] in Hnew. rewrite IndexedString_new in Hnew.
  destruct (StringValue_parse b ctx).1 as [[s b1']| |]; try discriminate.
  injection Hnew as <- <- <-.
  apply ctx_grow_prefix in Hgrow as [_ Hs]. cbn in Hs.
  rewrite (Parser_parse_registered float_str x1f IndexedString)
    by reflexivity.
  cbn [cls_parse]. rewrite IndexedString_reference.
  rewrite list_getitem_nonneg by lia. rewrite Hi, Nat2Z.id.
  rewrite (grown_entry _ _ s Hs). reflexivity.
Qed.
End References.

(** ** Colours *)

Lemma rgba_channels c0 c1 c2 c3 :
  0 <= c0 < 256 -> 0 <= c1 < 256 -> 0 <= c2 < 256 -> 0 <= c3 < 256 ->
  let val := c0 + 256 * (c1 + 256 * (c2 + 256 * (c3 + 256 * 0))) in
  Z.land val 0xFF = c0
  /\ Z.land (Z.shiftr val 8) 0xFF = c1
  /\ Z.land (Z.shiftr val 16) 0xFF = c2
  /\ Z.land (Z.shiftr val 24) 0xFF = c3.
Proof.
  intros H0 H1 H2 H3 val. change 0xFF with (Z.ones 8).
  rewrite !Z.land_ones, !Z.shiftr_div_pow2 by lia.
  change (2 ^ 8) with 256. change (2 ^ 16) with (256 * 256).
  change (2 ^ 24) with (256 * 256 * 256).
  assert (E1 : val / 256 = c1 + 256 * (c2 + 256 * c3)).
  { unfold val. symmetry. apply (Z.div_unique _ 256 _ c0); lia. }
  assert (E2 : val / (256 * 256) = c2 + 256 * c3).
  { rewrite <- Z.div_div by lia. rewrite E1. symmetry.
    apply (Z.div_unique _ 256 _ c1); lia. }
  assert (E3 : val / (256 * 256 * 256) = c3).
  { rewrite <- Z.div_div by lia. rewrite E2. symmetry.
    apply (Z.div_unique _ 256 _ c2); lia. }
  rewrite E1, E2, E3. unfold val.
  repeat split.
  - symmetry. apply (Z.mod_unique _ 256 (c1 + 256 * (c2 + 256 * c3))); lia.
  - symmetry. apply (Z.mod_unique _ 256 (c2 + 256 * c3)); lia.
  - symmetry. apply (Z.mod_unique _ 256 c3); lia.
  - apply Z.mod_small; lia.
Qed.

Section Colours.
Variable float_str : pyfloat -> pystr.

(** X23: the four bytes after the RGBA marker are blue, green, red and
    alpha, in that order, and are printed as RGBA(red, green, blue,
    alpha). *)
Theorem rgba_channel_order (c0 c1 c2 c3 : byte) rest ctx :
  Parser_parse float_str (x09 :: c0 :: c1 :: c2 :: c3 :: rest) ctx
  = (Return (VStr (str ("RGBA(" +:+ dec (byte_val c2) +:+ ", "
                          +:+ dec (byte_val c1) +:+ ", "
                          +:+ dec (byte_val c0) +:+ ", "
                          +:+ dec (byte_val c3) +:+ ")")), rest), ctx).
Proof.
  rewrite (Parser_parse_registered float_str x09 RGBA) by reflexivity.
  cbn [cls_parse]. unfold RGBA_parse.
  rewrite (bind_Return _ _ _ _ _ (check_marker_ok x09 _ "RGBA" ctx)).
  cbn [drop]. unfold read_int32. cbn [length Nat.ltb Nat.leb take drop].
  rewrite (bind_lift_Return _ _ _
             (from_bytes_little [c0; c1; c2; c3], rest)) by reflexivity.
  cbn [from_bytes_little].
  destruct (rgba_channels _ _ _ _ (byte_val_range c0) (byte_val_range c1)
              (byte_val_range c2) (byte_val_range c3))
    as (E0 & E1 & E2 & E3).
  cbn zeta in E0, E1, E2, E3. rewrite E0, E1, E2, E3. reflexivity.
Qed.

(** X24: a known-colour index outside the table, which has the five
    entries 0 to 4, decodes to "KnownColor: Unknown" and is no error. *)
Theorem known_color_unknown_index n rest ctx :
  5 <= n ->
  Parser_parse float_str (x0a :: encode_7bit n ++ rest) ctx
  = (Return (VStr (str "KnownColor: Unknown"), rest), ctx).
Proof.
  intros Hn.
  rewrite (Parser_parse_registered float_str x0a KnownColor) by reflexivity.
  cbn [cls_parse]. unfold KnownColor_parse.
  rewrite (bind_Return _ _ _ _ _ (check_marker_ok x0a _ "KnownColor" ctx)).
  cbn [drop]. rewrite drop_0.
  rewrite (bind_lift_Return _ _ _ _ (read_7bit_encode n rest ltac:(lia))).
  destruct n as [|p|p]; try lia.
  do 3 (destruct p as [p|p|]; try lia; try reflexivity).
Qed.
End Colours.

(** ** Scalars and payloads *)

Section Payloads.
Variable float_str : pyfloat -> pystr.

(** X4: the integer marker followed by the 7-bit groups of [n] decodes to
    the integer [n], for every [n >= 0], and leaves what follows. *)
Theorem Integer_round_trip n rest ctx :
  0 <= n ->
  Parser_parse float_str (x02 :: encode_7bit n ++ rest) ctx
  = (Return (VInt n, rest), ctx).
Proof.
  intros Hn.
  rewrite (Parser_parse_registered float_str x02 Integer) by reflexivity.
  cbn [cls_parse]. apply Integer_parse_encode, Hn.
Qed.

(** X27: the date-time marker followed by the 8 little-endian bytes of a
    tick count decodes to the instant [ticks / 10] microseconds after
    0001-01-01 when that is within the range of [datetime], and raises
    [OverflowError], not a [ViewStateException], from 3155378976000000000
    ticks on. *)
Theorem datetime_ticks ticks rest ctx :
  0 <= ticks < 2 ^ 64 ->
  Parser_parse float_str (x06 :: to_bytes_little 8 ticks ++ rest) ctx
  = if ticks <? 3155378976000000000
    then (Return (VDateTime (ticks / 10), rest), ctx)
    else (Raise OverflowError, ctx).
Proof.
  intros Ht.
  rewrite (Parser_parse_registered float_str x06 DateTimeValue)
    by reflexivity.
  cbn [cls_parse]. unfold DateTimeValue_parse.
  rewrite (bind_Return _ _ _ _ _ (check_marker_ok x06 _ "DateTime" ctx)).
  cbn [drop]. rewrite drop_0.
  rewrite (bind_lift_Return _ _ _ _ (read_int64_to_bytes ticks rest Ht)).
  unfold parse_dotnet_datetime, datetime_end.
  destruct (Z.ltb_spec ticks 3155378976000000000) as [Hlt|Hge].
  - destruct (Z.ltb_spec (ticks / 10) (3652059 * 86400 * 1000000)) as [_|H];
      [reflexivity|].
    pose proof (Z.div_lt_upper_bound ticks 10 (3652059 * 86400 * 1000000)
                  ltac:(lia) ltac:(lia)). lia.
  - destruct (Z.ltb_spec (ticks / 10) (3652059 * 86400 * 1000000)) as [H|_];
      [|reflexivity].
    pose proof (Z.div_le_lower_bound ticks 10 (3652059 * 86400 * 1000000)
                  ltac:(lia) ltac:(lia)). lia.
Qed.

(** X28: a binary-formatted object is its declared number of bytes,
    printed as Python prints [bytes], and what follows them is left; with
    one byte fewer than declared it raises "Not enough data for binary
    formatted object". *)
Theorem binary_formatted_payload n bs rest ctx :
  n = Z.of_nat (length bs) ->
  Parser_parse float_str (x32 :: encode_7bit n ++ bs ++ rest) ctx
  = (Return (VStr (str "BinaryFormatted(" ++ bytes_repr bs ++ str ")"), rest),
     ctx)
  /\ (bs <> [] ->
      Parser_parse float_str (x32 :: encode_7bit n ++ removelast bs) ctx
      = (Raise (ViewStateException
                  "Not enough data for binary formatted object"), ctx)).
Proof.
  intros ->.
  rewrite !(Parser_parse_registered float_str x32 BinaryFormatted)
    by reflexivity.
  cbn [cls_parse]. unfold BinaryFormatted_parse.
  rewrite !(bind_Return _ _ _ _ _
              (check_marker_ok x32 _ "BinaryFormatted" ctx)).
  cbn [drop]. rewrite !drop_0. split.
  - rewrite (bind_lift_Return _ _ _ _
               (read_7bit_encode _ _ (Nat2Z.is_nonneg _))).
    rewrite length_app.
    destruct (Z.ltb_spec (Z.of_nat (length bs + length rest))
                (Z.of_nat (length bs))); [lia|].
    rewrite Nat2Z.id, take_app_length, drop_app_length. reflexivity.
  - intros Hne. rewrite <- (app_nil_r (removelast bs)).
    rewrite (bind_lift_Return _ _ _ _
               (read_7bit_encode _ _ (Nat2Z.is_nonneg _))).
    rewrite app_nil_r.
    assert (length (removelast bs) < length bs)%nat.
    { destruct (exists_last Hne) as (bs' & c & ->).
      rewrite removelast_last, length_app. cbn. lia. }
    destruct (Z.ltb_spec (Z.of_nat (length (removelast bs)))
                (Z.of_nat (length bs))); [reflexivity|lia].
Qed.

Lemma values_loop_consumes n : forall b arr ctx arr' b' ctx',
  values_loop (Parser_parse float_str) n b arr ctx = (Return (arr', b'), ctx') ->
  (length b' + n <= length b)%nat.
Proof.
  induction n as [|n IH]; intros b arr ctx arr' b' ctx' E.
  - injection E as <- <- <-. lia.
  - cbn [values_loop] in E. unfold bind at 1 in E.
    destruct (Parser_parse_post float_str b ctx) as [_ Hpost].
    destruct (Parser_parse float_str b ctx) as [[[val b1]| |] ctx1];
      try discriminate.
    cbn in Hpost. destruct Hpost as [Hne Hs].
    pose proof (suffix_tail_length b b1 Hne Hs).
    specialize (IH _ _ _ _ _ _ E). lia.
Qed.

(** X14: a list that decodes has exactly as many items as its count
    declares, and each of them took at least one byte of the input: the
    count is at most the number of bytes consumed after it. *)
Theorem list_length_and_bytes b ctx v rest ctx' :
  Parser_parse float_str (x16 :: b) ctx = (Return (v, rest), ctx') ->
  exists n b1 items,
    read_7bit_encoded_int b = Return (n, b1)
    /\ v = VList items
    /\ Z.of_nat (length items) = n
    /\ n + Z.of_nat (length rest) <= Z.of_nat (length b1).
Proof.
  intros E.
  rewrite (Parser_parse_registered float_str x16 ListValue) in E
    by reflexivity.
  cbn [cls_parse] in E. unfold ListValue_parse in E.
  rewrite (bind_Return _ _ _ _ _ (check_marker_ok x16 _ "List" ctx)) in E.
  cbn [drop] in E. rewrite drop_0 in E. unfold bind at 1, lift in E.
  destruct (read_7bit_encoded_int b) as [[n b1]| |] eqn:Hn; try discriminate.
  unfold bind in E.
  destruct (values_loop _ _ _ _ _) as [[[arr b2]| |] ctx2] eqn:Hloop;
    try discriminate.
  injection E as <- <- <-.
  destruct (values_loop_length _ _ _ _ _ _ _ _ Hloop) as (items & -> & Hlen).
  pose proof (values_loop_consumes _ _ _ _ _ _ _ Hloop).
  pose proof (read_7bit_nonneg _ _ _ Hn).
  exists n, b1, items. split; [reflexivity|]. split; [reflexivity|].
  split; lia.
Qed.
End Payloads.

(** ** A decode does not look past what it consumes

    Every rule, run on its input with [extra] appended, returns what it
    returned without, and leaves [extra] after what it left. *)

Lemma simulates_ret {A B} (R : A -> B -> Prop) a a' :
  R a a' -> simulates R (ret a) (ret a').
Proof. intros HR ctx x ctx' [= <- <-]. exists a'. split; [reflexivity|exact HR]. Qed.

Lemma simulates_raise {A B} (R : A -> B -> Prop) e (m : M B) :
  simulates R (raise e) m.
Proof. intros ctx x ctx' [=]. Qed.

Lemma simulates_bind {A A' B B'} (R1 : A -> A' -> Prop) (R : B -> B' -> Prop)
    m1 m2 k1 k2 :
  simulates R1 m1 m2 ->
  (forall a a', R1 a a' -> simulates R (k1 a) (k2 a')) ->
  simulates R (bind m1 k1) (bind m2 k2).
Proof.
  intros Hm Hk ctx b ctx' E. unfold bind in *.
  destruct (m1 ctx) as [[a| |] ctx1] eqn:E1; try discriminate.
  destruct (Hm _ _ _ E1) as (a' & -> & HR).
  apply (Hk a a' HR _ _ _ E).
Qed.

Lemma simulates_lift {A B} (R : A -> B -> Prop) (o1 : outcome A)
    (o2 : outcome B) :
  (forall a, o1 = Return a -> exists a', o2 = Return a' /\ R a a') ->
  simulates R (lift o1) (lift o2).
Proof.
  intros H ctx a ctx' [= -> <-]. destruct (H a eq_refl) as (a' & -> & HR).
  exists a'. split; [reflexivity|exact HR].
Qed.

Lemma simulates_same {A} (m : M A) : simulates eq m m.
Proof. intros ctx a ctx' E. exists a. split; [exact E|reflexivity]. Qed.

Section Extension.

Variable extra : list byte.

Lemma varint_loop_extended msg b : forall acc shift n rest,
  varint_loop msg b acc shift = Return (n, rest) ->
  varint_loop msg (b ++ extra) acc shift = Return (n, rest ++ extra).
Proof.
  induction b as [|c b IH]; intros acc shift n rest E;
    cbn [varint_loop app] in *; [discriminate|].
  destruct (_ =? 0); [injection E as <- <-; reflexivity|apply IH, E].
Qed.

Lemma sim_varint msg b :
  simulates (extended extra)
    (lift (varint_loop msg b 0 0)) (lift (varint_loop msg (b ++ extra) 0 0)).
Proof.
  apply simulates_lift. intros [n rest] E. exists (n, rest ++ extra).
  split; [apply varint_loop_extended, E|split; reflexivity].
Qed.

Lemma sim_read_7bit b :
  simulates (extended extra)
    (lift (read_7bit_encoded_int b))
    (lift (read_7bit_encoded_int (b ++ extra))).
Proof. apply sim_varint. Qed.

Lemma sim_fixed {A} (f : list byte -> A) (k : nat) msg b :
  simulates (extended extra)
    (lift (if (length b <? k)%nat then Raise (ViewStateException msg)
           else Return (f (take k b), drop k b)))
    (lift (if (length (b ++ extra) <? k)%nat
           then Raise (ViewStateException msg)
           else Return (f (take k (b ++ extra)), drop k (b ++ extra)))).
Proof.
  apply simulates_lift. intros [a rest] E.
  destruct (Nat.ltb_spec (length b) k) as [Hlt|Hge]; [discriminate|].
  injection E as <- <-.
  destruct (Nat.ltb_spec (length (b ++ extra)) k) as [Hlt|_];
    [rewrite length_app in Hlt; lia|].
  rewrite take_app_le, drop_app_le by exact Hge.
  eexists. split; [reflexivity|split; reflexivity].
Qed.

Lemma sim_getitem b i :
  simulates (fun c c' => c' = c /\ (i < length b)%nat)
    (lift (bytes_getitem b i)) (lift (bytes_getitem (b ++ extra) i)).
Proof.
  apply simulates_lift. intros c E. unfold bytes_getitem in *.
  destruct (b !! i) as [x|] eqn:Hx; [|discriminate]. injection E as <-.
  rewrite (lookup_app_l_Some _ _ _ _ Hx). eexists. split; [reflexivity|].
  split; [reflexivity|]. apply lookup_lt_Some in Hx. exact Hx.
Qed.

Lemma sim_check_marker b marker name :
  simulates (fun _ _ => b <> [])
    (check_marker b marker name) (check_marker (b ++ extra) marker name).
Proof.
  unfold check_marker. eapply simulates_bind; [apply sim_getitem|].
  intros c c' [-> Hlt]. destruct (c =? marker); [|apply simulates_raise].
  apply simulates_ret. destruct b; [cbn in Hlt; lia|discriminate].
Qed.

Lemma drop_1_app (b : list byte) :
  b <> [] -> drop 1 (b ++ extra) = drop 1 b ++ extra.
Proof. destruct b; [congruence|reflexivity]. Qed.

Ltac sim_marker :=
  eapply simulates_bind; [apply sim_check_marker|];
  intros [] [] ?; cbn beta zeta; rewrite ?drop_1_app by assumption.

Ltac sim_step lem :=
  eapply simulates_bind; [apply lem|];
  let H1 := fresh in let H2 := fresh in
  intros [? ?] [? ?] [H1 H2]; cbn [fst snd] in H1, H2; subst;
  cbn beta iota zeta.

Ltac sim_done :=
  first [ apply simulates_raise
        | apply simulates_ret; split; reflexivity ].

Lemma Integer_ext b :
  simulates (extended extra) (Integer_parse b) (Integer_parse (b ++ extra)).
Proof. unfold Integer_parse. sim_marker. sim_step sim_varint. sim_done. Qed.

Lemma drop_2_app (b : list byte) :
  (1 < length b)%nat -> drop 2 (b ++ extra) = drop 2 b ++ extra.
Proof. intros H. apply drop_app_le. lia. Qed.

Lemma ByteValue_ext b :
  simulates (extended extra) (ByteValue_parse b) (ByteValue_parse (b ++ extra)).
Proof.
  unfold ByteValue_parse. sim_marker.
  eapply simulates_bind; [apply sim_getitem|]. intros c c' [-> Hlt].
  apply simulates_ret. split; [reflexivity|]. cbn. apply drop_2_app, Hlt.
Qed.

Lemma CharValue_ext b :
  simulates (extended extra) (CharValue_parse b) (CharValue_parse (b ++ extra)).
Proof.
  unfold CharValue_parse. sim_marker.
  eapply simulates_bind; [apply sim_getitem|]. intros c c' [-> Hlt].
  apply simulates_ret. split; [reflexivity|]. cbn. apply drop_2_app, Hlt.
Qed.

Lemma StringValue_ext b :
  simulates (extended extra)
    (StringValue_parse b) (StringValue_parse (b ++ extra)).
Proof.
  unfold StringValue_parse. sim_marker. sim_step sim_read_7bit.
  destruct (_ <? 0); [sim_done|]. destruct (_ =? 0); [sim_done|].
  rewrite length_app.
  match goal with
  | |- context [Z.of_nat (length ?l + length extra) <? ?z] =>
      destruct (Z.ltb_spec (Z.of_nat (length l)) z) as [Hlt|Hge];
        [sim_done|];
      destruct (Z.ltb_spec (Z.of_nat (length l + length extra)) z)
        as [Hlt|_]; [lia|]
  end.
  rewrite take_app_le, drop_app_le by lia. sim_done.
Qed.

Lemma sim_pure {A} (o : outcome A) : simulates eq (lift o) (lift o).
Proof. apply simulates_same. Qed.

Lemma DateTimeValue_ext b :
  simulates (extended extra)
    (DateTimeValue_parse b) (DateTimeValue_parse (b ++ extra)).
Proof.
  unfold DateTimeValue_parse. sim_marker.
  sim_step (sim_fixed from_bytes_little 8).
  eapply simulates_bind; [apply sim_pure|]. intros dt ? <-. sim_done.
Qed.

Lemma DoubleValue_ext b :
  simulates (extended extra)
    (DoubleValue_parse b) (DoubleValue_parse (b ++ extra)).
Proof.
  unfold DoubleValue_parse. sim_marker. sim_step (sim_fixed unpack_d 8).
  sim_done.
Qed.

Lemma FloatValue_ext b :
  simulates (extended extra)
    (FloatValue_parse b) (FloatValue_parse (b ++ extra)).
Proof.
  unfold FloatValue_parse. sim_marker. sim_step (sim_fixed unpack_f 4).
  sim_done.
Qed.

Lemma RGBA_ext b :
  simulates (extended extra) (RGBA_parse b) (RGBA_parse (b ++ extra)).
Proof.
  unfold RGBA_parse. sim_marker. sim_step (sim_fixed from_bytes_little 4).
  sim_done.
Qed.

Lemma KnownColor_ext b :
  simulates (extended extra)
    (KnownColor_parse b) (KnownColor_parse (b ++ extra)).
Proof.
  unfold KnownColor_parse. sim_marker. sim_step sim_read_7bit. sim_done.
Qed.

Lemma TypeValue_ext b :
  simulates (extended extra) (TypeValue_parse b) (TypeValue_parse (b ++ extra)).
Proof.
  unfold TypeValue_parse. sim_marker.
  eapply simulates_bind; [apply sim_getitem|]. intros c c' [-> Hlt].
  assert (Hne : drop 1 b <> []) by (destruct (drop 1 b); [cbn in Hlt; lia|discriminate]).
  destruct (c =? 43).
  - rewrite (drop_1_app _ Hne). sim_step sim_read_7bit.
    eapply simulates_bind; [apply simulates_same|]. intros t ? <-. sim_done.
  - sim_step StringValue_ext.
    eapply simulates_bind; [apply simulates_same|]. intros i ? <-. sim_done.
Qed.

Lemma EnumValue_ext b :
  simulates (extended extra) (EnumValue_parse b) (EnumValue_parse (b ++ extra)).
Proof.
  unfold EnumValue_parse. sim_marker. sim_step TypeValue_ext.
  sim_step sim_read_7bit. sim_done.
Qed.

Lemma ColorEmpty_ext b :
  simulates (extended extra)
    (ColorEmpty_parse b) (ColorEmpty_parse (b ++ extra)).
Proof.
  unfold ColorEmpty_parse.
  eapply simulates_bind; [apply sim_check_marker|]. intros [] [] Hne.
  apply simulates_ret. split; [reflexivity|]. apply drop_1_app, Hne.
Qed.

Lemma UnitEmpty_ext b :
  simulates (extended extra) (UnitEmpty_parse b) (UnitEmpty_parse (b ++ extra)).
Proof.
  unfold UnitEmpty_parse.
  eapply simulates_bind; [apply sim_check_marker|]. intros [] [] Hne.
  apply simulates_ret. split; [reflexivity|]. apply drop_1_app, Hne.
Qed.

Lemma UnitValue_ext float_str b :
  simulates (extended extra)
    (UnitValue_parse float_str b) (UnitValue_parse float_str (b ++ extra)).
Proof.
  unfold UnitValue_parse. sim_marker. sim_step (sim_fixed unpack_d 8).
  sim_step (sim_fixed from_bytes_little 4). sim_done.
Qed.

Lemma IndexedString_ext b :
  simulates (extended extra)
    (IndexedString_parse b) (IndexedString_parse (b ++ extra)).
Proof.
  unfold IndexedString_parse.
  eapply simulates_bind; [apply sim_getitem|]. intros token ? [-> Hlt].
  assert (Hne : b <> []) by (destruct b; [cbn in Hlt; lia|discriminate]).
  cbn beta zeta. rewrite (drop_1_app _ Hne).
  destruct (token =? 31).
  - destruct (drop 1 b) as [|c b']; [sim_done|]. cbn [app].
    eapply simulates_bind; [apply simulates_same|]. intros t ? <-. sim_done.
  - sim_step StringValue_ext.
    eapply simulates_bind; [apply simulates_same|]. intros i ? <-. sim_done.
Qed.

Lemma BinaryFormatted_ext b :
  simulates (extended extra)
    (BinaryFormatted_parse b) (BinaryFormatted_parse (b ++ extra)).
Proof.
  unfold BinaryFormatted_parse. sim_marker. sim_step sim_read_7bit.
  rewrite length_app.
  match goal with
  | |- context [Z.of_nat (length ?l + length extra) <? ?z] =>
      destruct (Z.ltb_spec (Z.of_nat (length l)) z) as [Hlt|Hge];
        [sim_done|];
      destruct (Z.ltb_spec (Z.of_nat (length l + length extra)) z)
        as [Hlt|_]; [lia|]
  end.
  rewrite take_app_le, drop_app_le by lia. sim_done.
Qed.

Lemma strings_loop_ext n : forall b arr,
  simulates (extended extra)
    (strings_loop n b arr) (strings_loop n (b ++ extra) arr).
Proof.
  induction n as [|n IH]; intros b arr; cbn [strings_loop]; [sim_done|].
  sim_step StringValue_ext. apply IH.
Qed.

Lemma StringArray_ext b :
  simulates (extended extra)
    (StringArray_parse b) (StringArray_parse (b ++ extra)).
Proof.
  unfold StringArray_parse. sim_marker. sim_step sim_read_7bit.
  sim_step strings_loop_ext. sim_done.
Qed.

Lemma Noop_ext b :
  b <> [] -> simulates (extended extra) (Noop_parse b) (Noop_parse (b ++ extra)).
Proof.
  intros Hne. apply simulates_ret. split; [reflexivity|]. apply drop_1_app, Hne.
Qed.

Lemma Const_ext c b :
  b <> [] ->
  simulates (extended extra) (Const_parse c b) (Const_parse c (b ++ extra)).
Proof.
  intros Hne. apply simulates_ret. split; [reflexivity|]. apply drop_1_app, Hne.
Qed.

(** Rules that call [Parser.parse]: with [rec2] on the longer input doing
    what [rec1] does on the shorter one. *)
Variables rec1 rec2 : parser.
Hypothesis rec_ext :
  forall b, simulates (extended extra) (rec1 b) (rec2 (b ++ extra)).

Lemma PairValue_ext b :
  simulates (extended extra)
    (PairValue_parse rec1 b) (PairValue_parse rec2 (b ++ extra)).
Proof. unfold PairValue_parse. sim_marker. do 2 sim_step rec_ext. sim_done. Qed.

Lemma TripletValue_ext b :
  simulates (extended extra)
    (TripletValue_parse rec1 b) (TripletValue_parse rec2 (b ++ extra)).
Proof.
  unfold TripletValue_parse. sim_marker. do 3 sim_step rec_ext. sim_done.
Qed.

Lemma values_loop_ext n : forall b arr,
  simulates (extended extra)
    (values_loop rec1 n b arr) (values_loop rec2 n (b ++ extra) arr).
Proof.
  induction n as [|n IH]; intros b arr; cbn [values_loop]; [sim_done|].
  sim_step rec_ext. apply IH.
Qed.

Lemma TypedArray_ext b :
  simulates (extended extra)
    (TypedArray_parse rec1 b) (TypedArray_parse rec2 (b ++ extra)).
Proof.
  unfold TypedArray_parse. sim_marker. sim_step rec_ext.
  sim_step sim_read_7bit. sim_step values_loop_ext. sim_done.
Qed.

Lemma ListValue_ext b :
  simulates (extended extra)
    (ListValue_parse rec1 b) (ListValue_parse rec2 (b ++ extra)).
Proof.
  unfold ListValue_parse. sim_marker. sim_step sim_read_7bit.
  sim_step values_loop_ext. sim_done.
Qed.

Lemma dict_loop_ext n : forall b d,
  simulates (extended extra)
    (dict_loop rec1 n b d) (dict_loop rec2 n (b ++ extra) d).
Proof.
  induction n as [|n IH]; intros b d; cbn [dict_loop]; [sim_done|].
  do 2 sim_step rec_ext.
  eapply simulates_bind; [apply sim_pure|]. intros d' ? <-. apply IH.
Qed.

Lemma DictValue_ext b :
  simulates (extended extra)
    (DictValue_parse rec1 b) (DictValue_parse rec2 (b ++ extra)).
Proof.
  unfold DictValue_parse.
  eapply simulates_bind; [apply sim_getitem|]. intros marker ? [-> Hlt].
  assert (Hne : b <> []) by (destruct b; [cbn in Hlt; lia|discriminate]).
  cbn beta zeta. rewrite (drop_1_app _ Hne).
  sim_step sim_read_7bit. sim_step dict_loop_ext. sim_done.
Qed.

Lemma FormattedString_ext b :
  simulates (extended extra)
    (FormattedString_parse rec1 b) (FormattedString_parse rec2 (b ++ extra)).
Proof.
  unfold FormattedString_parse. sim_marker. sim_step rec_ext.
  sim_step StringValue_ext.
  match goal with |- context [match ?v with VNone => _ | _ => _ end] =>
    destruct v end; sim_done.
Qed.

Lemma sparse_loop_ext len n : forall b arr,
  simulates (extended extra)
    (sparse_loop rec1 len n b arr) (sparse_loop rec2 len n (b ++ extra) arr).
Proof.
  induction n as [|n IH]; intros b arr; cbn [sparse_loop]; [sim_done|].
  sim_step sim_read_7bit. destruct (_ || _); [sim_done|].
  sim_step rec_ext. apply IH.
Qed.

Lemma SparseArray_ext b :
  simulates (extended extra)
    (SparseArray_parse rec1 b) (SparseArray_parse rec2 (b ++ extra)).
Proof.
  unfold SparseArray_parse. sim_marker. sim_step rec_ext.
  do 2 sim_step sim_read_7bit. sim_step sparse_loop_ext. sim_done.
Qed.

Lemma cls_parse_ext float_str cls b :
  b <> [] ->
  simulates (extended extra)
    (cls_parse float_str rec1 cls b) (cls_parse float_str rec2 cls (b ++ extra)).
Proof.
  intros Hne.
  destruct cls; cbn [cls_parse];
    eauto using Noop_ext, Const_ext, Integer_ext, ByteValue_ext, CharValue_ext,
      DateTimeValue_ext, DoubleValue_ext, FloatValue_ext, RGBA_ext,
      KnownColor_ext, EnumValue_ext, ColorEmpty_ext, PairValue_ext,
      TripletValue_ext, TypedArray_ext, StringArray_ext, ListValue_ext,
      DictValue_ext, UnitValue_ext, UnitEmpty_ext, IndexedString_ext,
      FormattedString_ext, BinaryFormatted_ext, SparseArray_ext.
  - sim_step StringValue_ext. sim_done.
  - sim_step TypeValue_ext. sim_done.
Qed.

Lemma Parser_parse_body_ext float_str b :
  simulates (extended extra)
    (Parser_parse_body float_str rec1 b)
    (Parser_parse_body float_str rec2 (b ++ extra)).
Proof.
  unfold Parser_parse_body. destruct b as [|marker b]; [sim_done|].
  cbn [app]. destruct (registry marker); [|sim_done].
  apply (cls_parse_ext float_str p (marker :: b)). discriminate.
Qed.

End Extension.

Section Locality.

Variable float_str : pyfloat -> pystr.

Lemma Parser_parse_fuel_ext extra fuel : forall b,
  simulates (extended extra)
    (Parser_parse_fuel float_str fuel b)
    (Parser_parse_fuel float_str fuel (b ++ extra)).
Proof.
  induction fuel as [|fuel IH]; intros b; [intros ctx a ctx' [=]|].
  cbn [Parser_parse_fuel]. apply Parser_parse_body_ext, IH.
Qed.

Lemma Parser_parse_fuel_S fuel : forall b,
  simulates eq
    (Parser_parse_fuel float_str fuel b)
    (Parser_parse_fuel float_str (S fuel) b).
Proof.
  induction fuel as [|fuel IH]; intros b; [intros ctx a ctx' [=]|].
  intros ctx a ctx' E.
  destruct (Parser_parse_body_ext [] (Parser_parse_fuel float_str fuel)
              (Parser_parse_fuel float_str (S fuel))) with
    (float_str := float_str) (b := b) (ctx := ctx) (a := a) (ctx' := ctx')
    as ([v r] & E' & Hv & Hr).
  - intros b' ctx1 a1 ctx1' E1. destruct (IH b' _ _ _ E1) as (a2 & E2 & <-).
    rewrite app_nil_r. exists a1. split; [exact E2|].
    split; [reflexivity|]. symmetry. apply app_nil_r.
  - exact E.
  - rewrite app_nil_r in E'. exists a. split; [|reflexivity].
    change (Parser_parse_body float_str (Parser_parse_fuel float_str (S fuel))
              b ctx = (Return a, ctx')).
    rewrite E'. destruct a as [v0 r0].
    cbn in Hv, Hr. rewrite app_nil_r in Hr. subst. reflexivity.
Qed.

Lemma Parser_parse_fuel_returns k : forall fuel b ctx a ctx',
  Parser_parse_fuel float_str fuel b ctx = (Return a, ctx') ->
  Parser_parse_fuel float_str (k + fuel) b ctx = (Return a, ctx').
Proof.
  induction k as [|k IH]; intros fuel b ctx a ctx' E; [exact E|].
  destruct (Parser_parse_fuel_S (k + fuel) b ctx a ctx' (IH _ _ _ _ _ E))
    as (a' & E' & <-).
  exact E'.
Qed.

Lemma Parser_parse_app b extra ctx v rest ctx' :
  Parser_parse float_str b ctx = (Return (v, rest), ctx') ->
  Parser_parse float_str (b ++ extra) ctx = (Return (v, rest ++ extra), ctx').
Proof.
  intros E. unfold Parser_parse in *.
  destruct (Parser_parse_fuel_ext extra _ b ctx _ ctx' E)
    as ([v' r'] & E' & Hv & Hr).
  cbn in Hv, Hr. subst.
  rewrite length_app.
  replace (S (length b + length extra))
    with (length extra + S (length b))%nat by lia.
  apply Parser_parse_fuel_returns, E'.
Qed.

(** X21: a decode that returns does not depend on the bytes after the ones
    it consumed: with any bytes appended to the input it returns the same
    value and the same context, and leaves those bytes after what it left
    before. *)
Theorem Parser_parse_extension b extra ctx v rest ctx' :
  Parser_parse float_str b ctx = (Return (v, rest), ctx') ->
  Parser_parse float_str (b ++ extra) ctx = (Return (v, rest ++ extra), ctx').
Proof. apply Parser_parse_app. Qed.

End Locality.

Section EnvelopeResult.

Variable float_str : pyfloat -> pystr.

Lemma parse_viewstate_inv input result :
  parse_viewstate float_str input = Return result ->
  exists remain ctx',
    input = xff :: x01 :: raw result
    /\ Parser_parse float_str (raw result) new_context
       = (Return (value result, remain), ctx')
    /\ ((remain = [] /\ macEnabled result = false)
        \/ ((length remain = 20%nat \/ length remain = 32%nat)
            /\ macEnabled result = true)).
Proof.
  intros E.
  destruct input as [|c0 [|c1 b]];
    [discriminate|destruct c0; discriminate|].
  destruct c0; try discriminate E. destruct c1; try discriminate E.
  cbn [parse_viewstate] in E.
  destruct (Parser_parse float_str b new_context)
    as [[[v remain]| |] ctx'] eqn:Hroot; cbn [fst] in E; try discriminate.
  destruct (Nat.eqb_spec (length remain) 0) as [H0|H0].
  - injection E as <-. exists remain, ctx'. cbn [raw value macEnabled].
    split; [reflexivity|]. split; [exact Hroot|]. left.
    split; [|reflexivity]. destruct remain; [reflexivity|discriminate].
  - destruct (Nat.eqb_spec (length remain) 20) as [H20|H20];
      [|destruct (Nat.eqb_spec (length remain) 32) as [H32|H32]];
      cbn [orb] in E; try discriminate;
      injection E as <-; exists remain, ctx'; cbn [raw value macEnabled];
      (split; [reflexivity|]); (split; [exact Hroot|]); right; auto.
Qed.

(** X22: a stream that decodes without a trailer decodes to the same
    value with any 20 or 32 bytes appended, which are reported as a trailer
    ([macEnabled] true) and kept at the end of [raw]; their content is not
    looked at. *)
Theorem trailer_attach input result trailer :
  parse_viewstate float_str input = Return result ->
  macEnabled result = false ->
  length trailer = 20%nat \/ length trailer = 32%nat ->
  parse_viewstate float_str (input ++ trailer)
  = Return {| value := value result; macEnabled := true;
              raw := raw result ++ trailer |}.
Proof.
  intros E Hmac Hlen.
  destruct (parse_viewstate_inv input result E)
    as (remain & ctx' & Hin & Hroot & [[-> _]|[_ Hm]]); [|congruence].
  rewrite Hin. cbn [app parse_viewstate].
  rewrite (Parser_parse_app float_str _ trailer _ _ _ _ Hroot).
  cbn [fst app].
  destruct Hlen as [Hl | Hl]; rewrite Hl; reflexivity.
Qed.

End EnvelopeResult.

(** ** The exceptions of [parse_viewstate]

    Every [raise] of a rule is within [parser_raises]; so is what the
    dispatcher raises. *)

Ltac allowed := first [exact I | left; cbn; auto 30].

Lemma rw_ret {A} (Q : A -> Prop) a : Q a -> raises_within Q (ret a).
Proof. intros H ctx. exact H. Qed.

Lemma rw_raise {A} (Q : A -> Prop) e :
  parser_raises e -> raises_within Q (raise e).
Proof. intros H ctx. exact H. Qed.

Lemma rw_lift {A} (Q : A -> Prop) (o : outcome A) :
  match o with
  | Return a => Q a
  | Raise e => parser_raises e
  | OutOfFuel => True
  end ->
  raises_within Q (lift o).
Proof. intros H ctx. exact H. Qed.

Lemma rw_bind {A B} (Q1 : A -> Prop) (Q : B -> Prop) m k :
  raises_within Q1 m ->
  (forall a, Q1 a -> raises_within Q (k a)) ->
  raises_within Q (bind m k).
Proof.
  intros Hm Hk ctx. specialize (Hm ctx). unfold bind.
  destruct (m ctx) as [[a|e|] ctx1]; cbn in *; [|exact Hm|exact I].
  apply (Hk a Hm ctx1).
Qed.

Lemma rw_weaken {A} (Q1 Q2 : A -> Prop) m :
  raises_within Q1 m -> (forall a, Q1 a -> Q2 a) -> raises_within Q2 m.
Proof.
  intros H HQ ctx. specialize (H ctx). destruct (m ctx).1; auto.
Qed.

Lemma rw_varint msg b :
  parser_raises (ViewStateException msg) ->
  raises_within (fun r => 0 <= r.1) (lift (varint_loop msg b 0 0)).
Proof.
  intros Hmsg. apply rw_lift.
  destruct (varint_loop msg b 0 0) as [[n rest]|e|] eqn:E; [| |exact I].
  - destruct (varint_loop_spec _ b 0 0 _ (Z.le_refl 0) (Z.le_refl 0) E)
      as [_ H].
    apply (H n rest eq_refl).
  - destruct (varint_loop_raises _ _ _ _ _ E) as [_ ->]. exact Hmsg.
Qed.

Lemma rw_read_7bit b :
  raises_within (fun r => 0 <= r.1) (lift (read_7bit_encoded_int b)).
Proof. apply rw_varint. allowed. Qed.

Lemma rw_fixed {A} (f : list byte -> A) (k : nat) msg (b : list byte) :
  parser_raises (ViewStateException msg) ->
  raises_within (fun _ => True)
    (lift (if (length b <? k)%nat then Raise (ViewStateException msg)
           else Return (f (take k b), drop k b))).
Proof. intros H. apply rw_lift. destruct (_ <? _)%nat; [exact H|exact I]. Qed.

Lemma rw_getitem b i :
  raises_within (fun _ => True) (lift (bytes_getitem b i)).
Proof. apply rw_lift. unfold bytes_getitem. destruct (b !! i); exact I. Qed.

Lemma rw_check_marker_ok (marker : byte) b name :
  raises_within (fun _ => True)
    (check_marker (marker :: b) (byte_val marker) name).
Proof. intros ctx. rewrite check_marker_ok. exact I. Qed.

Lemma rw_check_marker b marker name :
  parser_raises (ViewStateException ("Invalid marker for " +:+ name)) ->
  raises_within (fun _ => True) (check_marker b marker name).
Proof.
  intros H. unfold check_marker. eapply rw_bind; [apply rw_getitem|].
  intros c _. destruct (c =? marker); [apply rw_ret; exact I|apply rw_raise, H].
Qed.

Lemma rw_except_get (tbl : ParserContext -> list pystr) idx msg :
  parser_raises (ViewStateException msg) ->
  raises_within (fun _ => True)
    (except_IndexError (fun ctx => (list_getitem (tbl ctx) idx, ctx)) msg).
Proof.
  intros H ctx. unfold except_IndexError, list_getitem.
  destruct (_ <? 0); [exact H|].
  destruct (tbl ctx !! _); [exact I|exact H].
Qed.

Ltac rw_marker :=
  cbn beta;
  match goal with
  | |- raises_within _ (bind (check_marker (?m :: ?b) _ ?name) _) =>
      eapply rw_bind; [exact (rw_check_marker_ok m b name)|]
  end;
  intros [] _; cbn beta zeta.

Ltac rw_step lem :=
  eapply rw_bind; [apply lem; allowed|]; cbn beta zeta; intros [? ?] ?;
  cbn [fst snd] in *.

Ltac rw_done := first [apply rw_raise; allowed | apply rw_ret; exact I].

Lemma StringValue_rw b :
  raises_within (fun _ => True) (StringValue_parse b).
Proof.
  unfold StringValue_parse.
  eapply rw_bind; [apply rw_check_marker; allowed|]. intros [] _.
  cbn beta zeta. eapply rw_bind; [apply rw_read_7bit|].
  intros [n rest] Hn. cbn [fst] in Hn.
  destruct (Z.ltb_spec n 0); [lia|].
  destruct (n =? 0); [rw_done|]. destruct (_ <? n); rw_done.
Qed.

Lemma TypeValue_rw b : raises_within (fun _ => True) (TypeValue_parse b).
Proof.
  unfold TypeValue_parse.
  eapply rw_bind; [apply rw_check_marker; allowed|]. intros [] _.
  cbn beta zeta. eapply rw_bind; [apply rw_getitem|]. intros c _.
  destruct (c =? 43).
  - eapply rw_bind; [apply rw_read_7bit|]. intros [idx rest] _.
    eapply rw_bind; [apply (rw_except_get type_table); allowed|].
    intros t _. rw_done.
  - eapply rw_bind; [apply StringValue_rw|]. intros [s rest] _.
    eapply rw_bind with (Q1 := fun _ => True); [intros ctx; exact I|].
    intros i _. rw_done.
Qed.

Section Surface.
Variable float_str : pyfloat -> pystr.
Variable rec : parser.
Hypothesis rec_rw : forall b, raises_within (fun _ => True) (rec b).

Lemma values_loop_rw n : forall b arr,
  raises_within (fun _ => True) (values_loop rec n b arr).
Proof.
  induction n as [|n IH]; intros b arr; cbn [values_loop]; [rw_done|].
  eapply rw_bind; [apply rec_rw|]. intros [v rest] _. apply IH.
Qed.

Lemma strings_loop_rw n : forall b arr,
  raises_within (fun _ => True) (strings_loop n b arr).
Proof.
  induction n as [|n IH]; intros b arr; cbn [strings_loop]; [rw_done|].
  eapply rw_bind; [apply StringValue_rw|]. intros [v rest] _. apply IH.
Qed.

Lemma dict_loop_rw n : forall b d,
  raises_within (fun _ => True) (dict_loop rec n b d).
Proof.
  induction n as [|n IH]; intros b d; cbn [dict_loop]; [rw_done|].
  eapply rw_bind; [apply rec_rw|]. intros [k b1] _.
  eapply rw_bind; [apply rec_rw|]. intros [v b2] _.
  eapply rw_bind with (Q1 := fun _ => True).
  - apply rw_lift. unfold dict_setitem. destruct (hashable k); exact I.
  - intros d' _. apply IH.
Qed.

Lemma sparse_loop_rw len n : forall b arr,
  raises_within (fun _ => True) (sparse_loop rec len n b arr).
Proof.
  induction n as [|n IH]; intros b arr; cbn [sparse_loop]; [rw_done|].
  eapply rw_bind; [apply rw_read_7bit|]. intros [idx b1] _.
  destruct (_ || _); [rw_done|].
  eapply rw_bind; [apply rec_rw|]. intros [v b2] _. apply IH.
Qed.

Lemma cls_parse_rw (marker : byte) cls b :
  registry marker = Some cls ->
  raises_within (fun _ => True) (cls_parse float_str rec cls (marker :: b)).
Proof.
  intros Hreg.
  destruct marker; try discriminate Hreg; injection Hreg as <-;
    cbn [cls_parse].
  all: try (apply rw_ret; exact I).
  all: try match goal with
       | |- raises_within _ (bind (StringValue_parse _) _) =>
           eapply rw_bind; [apply StringValue_rw|]; intros [? ?] _; rw_done
       | |- raises_within _ (bind (TypeValue_parse _) _) =>
           eapply rw_bind; [apply TypeValue_rw|]; intros [? ?] _; rw_done
       end.
  - (* Integer *) unfold Integer_parse. rw_marker.
    eapply rw_bind; [apply rw_varint; allowed|]. intros [n rest] _. rw_done.
  - (* Byte *) unfold ByteValue_parse. rw_marker.
    eapply rw_bind; [apply rw_getitem|]. intros c _. rw_done.
  - (* Char *) unfold CharValue_parse. rw_marker.
    eapply rw_bind; [apply rw_getitem|]. intros c _. rw_done.
  - (* DateTime *) unfold DateTimeValue_parse. rw_marker.
    rw_step (rw_fixed from_bytes_little 8).
    eapply rw_bind with (Q1 := fun _ => True).
    + apply rw_lift. unfold parse_dotnet_datetime. destruct (_ <? _); exact I.
    + intros dt _. rw_done.
  - (* Double *) unfold DoubleValue_parse. rw_marker.
    rw_step (rw_fixed unpack_d 8). rw_done.
  - (* Float *) unfold FloatValue_parse. rw_marker.
    rw_step (rw_fixed unpack_f 4). rw_done.
  - (* RGBA *) unfold RGBA_parse. rw_marker.
    rw_step (rw_fixed from_bytes_little 4). rw_done.
  - (* KnownColor *) unfold KnownColor_parse. rw_marker.
    eapply rw_bind; [apply rw_read_7bit|]. intros [n rest] _. rw_done.
  - (* Enum *) unfold EnumValue_parse. rw_marker.
    eapply rw_bind; [apply TypeValue_rw|]. intros [t rest] _.
    eapply rw_bind; [apply rw_read_7bit|]. intros [n rest'] _. rw_done.
  - (* Pair *) unfold PairValue_parse. rw_marker.
    do 2 (eapply rw_bind; [apply rec_rw|]; intros [? ?] _). rw_done.
  - (* Triplet *) unfold TripletValue_parse. rw_marker.
    do 3 (eapply rw_bind; [apply rec_rw|]; intros [? ?] _). rw_done.
  - (* TypedArray *) unfold TypedArray_parse. rw_marker.
    eapply rw_bind; [apply rec_rw|]. intros [? ?] _.
    eapply rw_bind; [apply rw_read_7bit|]. intros [? ?] _.
    eapply rw_bind; [apply values_loop_rw|]. intros [? ?] _. rw_done.
  - (* StringArray *) unfold StringArray_parse. rw_marker.
    eapply rw_bind; [apply rw_read_7bit|]. intros [? ?] _.
    eapply rw_bind; [apply strings_loop_rw|]. intros [? ?] _. rw_done.
  - (* List *) unfold ListValue_parse. rw_marker.
    eapply rw_bind; [apply rw_read_7bit|]. intros [? ?] _.
    eapply rw_bind; [apply values_loop_rw|]. intros [? ?] _. rw_done.
  - (* Dict 17 *) unfold DictValue_parse.
    eapply rw_bind; [apply rw_getitem|]. intros ? _.
    eapply rw_bind; [apply rw_read_7bit|]. intros [? ?] _.
    eapply rw_bind; [apply dict_loop_rw|]. intros [? ?] _. rw_done.
  - (* Dict 18 *) unfold DictValue_parse.
    eapply rw_bind; [apply rw_getitem|]. intros ? _.
    eapply rw_bind; [apply rw_read_7bit|]. intros [? ?] _.
    eapply rw_bind; [apply dict_loop_rw|]. intros [? ?] _. rw_done.
  - (* Unit *) unfold UnitValue_parse. rw_marker.
    rw_step (rw_fixed unpack_d 8). rw_step (rw_fixed from_bytes_little 4).
    rw_done.
  - (* IndexedString 1e *) unfold IndexedString_parse.
    eapply rw_bind; [apply rw_getitem|]. intros token _. cbn beta zeta.
    destruct (token =? 31).
    + destruct (drop 1 _) as [|c b']; [rw_done|].
      eapply rw_bind; [apply (rw_except_get string_table); allowed|].
      intros s _. rw_done.
    + eapply rw_bind; [apply StringValue_rw|]. intros [s rest] _.
      eapply rw_bind with (Q1 := fun _ => True); [intros ctx; exact I|].
      intros i _. rw_done.
  - (* IndexedString 1f *) unfold IndexedString_parse.
    eapply rw_bind; [apply rw_getitem|]. intros token _. cbn beta zeta.
    destruct (token =? 31).
    + destruct (drop 1 _) as [|c b']; [rw_done|].
      eapply rw_bind; [apply (rw_except_get string_table); allowed|].
      intros s _. rw_done.
    + eapply rw_bind; [apply StringValue_rw|]. intros [s rest] _.
      eapply rw_bind with (Q1 := fun _ => True); [intros ctx; exact I|].
      intros i _. rw_done.
  - (* FormattedString *) unfold FormattedString_parse. rw_marker.
    eapply rw_bind; [apply rec_rw|]. intros [ty ?] _.
    eapply rw_bind; [apply StringValue_rw|]. intros [s ?] _.
    destruct ty; rw_done.
  - (* BinaryFormatted *) unfold BinaryFormatted_parse. rw_marker.
    eapply rw_bind; [apply rw_read_7bit|]. intros [? ?] _.
    destruct (_ <? _); rw_done.
  - (* SparseArray *) unfold SparseArray_parse. rw_marker.
    eapply rw_bind; [apply rec_rw|]. intros [? ?] _.
    do 2 (eapply rw_bind; [apply rw_read_7bit|]; intros [? ?] _).
    eapply rw_bind; [apply sparse_loop_rw|]. intros [? ?] _. rw_done.
Qed.

Lemma Parser_parse_body_rw b :
  raises_within (fun _ => True) (Parser_parse_body float_str rec b).
Proof.
  unfold Parser_parse_body. destruct b as [|marker b]; [rw_done|].
  destruct (registry marker) as [cls|] eqn:Hreg.
  - apply cls_parse_rw, Hreg.
  - apply rw_raise. right. exists marker. split; [exact Hreg|reflexivity].
Qed.

End Surface.

Section SurfaceTop.
Variable float_str : pyfloat -> pystr.

Lemma Parser_parse_fuel_rw fuel : forall b,
  raises_within (fun _ => True) (Parser_parse_fuel float_str fuel b).
Proof.
  induction fuel as [|fuel IH]; intros b; [intros ctx; exact I|].
  apply Parser_parse_body_rw, IH.
Qed.

Lemma Parser_parse_raises b ctx e ctx' :
  Parser_parse float_str b ctx = (Raise e, ctx') -> parser_raises e.
Proof.
  intros E. pose proof (Parser_parse_fuel_rw (S (length b)) b ctx) as H.
  unfold Parser_parse in E. rewrite E in H. exact H.
Qed.

Lemma parse_viewstate_raises input e :
  parse_viewstate float_str input = Raise e ->
  parser_raises e
  \/ e = ViewStateException "Not a valid ASP.NET 2.0 LOS stream"
  \/ exists n : nat,
       n <> 0%nat /\ n <> 20%nat /\ n <> 32%nat
       /\ e = ViewStateException
                ("Invalid trailing bytes length: " +:+ dec (Z.of_nat n)).
Proof.
  intros E.
  destruct input as [|c0 [|c1 b]];
    [right; left; injection E as <-; reflexivity
    |right; left; destruct c0; injection E as <-; reflexivity|].
  destruct c0; try (right; left; injection E as <-; reflexivity).
  destruct c1; try (right; left; injection E as <-; reflexivity).
  cbn [parse_viewstate] in E.
  destruct (Parser_parse float_str b new_context)
    as [[[v remain]| |] ctx'] eqn:Hroot; cbn [fst] in E; try discriminate.
  - destruct (Nat.eqb_spec (length remain) 0); [discriminate|].
    destruct (Nat.eqb_spec (length remain) 20); [discriminate|].
    destruct (Nat.eqb_spec (length remain) 32); [discriminate|].
    cbn [orb] in E. injection E as <-. right. right.
    exists (length remain). auto.
  - injection E as <-. left. apply (Parser_parse_raises _ _ _ _ Hroot).
Qed.

(** X29: [parse_viewstate] raises "Not a valid ASP.NET 2.0 LOS stream"
    exactly when the input does not start with FF 01: nothing after the
    header raises it. *)
Theorem bad_header_iff input :
  take 2 input <> [xff; x01]
  <-> parse_viewstate float_str input
      = Raise (ViewStateException "Not a valid ASP.NET 2.0 LOS stream").
Proof.
  split; [apply parse_viewstate_bad_header|].
  intros E Hhead. rewrite (parse_viewstate_header input Hhead) in E.
  cbn [parse_viewstate] in E.
  destruct (Parser_parse float_str (drop 2 input) new_context)
    as [[[v remain]| |] ctx'] eqn:Hroot; cbn [fst] in E; try discriminate.
  - destruct ((length remain =? 0)%nat); [discriminate|].
    destruct (_ || _); discriminate.
  - injection E as ->. apply Parser_parse_raises in Hroot.
    destruct Hroot as [Hin|(m & _ & Hm)]; [|discriminate Hm].
    cbn in Hin. intuition discriminate.
Qed.

(** X26: twenty-two [raise] statements of the source are dead code behind
    [parse_viewstate]: the marker check of a rule the dispatcher has chosen
    by that marker, the negative string length, and [read_int16], which
    nothing calls. No input makes [parse_viewstate] raise with one of
    their messages. *)
Theorem unreachable_raise_messages input msg :
  In msg unreachable_messages ->
  parse_viewstate float_str input <> Raise (ViewStateException msg).
Proof.
  intros Hin E. apply parse_viewstate_raises in E.
  cbn in Hin.
  repeat (destruct Hin as [<-|Hin];
    [destruct E as [[E|(m & _ & E)]|[E|(n & _ & _ & _ & E)]];
     [cbn in E; intuition discriminate|discriminate E|discriminate E
     |discriminate E]|]).
  destruct Hin.
Qed.
End SurfaceTop.

(** * The decoder under the interpreter's limits

    [Parser_parse_at] against [Parser_parse]: what the limits change, and
    the claims that depend on them. *)

(** ** Refinement *)

Section Refinement.

Variable py : interpreter.

Lemma refines_agree {A} low (Q : A -> Prop) m :
  agree Q m m -> refines py low Q m m.
Proof.
  intros H ctx. destruct (H ctx) as [_ [_ Hpost]].
  destruct (m ctx) as [[a| |] ctx']; cbn in *; auto.
Qed.

Lemma refines_ret {A} low (Q : A -> Prop) a :
  Q a -> refines py low Q (ret a) (ret a).
Proof. intros H ctx. cbn. auto. Qed.

Lemma refines_raise {A} low (Q : A -> Prop) e :
  refines py low Q (raise e) (raise e).
Proof. intros ctx. cbn. auto. Qed.

Lemma refines_limit {A} low (Q : A -> Prop) e (m2 : M A) :
  limit_raised py low e -> refines py low Q (raise e) m2.
Proof. intros H ctx. cbn. auto. Qed.

Lemma refines_bind {A B} low (Q1 : A -> Prop) (Q : B -> Prop) m1 m2 k1 k2 :
  refines py low Q1 m1 m2 ->
  (forall a, Q1 a -> refines py low Q (k1 a) (k2 a)) ->
  refines py low Q (bind m1 k1) (bind m2 k2).
Proof.
  intros Hm Hk ctx. specialize (Hm ctx). unfold bind.
  destruct (m1 ctx) as [[a| |] ctx1].
  - destruct Hm as [-> Ha]. apply (Hk a Ha ctx1).
  - destruct Hm as [-> | Hl]; auto.
  - exact Hm.
Qed.

Lemma refines_weaken {A} (low low' : Prop) (Q Q' : A -> Prop) m1 m2 :
  refines py low Q m1 m2 ->
  (low -> low') -> (forall a, Q a -> Q' a) ->
  refines py low' Q' m1 m2.
Proof.
  intros H Hlow HQ ctx. specialize (H ctx).
  destruct (m1 ctx) as [[a| |] ctx1]; [| |exact H].
  - destruct H as [-> Ha]. auto.
  - destruct H as [-> | Hl]; [auto|]. right.
    unfold limit_raised in *. tauto.
Qed.

Lemma refines_if {A} low (Q : A -> Prop) (c : bool) m1 m2 n1 n2 :
  (c = true -> refines py low Q m1 m2) ->
  (c = false -> refines py low Q n1 n2) ->
  refines py low Q (if c then m1 else n1) (if c then m2 else n2).
Proof. destruct c; auto. Qed.

Lemma refines_call {A} (low : Prop) (Q : A -> Prop) f callee m2 :
  (f = 0%nat -> low) ->
  (forall f', f = S f' -> refines py low Q (callee f') m2) ->
  refines py low Q (call f callee) m2.
Proof.
  intros Hlow H. destruct f as [|f']; cbn [call]; [|apply (H f' eq_refl)].
  apply refines_limit. left. auto.
Qed.

Lemma int_str_cases n :
  int_str py n = Return (dec n)
  \/ (int_str py n = Raise ValueError /\ 0 < int_max_str_digits py).
Proof.
  unfold int_str.
  destruct (Z.ltb_spec 0 (int_max_str_digits py)) as [Hl|Hl]; cbn [andb];
    [|left; reflexivity].
  destruct (_ <? _); [right; auto|left; reflexivity].
Qed.

Lemma refines_int_str {A} low (Q : A -> Prop) n (k : string -> M A) m2 :
  refines py low Q (k (dec n)) m2 ->
  refines py low Q (let* s := lift (int_str py n) in k s) m2.
Proof.
  intros H ctx. unfold bind, lift.
  destruct (int_str_cases n) as [-> | [-> Hl]]; [apply H|].
  right. right. right. right. auto.
Qed.

Lemma list_repeat_cases v n :
  (list_repeat py v n = Return (replicate (Z.to_nat n) v))
  \/ (list_repeat py v n = Raise OverflowError /\ maxsize < n)
  \/ (list_repeat py v n = Raise MemoryError
      /\ 0 < n <= maxsize /\ can_allocate py n = false).
Proof.
  unfold list_repeat.
  destruct (Z.leb_spec n 0) as [Hn|Hn].
  { left. replace (Z.to_nat n) with 0%nat by lia. reflexivity. }
  destruct (Z.ltb_spec maxsize n) as [Hmax|Hmax]; [right; left; auto|].
  destruct (can_allocate py n) eqn:E; [left; reflexivity|].
  right; right. auto.
Qed.

Lemma refines_list_repeat {A} low (Q : A -> Prop) v n
    (k : list pyvalue -> M A) m2 :
  refines py low Q (k (replicate (Z.to_nat n) v)) m2 ->
  refines py low Q (let* arr := lift (list_repeat py v n) in k arr) m2.
Proof.
  intros H ctx. unfold bind, lift.
  destruct (list_repeat_cases v n) as [-> | [[-> _] | [-> Hn]]].
  - apply H.
  - right. right. left. reflexivity.
  - right. right. right. left. split; [reflexivity|]. exists n. exact Hn.
Qed.

Lemma limit_raised_not_IndexError low : ~ limit_raised py low IndexError.
Proof. unfold limit_raised. intros [[? _]|[?|[[? _]|[? _]]]]; discriminate. Qed.

Lemma refines_except_IndexError {A} low (Q : A -> Prop) m1 m2 msg :
  refines py low Q m1 m2 ->
  refines py low Q (except_IndexError m1 msg) (except_IndexError m2 msg).
Proof.
  intros H ctx. specialize (H ctx). unfold except_IndexError.
  destruct (m1 ctx) as [[a| |] ctx1]; [| |exact H].
  - destruct H as [-> Ha]. auto.
  - destruct H as [-> | Hl].
    + destruct e; auto.
    + destruct e; auto. destruct (limit_raised_not_IndexError _ Hl).
Qed.

Lemma refines_get (tbl : ParserContext -> list pystr) low idx :
  refines py low (fun _ => True)
    (fun ctx => (list_getitem (tbl ctx) idx, ctx))
    (fun ctx => (list_getitem (tbl ctx) idx, ctx)).
Proof.
  intros ctx. unfold list_getitem.
  destruct (_ <? 0); [auto|]. destruct (_ !! _); auto.
Qed.

End Refinement.

(** One step through a [let*] on both sides. *)
Ltac ref_post :=
  cbn beta zeta; intros [] ?;
  unfold advances, within in *; cbn beta iota in *; destruct_and?.

Ltac ref_marker :=
  eapply refines_bind; [apply refines_agree, agree_check_marker|];
  intros [] ?; cbn beta zeta.

Ltac ref_low :=
  let H := fresh in
  intros H;
  match goal with
  | Hlow : _ -> ?low |- ?low => apply Hlow; subst; lia
  end.

(** A call of a helper that calls nothing: [lem] is what the helper
    does. *)
Ltac ref_leaf lem :=
  eapply refines_bind;
  [apply refines_call; [ref_low|intros ? _; apply refines_agree, lem]|];
  ref_post.

(** A call of another rule: [lem] is its refinement. *)
Ltac ref_rule lem :=
  eapply refines_bind;
  [apply refines_call; [ref_low|intros ? ?; apply lem; ref_low]|];
  ref_post.

Ltac ref_done :=
  first [ apply refines_raise
        | apply refines_ret; cbn; repeat split; try assumption;
          solve_suffix ].

Section RuleRefinement.

Variable py : interpreter.

Lemma StringValue_refines low f b :
  (f = 0%nat -> low) ->
  refines py low (advances b) (StringValue_parse_at f b) (StringValue_parse b).
Proof.
  intros Hlow. unfold StringValue_parse_at, StringValue_parse.
  ref_marker. ref_leaf agree_read_7bit.
  repeat (apply refines_if; intros _); ref_done.
Qed.

Lemma DateTimeValue_refines low f b :
  (f = 0%nat -> low) ->
  refines py low (advances b)
    (DateTimeValue_parse_at f b) (DateTimeValue_parse b).
Proof.
  intros Hlow. unfold DateTimeValue_parse_at, DateTimeValue_parse.
  ref_marker. ref_leaf (agree_fixed from_bytes_little 8).
  eapply refines_bind with (Q1 := fun _ => True).
  - apply refines_call; [ref_low|intros ? _].
    apply refines_agree, agree_lift; unfold parse_dotnet_datetime;
      destruct (_ <? _); try discriminate; auto.
  - intros dt _. ref_done.
Qed.

Lemma DoubleValue_refines low f b :
  (f = 0%nat -> low) ->
  refines py low (advances b) (DoubleValue_parse_at f b) (DoubleValue_parse b).
Proof.
  intros Hlow. unfold DoubleValue_parse_at, DoubleValue_parse.
  ref_marker. ref_leaf (agree_fixed unpack_d 8). ref_done.
Qed.

Lemma FloatValue_refines low f b :
  (f = 0%nat -> low) ->
  refines py low (advances b) (FloatValue_parse_at f b) (FloatValue_parse b).
Proof.
  intros Hlow. unfold FloatValue_parse_at, FloatValue_parse.
  ref_marker. ref_leaf (agree_fixed unpack_f 4). ref_done.
Qed.

Lemma RGBA_refines low f b :
  (f = 0%nat -> low) ->
  refines py low (advances b) (RGBA_parse_at py f b) (RGBA_parse b).
Proof.
  intros Hlow. unfold RGBA_parse_at, RGBA_parse.
  ref_marker. ref_leaf (agree_fixed from_bytes_little 4).
  cbn zeta. do 4 apply refines_int_str. ref_done.
Qed.

Lemma KnownColor_refines low f b :
  (f = 0%nat -> low) ->
  refines py low (advances b) (KnownColor_parse_at f b) (KnownColor_parse b).
Proof.
  intros Hlow. unfold KnownColor_parse_at, KnownColor_parse.
  ref_marker. ref_leaf agree_read_7bit.
  destruct (COLORS _); ref_done.
Qed.

Lemma TypeValue_refines low f b :
  ((f <= 1)%nat -> low) ->
  refines py low (advances b) (TypeValue_parse_at f b) (TypeValue_parse b).
Proof.
  intros Hlow. unfold TypeValue_parse_at, TypeValue_parse.
  ref_marker.
  eapply refines_bind; [apply refines_agree, agree_getitem|].
  intros c _. cbn beta.
  apply refines_if; intros _.
  - ref_leaf agree_read_7bit.
    eapply refines_bind with (Q1 := fun _ => True).
    + apply refines_except_IndexError.
      apply refines_call; [ref_low|intros ? _].
      apply (refines_get py type_table).
    + intros t _. ref_done.
  - ref_rule StringValue_refines.
    eapply refines_bind with (Q1 := fun _ => True).
    + apply refines_call; [ref_low|intros ? _].
      apply refines_agree, agree_add_type.
    + intros _ _. ref_done.
Qed.

Lemma EnumValue_refines low f b :
  ((f <= 2)%nat -> low) ->
  refines py low (advances b) (EnumValue_parse_at py f b) (EnumValue_parse b).
Proof.
  intros Hlow. unfold EnumValue_parse_at, EnumValue_parse.
  ref_marker. ref_rule TypeValue_refines. ref_leaf agree_read_7bit.
  apply refines_int_str. ref_done.
Qed.

Lemma UnitValue_refines low f b :
  (f = 0%nat -> low) ->
  refines py low (advances b)
    (UnitValue_parse_at py f b) (UnitValue_parse (str_of_float py) b).
Proof.
  intros Hlow. unfold UnitValue_parse_at, UnitValue_parse.
  ref_marker. ref_leaf (agree_fixed unpack_d 8).
  ref_leaf (agree_fixed from_bytes_little 4).
  apply refines_int_str. ref_done.
Qed.

Lemma IndexedString_refines low f b :
  ((f <= 1)%nat -> low) ->
  refines py low (advances b)
    (IndexedString_parse_at f b) (IndexedString_parse b).
Proof.
  intros Hlow. unfold IndexedString_parse_at, IndexedString_parse.
  eapply refines_bind; [apply refines_agree, agree_getitem|].
  intros token Hne. cbn beta zeta.
  apply refines_if; intros _.
  - destruct (drop 1 b) as [|c b'] eqn:E; [apply refines_raise|].
    eapply refines_bind with (Q1 := fun _ => True).
    + apply refines_except_IndexError.
      apply refines_call; [ref_low|intros ? _].
      apply (refines_get py string_table).
    + intros s _. apply refines_ret. split; [exact Hne|].
      rewrite E. apply suffix_cons_r. reflexivity.
  - ref_rule StringValue_refines.
    eapply refines_bind with (Q1 := fun _ => True).
    + apply refines_call; [ref_low|intros ? _].
      apply refines_agree, agree_add_string.
    + intros _ _. ref_done.
Qed.

Lemma BinaryFormatted_refines low f b :
  (f = 0%nat -> low) ->
  refines py low (advances b)
    (BinaryFormatted_parse_at f b) (BinaryFormatted_parse b).
Proof.
  intros Hlow. unfold BinaryFormatted_parse_at, BinaryFormatted_parse.
  ref_marker. ref_leaf agree_read_7bit.
  apply refines_if; intros _; ref_done.
Qed.

Lemma strings_loop_refines low f t n : forall b arr,
  ((f <= 1)%nat -> low) ->
  b `suffix_of` t ->
  refines py low (within t) (strings_loop_at f n b arr) (strings_loop n b arr).
Proof.
  induction n as [|n IH]; intros b arr Hlow Hb;
    cbn [strings_loop_at strings_loop].
  - apply refines_ret. exact Hb.
  - ref_rule StringValue_refines. apply IH; [exact Hlow|solve_suffix].
Qed.

Lemma StringArray_refines low f b :
  ((f <= 1)%nat -> low) ->
  refines py low (advances b) (StringArray_parse_at f b) (StringArray_parse b).
Proof.
  intros Hlow. unfold StringArray_parse_at, StringArray_parse.
  ref_marker. ref_leaf agree_read_7bit.
  eapply refines_bind;
    [apply (strings_loop_refines low f (drop 1 b)); [exact Hlow|solve_suffix]|].
  ref_post. ref_done.
Qed.

End RuleRefinement.

(** *** Rules that call [Parser.parse] *)

Section RecursiveRefinement.

(** [rec1] is [Parser.parse] as the rule at hand can call it, from a frame
    with [f] more above it, and [rec2] is [Parser.parse] without limits;
    [b] is what the rule was given. *)
Variables (py : interpreter) (low : Prop) (f : nat) (rec1 rec2 : parser)
  (b : bytes).
Hypothesis stack_low : (f <= 2)%nat -> low.
Hypothesis rec_refines :
  forall b', b <> [] -> b' `suffix_of` drop 1 b ->
    refines py low (advances b') (rec1 b') (rec2 b').

Ltac ref_nested :=
  eapply refines_bind; [apply rec_refines; [assumption|solve_suffix]|];
  ref_post.

Ltac ref_loop lem :=
  eapply refines_bind; [apply lem; solve [assumption | solve_suffix]|];
  ref_post.

Lemma PairValue_refines :
  refines py low (advances b) (PairValue_parse rec1 b) (PairValue_parse rec2 b).
Proof.
  unfold PairValue_parse. ref_marker. do 2 ref_nested. ref_done.
Qed.

Lemma TripletValue_refines :
  refines py low (advances b)
    (TripletValue_parse rec1 b) (TripletValue_parse rec2 b).
Proof.
  unfold TripletValue_parse. ref_marker. do 3 ref_nested. ref_done.
Qed.

Lemma values_loop_refines n : forall b' arr,
  b <> [] -> b' `suffix_of` drop 1 b ->
  refines py low (within (drop 1 b))
    (values_loop rec1 n b' arr) (values_loop rec2 n b' arr).
Proof.
  induction n as [|n IH]; intros b' arr Hne Hb; cbn [values_loop].
  - apply refines_ret. exact Hb.
  - ref_nested. apply IH; [assumption|solve_suffix].
Qed.

Lemma TypedArray_refines :
  refines py low (advances b)
    (TypedArray_parse_at f rec1 b) (TypedArray_parse rec2 b).
Proof.
  unfold TypedArray_parse_at, TypedArray_parse. ref_marker. ref_nested.
  ref_leaf agree_read_7bit. ref_loop values_loop_refines. ref_done.
Qed.

Lemma ListValue_refines :
  refines py low (advances b)
    (ListValue_parse_at f rec1 b) (ListValue_parse rec2 b).
Proof.
  unfold ListValue_parse_at, ListValue_parse. ref_marker.
  ref_leaf agree_read_7bit. ref_loop values_loop_refines. ref_done.
Qed.

Lemma dict_loop_refines n : forall b' d,
  b <> [] -> b' `suffix_of` drop 1 b ->
  refines py low (within (drop 1 b))
    (dict_loop rec1 n b' d) (dict_loop rec2 n b' d).
Proof.
  induction n as [|n IH]; intros b' d Hne Hb; cbn [dict_loop].
  - apply refines_ret. exact Hb.
  - do 2 ref_nested.
    eapply refines_bind; [apply refines_agree, agree_dict_setitem|].
    intros d' _. apply IH; [assumption|solve_suffix].
Qed.

Lemma DictValue_refines :
  refines py low (advances b)
    (DictValue_parse_at f rec1 b) (DictValue_parse rec2 b).
Proof.
  unfold DictValue_parse_at, DictValue_parse.
  eapply refines_bind; [apply refines_agree, agree_getitem|].
  intros marker Hne. cbn beta zeta.
  ref_leaf agree_read_7bit. ref_loop dict_loop_refines. ref_done.
Qed.

Lemma FormattedString_refines :
  refines py low (advances b)
    (FormattedString_parse_at f rec1 b) (FormattedString_parse rec2 b).
Proof.
  unfold FormattedString_parse_at, FormattedString_parse.
  ref_marker. ref_nested. ref_rule StringValue_refines.
  match goal with |- context [match ?v with VNone => _ | _ => _ end] =>
    destruct v end; ref_done.
Qed.

Lemma sparse_loop_refines len n : forall b' arr,
  b <> [] -> b' `suffix_of` drop 1 b ->
  refines py low (within (drop 1 b))
    (sparse_loop_at f rec1 len n b' arr) (sparse_loop rec2 len n b' arr).
Proof.
  induction n as [|n IH]; intros b' arr Hne Hb;
    cbn [sparse_loop_at sparse_loop].
  - apply refines_ret. exact Hb.
  - ref_leaf agree_read_7bit. apply refines_if; intros _;
      [apply refines_raise|].
    ref_nested. apply IH; [assumption|solve_suffix].
Qed.

Lemma SparseArray_refines :
  refines py low (advances b)
    (SparseArray_parse_at py f rec1 b) (SparseArray_parse rec2 b).
Proof.
  unfold SparseArray_parse_at, SparseArray_parse. ref_marker. ref_nested.
  do 2 ref_leaf agree_read_7bit.
  apply refines_list_repeat. cbn zeta.
  ref_loop sparse_loop_refines. ref_done.
Qed.

Lemma cls_parse_at_refines cls :
  b <> [] ->
  refines py low (advances b)
    (cls_parse_at py f rec1 cls b) (cls_parse (str_of_float py) rec2 cls b).
Proof.
  intros Hne.
  destruct cls; cbn [cls_parse_at cls_parse].
  - apply refines_agree, Noop_agree, Hne.
  - apply refines_agree, Const_agree, Hne.
  - apply refines_agree, Const_agree, Hne.
  - apply refines_agree, Const_agree, Hne.
  - apply refines_agree, Const_agree, Hne.
  - apply refines_agree, Const_agree, Hne.
  - apply refines_agree, Integer_agree.
  - apply refines_agree, ByteValue_agree.
  - apply refines_agree, CharValue_agree.
  - eapply refines_bind; [apply StringValue_refines; ref_low|].
    ref_post. ref_done.
  - apply DateTimeValue_refines; ref_low.
  - apply DoubleValue_refines; ref_low.
  - apply FloatValue_refines; ref_low.
  - apply RGBA_refines; ref_low.
  - apply KnownColor_refines; ref_low.
  - apply EnumValue_refines; ref_low.
  - apply refines_agree, ColorEmpty_agree.
  - apply PairValue_refines.
  - apply TripletValue_refines.
  - apply TypedArray_refines.
  - apply StringArray_refines; ref_low.
  - apply ListValue_refines.
  - apply DictValue_refines.
  - eapply refines_bind; [apply TypeValue_refines; ref_low|].
    ref_post. ref_done.
  - apply UnitValue_refines; ref_low.
  - apply refines_agree, UnitEmpty_agree.
  - apply IndexedString_refines; ref_low.
  - apply FormattedString_refines.
  - apply BinaryFormatted_refines; ref_low.
  - apply SparseArray_refines.
Qed.

End RecursiveRefinement.

Section Limits.

Variable py : interpreter.

Lemma Parser_parse_at_unfold f b :
  Parser_parse_at py f b
  = match b with
    | [] => raise (ViewStateException "No data to parse")
    | marker :: _ =>
        let* parser_cls :=
          except_KeyError (dict_getitem (registry marker))
            (raise (ViewStateException
                      ("Unknown marker 0x" +:+ hex2 (byte_val marker)))) in
        call f (fun f1 =>
          cls_parse_at py f1
            (fun b' => call f1 (fun f2 => Parser_parse_at py f2 b'))
            parser_cls b)
    end.
Proof. destruct f; reflexivity. Qed.

(** [Parser.parse] under the limits against [Parser.parse] without: the
    stack is low when it has fewer than two frames for each byte, and
    two. *)
Lemma Parser_parse_at_refines : forall f b,
  refines py (f < 2 * length b + 2)%nat (advances b)
    (Parser_parse_at py f b) (Parser_parse (str_of_float py) b).
Proof.
  induction f as [f IH] using lt_wf_ind. intros b ctx.
  rewrite Parser_parse_at_unfold, Parser_parse_unfold.
  unfold Parser_parse_body.
  destruct b as [|marker b]; [left; reflexivity|].
  destruct (registry marker) as [cls|] eqn:Hreg; [|left; reflexivity].
  change ((let* parser_cls := except_KeyError (dict_getitem (Some cls)) _ in _)
            ctx)
    with (call f (fun f1 =>
            cls_parse_at py f1
              (fun b' => call f1 (fun f2 => Parser_parse_at py f2 b'))
              cls (marker :: b)) ctx).
  revert ctx.
  change (refines py (f < 2 * length (marker :: b) + 2)%nat
            (advances (marker :: b))
            (call f (fun f1 =>
               cls_parse_at py f1
                 (fun b' => call f1 (fun f2 => Parser_parse_at py f2 b'))
                 cls (marker :: b)))
            (cls_parse (str_of_float py) (Parser_parse (str_of_float py)) cls
               (marker :: b))).
  apply refines_call; [intros ->; cbn [length]; lia|].
  intros f1 ->. apply cls_parse_at_refines; [cbn [length]; lia| |discriminate].
  intros b' _ Hs. apply refines_call.
  { intros ->. cbn [length]. lia. }
  intros f2 ->.
  eapply refines_weaken; [apply (IH f2); lia| |auto].
  pose proof (suffix_tail_length (marker :: b) b' ltac:(discriminate) Hs).
  lia.
Qed.

End Limits.

Section LimitsTop.

Variable py : interpreter.

Lemma Parser_parse_at_returns f b ctx r ctx' :
  Parser_parse_at py f b ctx = (Return r, ctx') ->
  Parser_parse (str_of_float py) b ctx = (Return r, ctx').
Proof.
  intros E. pose proof (Parser_parse_at_refines py f b ctx) as H.
  rewrite E in H. apply H.
Qed.

Lemma Parser_parse_at_raises f b ctx e ctx' :
  Parser_parse_at py f b ctx = (Raise e, ctx') ->
  (Parser_parse (str_of_float py) b ctx = (Raise e, ctx') /\ parser_raises e)
  \/ limit_raised py (f < 2 * length b + 2)%nat e.
Proof.
  intros E. pose proof (Parser_parse_at_refines py f b ctx) as H.
  rewrite E in H. destruct H as [H|H]; [left|right; exact H].
  split; [exact H|]. apply (Parser_parse_raises _ _ _ _ _ H).
Qed.

Lemma Parser_parse_at_total f b ctx :
  (Parser_parse_at py f b ctx).1 <> OutOfFuel.
Proof.
  intros E. pose proof (Parser_parse_at_refines py f b ctx) as H.
  destruct (Parser_parse_at py f b ctx) as [[r| |] ctx']; try discriminate.
  exact H.
Qed.

(** With two frames for every byte, and two, the stack is never
    exhausted. *)
Lemma Parser_parse_at_stack f b ctx :
  (2 * length b + 2 <= f)%nat ->
  (Parser_parse_at py f b ctx).1 <> Raise RecursionError.
Proof.
  intros Hf E.
  destruct (Parser_parse_at py f b ctx) as [[r|e|] ctx'] eqn:Hp;
    try discriminate.
  injection E as ->.
  destruct (Parser_parse_at_raises _ _ _ _ _ Hp) as [[_ H]|H]; [exact H|].
  destruct H as [[_ Hlow]|[H|[[H _]|[H _]]]]; try discriminate. lia.
Qed.

Lemma parse_viewstate_at_refines f input :
  match parse_viewstate_at py f input with
  | Return result => parse_viewstate (str_of_float py) input = Return result
  | Raise e =>
      parse_viewstate (str_of_float py) input = Raise e
      \/ limit_raised py (f < 2 * length input)%nat e
  | OutOfFuel => False
  end.
Proof.
  destruct input as [|c0 [|c1 b]]; [left; reflexivity
                                   |destruct c0; left; reflexivity|].
  destruct c0; try (left; reflexivity).
  destruct c1; try (left; reflexivity).
  cbn [parse_viewstate_at parse_viewstate].
  destruct f as [|f1]; [right; left; split; [reflexivity|cbn [length]; lia]|].
  pose proof (Parser_parse_at_refines py f1 b new_context) as H.
  destruct (Parser_parse_at py f1 b new_context) as [[[v remain]|e|] ctx'];
    cbn [fst].
  - destruct H as [-> _]. cbn [fst].
    destruct (length remain =? 0)%nat; [reflexivity|].
    destruct (_ || _); [reflexivity|].
    destruct (int_str_cases py (Z.of_nat (length remain))) as [-> | [-> Hl]];
      [left; reflexivity|].
    right. right. right. right. auto.
  - destruct H as [-> | H]; [left; reflexivity|right].
    unfold limit_raised in *. cbn [length].
    destruct H as [[-> Hlow]|H]; [left; split; [reflexivity|lia]|tauto].
  - exact H.
Qed.


Lemma parse_viewstate_at_raises f input e :
  parse_viewstate_at py f input = Raise e ->
  parser_raises e
  \/ e = ViewStateException "Not a valid ASP.NET 2.0 LOS stream"
  \/ (exists n : nat,
        n <> 0%nat /\ n <> 20%nat /\ n <> 32%nat
        /\ e = ViewStateException
                 ("Invalid trailing bytes length: " +:+ dec (Z.of_nat n)))
  \/ limit_raised py (f < 2 * length input)%nat e.
Proof.
  intros E. pose proof (parse_viewstate_at_refines f input) as H.
  rewrite E in H. destruct H as [H|H]; [|auto].
  destruct (parse_viewstate_raises _ _ _ H) as [H1|[H1|H1]]; auto.
Qed.

(** [d] lists inside one another need two frames each, and one for the
    constant. *)
Lemma Parser_parse_at_nested_lists d : forall f rest ctx,
  Parser_parse_at py f (nested_lists d ++ rest) ctx
  = if (2 * d + 1 <=? f)%nat
    then (Return (nested_value d, rest), ctx)
    else (Raise RecursionError, ctx).
Proof.
  induction d as [|d IH]; intros f rest ctx; cbn [nested_lists app].
  - destruct f as [|f]; reflexivity.
  - destruct f as [|[|f]].
    + destruct (Nat.leb_spec (2 * S d + 1) 0); [lia|reflexivity].
    + destruct (Nat.leb_spec (2 * S d + 1) 1); [lia|reflexivity].
    + cbn [Parser_parse_at].
      change (except_KeyError (dict_getitem (registry x16)) _)
        with (@ret parser_cls ListValue).
      unfold bind at 1. cbn [ret call cls_parse_at].
      unfold ListValue_parse_at.
      rewrite (bind_Return _ _ _ _ _ (check_marker_ok x16 _ "List" ctx)).
      cbn [drop call].
      rewrite (bind_lift_Return _ _ _ (1, nested_lists d ++ rest))
        by reflexivity.
      change (Z.to_nat 1) with 1%nat. cbn [values_loop].
      unfold bind. rewrite IH.
      destruct (Nat.leb_spec (2 * d + 1) f),
        (Nat.leb_spec (2 * S d + 1) (S (S f))); try lia; reflexivity.
Qed.

Lemma parse_viewstate_at_nested_lists d f :
  parse_viewstate_at py f (xff :: x01 :: nested_lists d)
  = if (2 * d + 2 <=? f)%nat
    then Return {| value := nested_value d; macEnabled := false;
                   raw := nested_lists d |}
    else Raise RecursionError.
Proof.
  cbn [parse_viewstate_at]. destruct f as [|f].
  { destruct (Nat.leb_spec (2 * d + 2) 0); [lia|reflexivity]. }
  rewrite <- (app_nil_r (nested_lists d)) at 1.
  rewrite Parser_parse_at_nested_lists.
  destruct (Nat.leb_spec (2 * d + 1) f),
    (Nat.leb_spec (2 * d + 2) (S f)); try lia; reflexivity.
Qed.

End LimitsTop.

Section NestingLimit.

Variable py : interpreter.

(** C9 as the code has it: the decoder has no nesting limit of its own and
    no error for one. What bounds the recursion is the interpreter: [d]
    lists inside one another decode when it allows [2 d + 2] nested calls
    inside [parse_viewstate], and raise [RecursionError], which is no
    [ViewStateException], when it allows fewer. [Parser.parse] returns or
    raises on every input; every nested call gets fewer bytes than its
    caller, so that a stack with two frames for every input byte, and two,
    is never exhausted; and every [ViewStateException] that
    [parse_viewstate] raises has one of the messages of the source, none
    of which is about depth. *)
Theorem C9_recursion_bounded_by_input (f : nat) :
  (forall d,
      parse_viewstate_at py f (xff :: x01 :: nested_lists d)
      = if (2 * d + 2 <=? f)%nat
        then Return {| value := nested_value d; macEnabled := false;
                       raw := nested_lists d |}
        else Raise RecursionError)
  /\ (forall b ctx,
        (Parser_parse_at py f b ctx).1 <> OutOfFuel
        /\ ((2 * length b + 2 <= f)%nat ->
            (Parser_parse_at py f b ctx).1 <> Raise RecursionError)
        /\ (forall v rest ctx',
              Parser_parse_at py f b ctx = (Return (v, rest), ctx') ->
              (length rest < length b)%nat))
  /\ (forall input msg,
        parse_viewstate_at py f input = Raise (ViewStateException msg) ->
        In msg parser_messages
        \/ (exists marker : byte,
              registry marker = None
              /\ msg = ("Unknown marker 0x" +:+ hex2 (byte_val marker))%string)
        \/ msg = "Not a valid ASP.NET 2.0 LOS stream"%string
        \/ (exists n : nat,
              msg = ("Invalid trailing bytes length: "
                       +:+ dec (Z.of_nat n))%string)).
Proof.
  split; [|split].
  - intros d. apply parse_viewstate_at_nested_lists.
  - intros b ctx. split; [apply Parser_parse_at_total|].
    split; [apply Parser_parse_at_stack|].
    intros v rest ctx' E. apply Parser_parse_at_returns in E.
    destruct (Parser_parse_post (str_of_float py) b ctx) as [_ Hpost].
    rewrite E in Hpost. cbn in Hpost. destruct Hpost as [Hne Hs].
    apply suffix_tail_length; assumption.
  - intros input msg E.
    destruct (parse_viewstate_at_raises py f input _ E)
      as [H|[H|[(n & _ & _ & _ & H)|H]]].
    + destruct H as [H|H]; auto.
    + injection H as ->. auto.
    + injection H as ->. right. right. right. exists n. reflexivity.
    + destruct H as [[H _]|[H|[[H _]|[H _]]]]; discriminate.
Qed.

End NestingLimit.

(** ** Sparse arrays under the limits *)

Lemma Parser_parse_at_registered py f marker cls b ctx :
  registry marker = Some cls ->
  Parser_parse_at py (S (S f)) (marker :: b) ctx
  = cls_parse_at py (S f) (Parser_parse_at py f) cls (marker :: b) ctx.
Proof. intros E. cbn [Parser_parse_at]. rewrite E. reflexivity. Qed.

(** With a frame left for [read_7bit_encoded_int], the loop is the loop
    above. *)
Lemma sparse_loop_at_S f (P : parser) len n : forall b arr ctx,
  sparse_loop_at (S f) P len n b arr ctx = sparse_loop P len n b arr ctx.
Proof.
  induction n as [|n IH]; intros b arr ctx; [reflexivity|].
  cbn [sparse_loop_at sparse_loop call]. unfold bind, lift.
  destruct (read_7bit_encoded_int b) as [[idx b1]| |]; try reflexivity.
  destruct ((idx <? 0) || (len <=? idx)); [reflexivity|].
  destruct (P b1 ctx) as [[[val b2]| |] ctx1]; try reflexivity.
  apply IH.
Qed.

Lemma SparseArray_parse_at_alloc py f (P : parser) b0 ty b1 len b2 count b3
    ctx0 ctx1 :
  P b0 ctx0 = (Return (ty, b1), ctx1) ->
  read_7bit_encoded_int b1 = Return (len, b2) ->
  read_7bit_encoded_int b2 = Return (count, b3) ->
  SparseArray_parse_at py (S f) P (x3c :: b0) ctx0
  = (let* arr := lift (list_repeat py VNone len) in
     let* (arr, b) := sparse_loop P len (Z.to_nat count) b3 arr in
     ret (VList arr, b)) ctx1.
Proof.
  intros Hty Hlen Hcount. unfold SparseArray_parse_at.
  rewrite (bind_Return _ _ _ _ _ (check_marker_ok x3c _ "SparseArray" ctx0)).
  cbn [drop call]. rewrite (bind_Return _ _ _ _ _ Hty).
  rewrite (bind_lift_Return _ _ _ _ Hlen).
  rewrite (bind_lift_Return _ _ _ _ Hcount).
  unfold bind, lift. destruct (list_repeat py VNone len); try reflexivity.
  rewrite sparse_loop_at_S. reflexivity.
Qed.

Section SparseLimit.

Variable py : interpreter.

(** C5 as the code has it: a sparse array that declares length 5 and 2
    entries, at indices 1 and 3, decodes to the 5-element list [None, v1,
    None, v2, None] when the interpreter can allocate a list of 5; in every
    sparse array whose declared length the interpreter can allocate, an
    entry whose index is at or past that length raises "Invalid index in
    sparse array", however many entries were decoded before it; and a
    declared length that it cannot allocate raises [OverflowError], from
    2^63 on, or [MemoryError], before any entry is read. *)
Theorem C5_sparse_array (f : nat) :
  (forall b0 ty b1 v1 b2 v2 b3 ctx0 ctx1 ctx2 ctx3,
      can_allocate py 5 = true ->
      Parser_parse_at py f b0 ctx0
      = (Return (ty, x05 :: x02 :: x01 :: b1), ctx1) ->
      Parser_parse_at py f b1 ctx1 = (Return (v1, x03 :: b2), ctx2) ->
      Parser_parse_at py f b2 ctx2 = (Return (v2, b3), ctx3) ->
      Parser_parse_at py (S (S f)) (x3c :: b0) ctx0
      = (Return (VList [VNone; v1; VNone; v2; VNone], b3), ctx3))
  /\ (forall b0 ty b1 len b2 count b3 arr0 k arr b4 idx b5 ctx0 ctx1 ctx2,
      Parser_parse_at py f b0 ctx0 = (Return (ty, b1), ctx1) ->
      read_7bit_encoded_int b1 = Return (len, b2) ->
      read_7bit_encoded_int b2 = Return (count, b3) ->
      list_repeat py VNone len = Return arr0 ->
      (k < Z.to_nat count)%nat ->
      sparse_loop_at (S f) (Parser_parse_at py f) len k b3 arr0 ctx1
      = (Return (arr, b4), ctx2) ->
      read_7bit_encoded_int b4 = Return (idx, b5) ->
      len <= idx ->
      Parser_parse_at py (S (S f)) (x3c :: b0) ctx0
      = (Raise (ViewStateException "Invalid index in sparse array"), ctx2))
  /\ (forall b0 ty b1 len b2 count b3 e ctx0 ctx1,
      Parser_parse_at py f b0 ctx0 = (Return (ty, b1), ctx1) ->
      read_7bit_encoded_int b1 = Return (len, b2) ->
      read_7bit_encoded_int b2 = Return (count, b3) ->
      list_repeat py VNone len = Raise e ->
      Parser_parse_at py (S (S f)) (x3c :: b0) ctx0 = (Raise e, ctx1)
      /\ ((e = OverflowError /\ 2 ^ 63 <= len)
          \/ (e = MemoryError /\ 0 < len < 2 ^ 63
              /\ can_allocate py len = false))).
Proof.
  split; [|split].
  - intros b0 ty b1 v1 b2 v2 b3 ctx0 ctx1 ctx2 ctx3 Halloc Hty Hv1 Hv2.
    rewrite (Parser_parse_at_registered py f x3c SparseArray) by reflexivity.
    cbn [cls_parse_at].
    rewrite (SparseArray_parse_at_alloc py f _ _ _ _ 5 (x02 :: x01 :: b1) 2
               (x01 :: b1) _ _ Hty) by reflexivity.
    unfold list_repeat. cbn [Z.leb Z.ltb Z.compare].
    change (maxsize <? 5) with false. cbn iota. rewrite Halloc.
    rewrite (bind_lift_Return _ _ _ (replicate 5 VNone)) by reflexivity.
    change (Z.to_nat 2) with 2%nat.
    rewrite (bind_Return _ _ _ ([VNone; v1; VNone; v2; VNone], b3) ctx3);
      [reflexivity|].
    cbn [sparse_loop replicate].
    rewrite (bind_lift_Return _ _ _ (1, b1)) by reflexivity.
    cbn [Z.ltb Z.leb Z.compare Pos.compare Pos.compare_cont orb].
    rewrite (bind_Return _ _ _ _ _ Hv1).
    rewrite (bind_lift_Return _ _ _ (3, b2)) by reflexivity.
    cbn [Z.ltb Z.leb Z.compare Pos.compare Pos.compare_cont orb].
    rewrite (bind_Return _ _ _ _ _ Hv2).
    reflexivity.
  - intros b0 ty b1 len b2 count b3 arr0 k arr b4 idx b5 ctx0 ctx1 ctx2
      Hty Hlen Hcount Halloc Hk Hloop Hidx Hbad.
    rewrite (Parser_parse_at_registered py f x3c SparseArray) by reflexivity.
    cbn [cls_parse_at].
    rewrite (SparseArray_parse_at_alloc py f _ _ _ _ _ _ _ _ _ _
               Hty Hlen Hcount).
    rewrite (bind_lift_Return _ _ _ _ Halloc).
    apply bind_Raise.
    replace (Z.to_nat count) with (k + S (Z.to_nat count - S k))%nat by lia.
    rewrite sparse_loop_at_S in Hloop.
    rewrite sparse_loop_split, Hloop.
    apply (sparse_loop_invalid_index _ _ _ _ _ _ idx b5 Hidx Hbad).
  - intros b0 ty b1 len b2 count b3 e ctx0 ctx1 Hty Hlen Hcount Halloc.
    split.
    + rewrite (Parser_parse_at_registered py f x3c SparseArray)
        by reflexivity.
      cbn [cls_parse_at].
      rewrite (SparseArray_parse_at_alloc py f _ _ _ _ _ _ _ _ _ _
                 Hty Hlen Hcount).
      unfold bind, lift. rewrite Halloc. reflexivity.
    + destruct (list_repeat_cases py VNone len) as [H|[[H Hmax]|[H Hn]]];
        rewrite H in Halloc; [discriminate| |].
      * injection Halloc as <-. left. unfold maxsize in Hmax. split; [auto|lia].
      * injection Halloc as <-. right. unfold maxsize in Hn.
        split; [reflexivity|]. split; [lia|tauto].
Qed.

(** X18: the declared length of a sparse array is not checked against the
    input: the marker, a type, the groups of [len] and a zero count make
    the decoder ask for a list of [len] entries, whatever [len] is. It
    returns that list, all [None], when the interpreter has room for it;
    otherwise the failure is the interpreter's, [OverflowError] from 2^63
    on and [MemoryError] below, and no [ViewStateException]. *)
Theorem sparse_array_length_unbounded f len rest ctx :
  0 <= len ->
  Parser_parse_at py (S (S (S f)))
    (x3c :: x64 :: encode_7bit len ++ x00 :: rest) ctx
  = if len =? 0 then (Return (VList [], rest), ctx)
    else if 2 ^ 63 <=? len then (Raise OverflowError, ctx)
    else if can_allocate py len
    then (Return (VList (replicate (Z.to_nat len) VNone), rest), ctx)
    else (Raise MemoryError, ctx).
Proof.
  intros Hlen.
  rewrite (Parser_parse_at_registered py (S f) x3c SparseArray)
    by reflexivity.
  cbn [cls_parse_at].
  rewrite (SparseArray_parse_at_alloc py (S f) (Parser_parse_at py (S f))
             (x64 :: encode_7bit len ++ x00 :: rest) VNone
             (encode_7bit len ++ x00 :: rest) len (x00 :: rest) 0 rest
             ctx ctx eq_refl (read_7bit_encode len _ Hlen) eq_refl).
  unfold bind, lift, list_repeat, maxsize.
  destruct (Z.eqb_spec len 0) as [->|Hnz]; [reflexivity|].
  destruct (Z.leb_spec len 0); [lia|].
  destruct (Z.ltb_spec (2 ^ 63 - 1) len), (Z.leb_spec (2 ^ 63) len);
    try lia; [reflexivity|].
  destruct (can_allocate py len); reflexivity.
Qed.


End SparseLimit.

(** * Instances

    The theorems above at concrete inputs, and the inputs on which the
    code departs from the specification. *)

(** C1 at FF 01 65 followed by 20 zero bytes: the empty string, with a
    trailer. *)
Lemma C1_witness :
  take 2 ([xff; x01; x65] ++ replicate 20 x00) = [xff; x01]
  /\ Parser_parse float_str_unused
       (drop 2 ([xff; x01; x65] ++ replicate 20 x00)) new_context
     = (Return (VStr [], replicate 20 x00), new_context)
  /\ parse_viewstate float_str_unused ([xff; x01; x65] ++ replicate 20 x00)
     = Return {| value := VStr []; macEnabled := true;
                 raw := x65 :: replicate 20 x00 |}.
Proof.
  split; [reflexivity|]. split; [reflexivity|].
  destruct (C1_trailer_classification float_str_unused
              ([xff; x01; x65] ++ replicate 20 x00) (VStr [])
              (replicate 20 x00) new_context eq_refl eq_refl)
    as (_ & _ & H & _).
  apply H. left. reflexivity.
Defined.

(** C3 at 300, which is AC 02. *)
Lemma C3_witness :
  0 <= 300 <= 2 ^ 32 - 1
  /\ read_7bit_encoded_int (encode_7bit 300 ++ [x7b]) = Return (300, [x7b]).
Proof.
  split; [lia|]. apply (C3_varint_round_trip 300 [x7b]). lia.
Defined.

(** C4 at references to index 0 of empty tables. *)
Lemma C4_witness :
  Parser_parse float_str_unused [x19; x2b; x00] new_context
  = (Raise (ViewStateException "Invalid type reference index"), new_context)
  /\ Parser_parse float_str_unused [x1f; x00; x00] new_context
     = (Raise (ViewStateException "Invalid string reference index"),
        new_context).
Proof.
  destruct (C4_tables_append_only_and_checked float_str_unused [x00]
              new_context) as (_ & Htype & Hstring).
  split.
  - apply (Htype 0 []); [reflexivity|cbn; lia].
  - apply (Hstring x00). cbn. lia.
Defined.

(** C5, as the specification states it, fails: in 3C 64 <2^63> 01 <2^63>
    the index of the entry is the declared length, and under no
    interpreter does the decode raise "Invalid index in sparse array". *)
Lemma C5_counterexample :
  ~ (exists (py : interpreter) (f : nat),
        parse_viewstate_at py f
          ([xff; x01; x3c; x64] ++ encode_7bit (2 ^ 63) ++ [x01]
             ++ encode_7bit (2 ^ 63))
        = Raise (ViewStateException "Invalid index in sparse array")).
Proof.
  intros (py & f & H).
  destruct f as [|[|[|[|f]]]]; discriminate H.
Qed.

(** C5 at 3C 64 05 02 01 02 07 03 67, entries 7 and True at 1 and 3; at
    the same with the second index 5; and at a declared length of 2^63. *)
Lemma C5_witness :
  Parser_parse_at py_default 3
    [x3c; x64; x05; x02; x01; x02; x07; x03; x67] new_context
  = (Return (VList [VNone; VInt 7; VNone; VBool true; VNone], []),
     new_context)
  /\ Parser_parse_at py_default 3
       [x3c; x64; x05; x02; x01; x02; x07; x05; x67] new_context
     = (Raise (ViewStateException "Invalid index in sparse array"),
        new_context)
  /\ Parser_parse_at py_default 3
       (x3c :: x64 :: encode_7bit (2 ^ 63) ++ [x01] ++ encode_7bit (2 ^ 63))
       new_context
     = (Raise OverflowError, new_context).
Proof.
  destruct (C5_sparse_array py_default 1) as (Hok & Hbad & Halloc).
  split; [|split].
  - apply (Hok [x64; x05; x02; x01; x02; x07; x03; x67] VNone
             [x02; x07; x03; x67] (VInt 7) [x67] (VBool true) []
             new_context new_context new_context new_context);
      reflexivity.
  - apply (Hbad [x64; x05; x02; x01; x02; x07; x05; x67] VNone
             [x05; x02; x01; x02; x07; x05; x67] 5
             [x02; x01; x02; x07; x05; x67] 2 [x01; x02; x07; x05; x67]
             (replicate 5 VNone) 1%nat
             [VNone; VInt 7; VNone; VNone; VNone] [x05; x67] 5 [x67]
             new_context new_context new_context);
      try reflexivity; cbn; lia.
  - apply (Halloc (x64 :: encode_7bit (2 ^ 63) ++ [x01]
                     ++ encode_7bit (2 ^ 63))
             VNone (encode_7bit (2 ^ 63) ++ [x01] ++ encode_7bit (2 ^ 63))
             (2 ^ 63) ([x01] ++ encode_7bit (2 ^ 63)) 1
             (encode_7bit (2 ^ 63)) OverflowError new_context new_context);
      reflexivity.
Defined.

(** C6, as the specification states it, fails: the stream does not
    decode. *)
Lemma C6_counterexample :
  ~ (exists (float_str : pyfloat -> pystr) (result : ViewState),
        parse_viewstate float_str
          [xff; x01; x19; x05; x03; x66; x6f; x6f; x19; x2b; x00]
        = Return result).
Proof.
  intros (float_str & result & H).
  assert (E : parse_viewstate float_str
                [xff; x01; x19; x05; x03; x66; x6f; x6f; x19; x2b; x00]
              = Raise (ViewStateException "Invalid trailing bytes length: 3"))
    by reflexivity.
  rewrite E in H. discriminate.
Qed.

(** C6 at the type "foo" and at the indexed string "foo", each followed by
    its reference. *)
Lemma C6_witness :
  Parser_parse float_str_unused [x19; x2b; x00; x64]
    {| type_table := [str "foo"]; string_table := [] |}
  = (Return (VStr (str "foo"), [x64]),
     {| type_table := [str "foo"]; string_table := [] |})
  /\ Parser_parse float_str_unused [x1f; x00; x64]
       {| type_table := []; string_table := [str "foo"; str "bar"] |}
     = (Return (VStr (str "foo"), [x64]),
        {| type_table := []; string_table := [str "foo"; str "bar"] |}).
Proof.
  destruct (C6_back_reference_resolves float_str_unused)
    as (_ & _ & _ & Htype & Hstring).
  split.
  - apply (Htype x05 [x03; x66; x6f; x6f] (VStr (str "foo")) [] new_context
             {| type_table := [str "foo"]; string_table := [] |});
      [discriminate|reflexivity|reflexivity|apply rtc_refl].
  - apply (Hstring [x05; x03; x66; x6f; x6f] (VStr (str "foo")) []
             new_context
             {| type_table := []; string_table := [str "foo"] |});
      [reflexivity|reflexivity|].
    apply rtc_once.
    apply (step_add_string
             {| type_table := []; string_table := [str "foo"] |} (str "bar")).
Defined.

(** C7, as the specification states it, fails: the rule of a marker,
    given the bytes after the marker, does not do what the dispatcher does
    on the marker and those bytes. *)
Lemma C7_counterexample :
  ~ (forall (float_str : pyfloat -> pystr) marker cls payload ctx,
        registry marker = Some cls ->
        Parser_parse float_str (marker :: payload) ctx
        = cls_parse float_str (Parser_parse float_str) cls payload ctx).
Proof.
  intros H.
  specialize (H float_str_unused x02 Integer [x01] new_context eq_refl).
  assert (E1 : Parser_parse float_str_unused [x02; x01] new_context
               = (Return (VInt 1, []), new_context)) by reflexivity.
  assert (E2 : cls_parse float_str_unused (Parser_parse float_str_unused)
                 Integer [x01] new_context
               = (Raise (ViewStateException "Invalid marker for Integer"),
                  new_context)) by reflexivity.
  rewrite E1, E2 in H. discriminate.
Qed.

(** C7 at 02 AC 02 7B: the integer 300, and the byte after it left over;
    and at the rules of the integer and of the list given a first byte 05,
    and the rule of the dict given 05 for 17. *)
Lemma C7_witness :
  Parser_parse float_str_unused [x02; xac; x02; x7b] new_context
  = (Return (VInt 300, [x7b]), new_context)
  /\ [x7b] `suffix_of` [xac; x02; x7b]
  /\ x05 <> x02
  /\ Integer_parse [x05; xac; x02; x7b] new_context
     = (Raise (ViewStateException "Invalid marker for Integer"), new_context)
  /\ cls_parse float_str_unused (Parser_parse float_str_unused) ListValue
       [x05; xac; x02; x7b] new_context
     = (Raise (ViewStateException "Invalid marker for List"), new_context)
  /\ cls_parse float_str_unused (Parser_parse float_str_unused) DictValue
       [x05; x00; x7b] new_context
     = (Return (VDict [], [x7b]), new_context).
Proof.
  destruct (C7_dispatch_passes_marker float_str_unused x02 [xac; x02; x7b]
              new_context) as (_ & Hsuffix & _).
  destruct (C7_dispatch_passes_marker float_str_unused x05 [xac; x02; x7b]
              new_context) as (_ & _ & Hcheck & _ & _ & _ & Hwrong & _).
  destruct (C7_dispatch_passes_marker float_str_unused x05 [x00; x7b]
              new_context) as (_ & _ & _ & _ & _ & _ & _ & Hany).
  split; [reflexivity|].
  split; [apply (Hsuffix (VInt 300) [x7b] new_context); reflexivity|].
  split; [discriminate|]. split; [apply Hcheck; discriminate|].
  split.
  - destruct (Hwrong ListValue 0x16 "List"%string eq_refl) as [_ H].
    apply H. discriminate.
  - rewrite (Hany DictValue (Parser_parse float_str_unused) x17 eq_refl)
      by discriminate.
    reflexivity.
Defined.

(** C8 at 28 64 05 01 41 and at 28 65 05 01 41: a null and a non-null
    nested value before the string "A". *)
Lemma C8_witness :
  Parser_parse float_str_unused [x28; x64; x05; x01; x41] new_context
  = (Return (VNone, []), new_context)
  /\ Parser_parse float_str_unused [x28; x65; x05; x01; x41] new_context
     = (Return (VStr (str "SerialisedObject(A)"), []), new_context).
Proof.
  split.
  - apply (C8_formatted_string float_str_unused [x64; x05; x01; x41] VNone
             [x05; x01; x41] (str "A") [] new_context new_context);
      reflexivity.
  - apply (C8_formatted_string float_str_unused [x65; x05; x01; x41]
             (VStr []) [x05; x01; x41] (str "A") [] new_context new_context);
      reflexivity.
Defined.

(** C9, as the specification states it, fails: for no interpreter is
    there a depth past which every stream of nested lists raises a
    [ViewStateException]. *)
Lemma C9_counterexample :
  ~ (exists (py : interpreter) (f D : nat),
        forall d, (D < d)%nat ->
          exists msg,
            parse_viewstate_at py f (xff :: x01 :: nested_lists d)
            = Raise (ViewStateException msg)).
Proof.
  intros (py & f & D & H). destruct (H (S D)) as [msg E]; [lia|].
  rewrite parse_viewstate_at_nested_lists in E.
  destruct (_ <=? _)%nat; discriminate.
Qed.

(** C9 at three lists inside one another, with eight frames and with
    seven. *)
Lemma C9_witness :
  parse_viewstate_at py_default 8
    [xff; x01; x16; x01; x16; x01; x16; x01; x64]
  = Return {| value := VList [VList [VList [VNone]]]; macEnabled := false;
              raw := [x16; x01; x16; x01; x16; x01; x64] |}
  /\ parse_viewstate_at py_default 7
       [xff; x01; x16; x01; x16; x01; x16; x01; x64]
     = Raise RecursionError.
Proof.
  split.
  - destruct (C9_recursion_bounded_by_input py_default 8) as [H _].
    apply (H 3%nat).
  - destruct (C9_recursion_bounded_by_input py_default 7) as [H _].
    apply (H 3%nat).
Defined.

(** C10 at 17 02 02 01 65 67 66: the keys 1 and True are equal, and the
    dict has one entry. *)
Lemma C10_witness :
  read_7bit_encoded_int [x02; x02; x01; x65; x67; x66]
  = Return (2, [x02; x01; x65; x67; x66])
  /\ pairs_decode (Parser_parse float_str_unused) 2
       [x02; x01; x65; x67; x66] new_context
       [(VInt 1, VStr []); (VBool true, VInt 0)] [] new_context
  /\ Parser_parse float_str_unused [x17; x02; x02; x01; x65; x67; x66]
       new_context
     = (Return (VDict [(VInt 1, VInt 0)], []), new_context).
Proof.
  assert (Hpairs : pairs_decode (Parser_parse float_str_unused) 2
                     [x02; x01; x65; x67; x66] new_context
                     [(VInt 1, VStr []); (VBool true, VInt 0)] []
                     new_context).
  { apply (pairs_decode_cons _ 1 _ _ (VInt 1) [x65; x67; x66] new_context
             (VStr []) [x67; x66] new_context);
      [reflexivity|reflexivity|].
    apply (pairs_decode_cons _ 0 _ _ (VBool true) [x66] new_context
             (VInt 0) [] new_context);
      [reflexivity|reflexivity|constructor]. }
  split; [reflexivity|]. split; [exact Hpairs|].
  destruct (C10_dict_pairs float_str_unused [x02; x02; x01; x65; x67; x66]
              new_context) as (_ & Hdecode & _).
  destruct (Hdecode 2 [x02; x01; x65; x67; x66]
              [(VInt 1, VStr []); (VBool true, VInt 0)] [] new_context
              eq_refl Hpairs) as [E _].
  - repeat constructor.
  - exact E.
Defined.

(** * Further instances *)

(** X2 at AC 02 7B: one continuation byte, then 02; 300 is below 2^14. *)
Lemma read_7bit_returns_shape_witness :
  read_7bit_encoded_int [xac; x02; x7b] = Return (300, [x7b])
  /\ exists pre c,
       [xac; x02; x7b] = pre ++ c :: [x7b]
       /\ Forall continues pre
       /\ ~ continues c
       /\ 0 <= 300 < 2 ^ (7 * Z.of_nat (S (length pre))).
Proof.
  split; [reflexivity|].
  apply (read_7bit_returns_shape [xac; x02; x7b] 300 [x7b]). reflexivity.
Defined.

(** X4 at 300. *)
Lemma Integer_round_trip_witness :
  0 <= 300
  /\ Parser_parse float_str_unused (x02 :: encode_7bit 300 ++ [x7b])
       new_context
     = (Return (VInt 300, [x7b]), new_context).
Proof.
  split; [lia|].
  apply (Integer_round_trip float_str_unused 300 [x7b] new_context). lia.
Defined.

(** X5 at 2^31, whose top bit of four bytes is set. *)
Lemma read_int32_int64_round_trip_witness :
  0 <= 2147483648 < 2 ^ 32
  /\ read_int32 (to_bytes_little 4 2147483648 ++ [x7b])
     = Return (2147483648, [x7b])
  /\ read_int64 (to_bytes_little 8 2147483648 ++ [x7b])
     = Return (2147483648, [x7b]).
Proof.
  destruct (read_int32_int64_round_trip 2147483648 [x7b]) as [H32 H64].
  split; [lia|]. split; [apply H32|apply H64]; lia.
Defined.

(** X6 at -2, which is FE FF. *)
Lemma read_int16_signed_round_trip_witness :
  - 2 ^ 15 <= -2 < 2 ^ 15
  /\ read_int16 (to_bytes_little 2 ((-2) mod 2 ^ 16) ++ [x7b])
     = Return (-2, [x7b]).
Proof.
  split; [lia|]. apply (read_int16_signed_round_trip (-2) [x7b]). lia.
Defined.

(** X8 at index 1 of a table of two types. *)
Lemma type_reference_resolves_iff_witness :
  read_7bit_encoded_int [x01; x64] = Return (1, [x64])
  /\ Parser_parse float_str_unused [x19; x2b; x01; x64]
       {| type_table := [str "foo"; str "bar"]; string_table := [] |}
     = (Return (VStr (str "bar"), [x64]),
        {| type_table := [str "foo"; str "bar"]; string_table := [] |}).
Proof.
  split; [reflexivity|].
  destruct (type_reference_resolves_iff float_str_unused [x01; x64] 1 [x64]
              {| type_table := [str "foo"; str "bar"]; string_table := [] |}
              (str "bar") eq_refl) as [[_ H] _].
  apply H. reflexivity.
Defined.

(** X10 at the type "foo" decoded when the table held one type. *)
Lemma type_back_reference_any_index_witness :
  Parser_parse float_str_unused [x19; x05; x03; x66; x6f; x6f]
    {| type_table := [str "bar"]; string_table := [] |}
  = (Return (VStr (str "foo"), []),
     {| type_table := [str "bar"; str "foo"]; string_table := [] |})
  /\ Parser_parse float_str_unused [x19; x2b; x01; x64]
       {| type_table := [str "bar"; str "foo"]; string_table := [] |}
     = (Return (VStr (str "foo"), [x64]),
        {| type_table := [str "bar"; str "foo"]; string_table := [] |}).
Proof.
  split; [reflexivity|].
  apply (type_back_reference_any_index float_str_unused x05
           [x03; x66; x6f; x6f] (VStr (str "foo")) []
           {| type_table := [str "bar"]; string_table := [] |}
           {| type_table := [str "bar"; str "foo"]; string_table := [] |}
           {| type_table := [str "bar"; str "foo"]; string_table := [] |}
           [x01; x64] [x64]);
    [discriminate|reflexivity|apply rtc_refl|reflexivity].
Defined.

(** X11 at the indexed string "foo" decoded when the table held one
    string. *)
Lemma string_back_reference_any_index_witness :
  Parser_parse float_str_unused [x1e; x05; x03; x66; x6f; x6f]
    {| type_table := []; string_table := [str "bar"] |}
  = (Return (VStr (str "foo"), []),
     {| type_table := []; string_table := [str "bar"; str "foo"] |})
  /\ Parser_parse float_str_unused [x1f; x01; x64]
       {| type_table := []; string_table := [str "bar"; str "foo"] |}
     = (Return (VStr (str "foo"), [x64]),
        {| type_table := []; string_table := [str "bar"; str "foo"] |}).
Proof.
  split; [reflexivity|].
  apply (string_back_reference_any_index float_str_unused
           [x05; x03; x66; x6f; x6f] (VStr (str "foo")) []
           {| type_table := []; string_table := [str "bar"] |}
           {| type_table := []; string_table := [str "bar"; str "foo"] |}
           {| type_table := []; string_table := [str "bar"; str "foo"] |}
           x01 [x64]);
    [reflexivity|apply rtc_refl|reflexivity].
Defined.

(** X12 at "foo". *)
Lemma string_round_trip_witness :
  Forall (fun c => byte_val c < 0x80) [x66; x6f; x6f]
  /\ Parser_parse float_str_unused (encode_string [x66; x6f; x6f] ++ [x7b])
       new_context
     = (Return (VStr (str "foo"), [x7b]), new_context).
Proof.
  assert (H : Forall (fun c => byte_val c < 0x80) [x66; x6f; x6f])
    by (repeat (constructor; [reflexivity|]); constructor).
  split; [exact H|].
  apply (string_round_trip float_str_unused [x66; x6f; x6f] [x7b]
           new_context H).
Defined.

(** X13 at a declared length of 5 with one byte of payload. *)
Lemma string_short_payload_witness :
  0 <= 5 /\ Z.of_nat (length [x66]) < 5
  /\ Parser_parse float_str_unused (x05 :: encode_7bit 5 ++ [x66])
       new_context
     = (Raise (ViewStateException "Not enough bytes for string"),
        new_context).
Proof.
  split; [lia|]. split; [cbn; lia|].
  apply (string_short_payload float_str_unused 5 [x66] new_context);
    [lia|cbn; lia].
Defined.

(** X14 at 16 02 67 68 7B: the list of True and False. *)
Lemma list_length_and_bytes_witness :
  Parser_parse float_str_unused [x16; x02; x67; x68; x7b] new_context
  = (Return (VList [VBool true; VBool false], [x7b]), new_context)
  /\ exists n b1 items,
       read_7bit_encoded_int [x02; x67; x68; x7b] = Return (n, b1)
       /\ VList [VBool true; VBool false] = VList items
       /\ Z.of_nat (length items) = n
       /\ n + Z.of_nat (length [x7b]) <= Z.of_nat (length b1).
Proof.
  split; [reflexivity|].
  apply (list_length_and_bytes float_str_unused [x02; x67; x68; x7b]
           new_context (VList [VBool true; VBool false]) [x7b] new_context).
  reflexivity.
Defined.

(** X15 at 14 64 02 67 68. *)
Lemma typed_array_length_witness :
  Parser_parse float_str_unused [x14; x64; x02; x67; x68] new_context
  = (Return (VList [VBool true; VBool false], []), new_context)
  /\ exists type_ref b1 ctx1 n b2 items,
       Parser_parse float_str_unused [x64; x02; x67; x68] new_context
       = (Return (type_ref, b1), ctx1)
       /\ read_7bit_encoded_int b1 = Return (n, b2)
       /\ VList [VBool true; VBool false] = VList items
       /\ Z.of_nat (length items) = n.
Proof.
  split; [reflexivity|].
  apply (typed_array_length float_str_unused [x64; x02; x67; x68]
           new_context (VList [VBool true; VBool false]) [] new_context).
  reflexivity.
Defined.

(** X16 at 15 02 05 01 61 05 00: the string "a" and the empty string. *)
Lemma string_array_strings_witness :
  Parser_parse float_str_unused [x15; x02; x05; x01; x61; x05; x00]
    new_context
  = (Return (VList [VStr (str "a"); VStr []], []), new_context)
  /\ exists n b1 strs,
       read_7bit_encoded_int [x02; x05; x01; x61; x05; x00] = Return (n, b1)
       /\ VList [VStr (str "a"); VStr []] = VList (map VStr strs)
       /\ Z.of_nat (length strs) = n.
Proof.
  split; [reflexivity|].
  apply (string_array_strings float_str_unused
           [x02; x05; x01; x61; x05; x00] new_context
           (VList [VStr (str "a"); VStr []]) [] new_context).
  reflexivity.
Defined.

(** X17 at 3C 64 05 02 01 02 07 03 67: length 5, two entries. *)
Lemma sparse_array_shape_witness :
  Parser_parse float_str_unused
    [x3c; x64; x05; x02; x01; x02; x07; x03; x67] new_context
  = (Return (VList [VNone; VInt 7; VNone; VBool true; VNone], []),
     new_context)
  /\ exists type_ref b1 ctx1 len b2 count b3 items,
       Parser_parse float_str_unused
         [x64; x05; x02; x01; x02; x07; x03; x67] new_context
       = (Return (type_ref, b1), ctx1)
       /\ read_7bit_encoded_int b1 = Return (len, b2)
       /\ read_7bit_encoded_int b2 = Return (count, b3)
       /\ VList [VNone; VInt 7; VNone; VBool true; VNone] = VList items
       /\ Z.of_nat (length items) = len
       /\ Z.of_nat (count_values items) <= count.
Proof.
  split; [reflexivity|].
  apply (sparse_array_shape float_str_unused
           [x64; x05; x02; x01; x02; x07; x03; x67] new_context
           (VList [VNone; VInt 7; VNone; VBool true; VNone]) []
           new_context).
  reflexivity.
Defined.

(** X18 at a declared length of 100000, in six bytes, under an
    interpreter that has room for a million items. *)
Lemma sparse_array_length_unbounded_witness :
  0 <= 100000
  /\ Parser_parse_at py_default 3
       (x3c :: x64 :: encode_7bit 100000 ++ [x00]) new_context
     = (Return (VList (replicate (Z.to_nat 100000) VNone), []), new_context).
Proof.
  split; [lia|].
  exact (sparse_array_length_unbounded py_default 0 100000 [] new_context
           ltac:(lia)).
Defined.

(** X19 at 18 02 67 64 67 68: the key True twice, one entry. *)
Lemma dict_keys_distinct_witness :
  Parser_parse float_str_unused [x18; x02; x67; x64; x67; x68] new_context
  = (Return (VDict [(VBool true, VBool false)], []), new_context)
  /\ exists n b1 d,
       read_7bit_encoded_int [x02; x67; x64; x67; x68] = Return (n, b1)
       /\ VDict [(VBool true, VBool false)] = VDict d
       /\ distinct_keys d
       /\ Forall (fun e => hashable e.1 = true) d
       /\ Z.of_nat (length d) <= n.
Proof.
  split; [reflexivity|].
  apply (dict_keys_distinct float_str_unused x18 [x02; x67; x64; x67; x68]
           new_context (VDict [(VBool true, VBool false)]) [] new_context);
    [right; reflexivity|reflexivity].
Defined.

(** X20 at 18 01 16 00 64: the empty list as a key. *)
Lemma dict_unhashable_key_TypeError_witness :
  Parser_parse float_str_unused [x16; x00; x64] new_context
  = (Return (VList [], [x64]), new_context)
  /\ hashable (VList []) = false
  /\ Parser_parse float_str_unused [x18; x01; x16; x00; x64] new_context
     = (Raise TypeError, new_context).
Proof.
  split; [reflexivity|]. split; [reflexivity|].
  apply (dict_unhashable_key_TypeError float_str_unused x18
           [x01; x16; x00; x64] 1 [x16; x00; x64] 0%nat [] [x16; x00; x64]
           new_context new_context (VList []) [x64] new_context VNone []
           new_context);
    [right; reflexivity|reflexivity|cbn; lia|constructor|constructor
    |reflexivity|reflexivity|reflexivity].
Defined.

(** X21 at 02 AC 02, with 7B appended. *)
Lemma Parser_parse_extension_witness :
  Parser_parse float_str_unused [x02; xac; x02] new_context
  = (Return (VInt 300, []), new_context)
  /\ Parser_parse float_str_unused ([x02; xac; x02] ++ [x7b]) new_context
     = (Return (VInt 300, [] ++ [x7b]), new_context).
Proof.
  split; [reflexivity|].
  apply (Parser_parse_extension float_str_unused [x02; xac; x02] [x7b]
           new_context (VInt 300) [] new_context).
  reflexivity.
Defined.

(** X22 at FF 01 65, with twenty zero bytes appended. *)
Lemma trailer_attach_witness :
  parse_viewstate float_str_unused [xff; x01; x65]
  = Return {| value := VStr []; macEnabled := false; raw := [x65] |}
  /\ parse_viewstate float_str_unused ([xff; x01; x65] ++ replicate 20 x00)
     = Return {| value := VStr []; macEnabled := true;
                 raw := [x65] ++ replicate 20 x00 |}.
Proof.
  split; [reflexivity|].
  apply (trailer_attach float_str_unused [xff; x01; x65]
           {| value := VStr []; macEnabled := false; raw := [x65] |}
           (replicate 20 x00));
    [reflexivity|reflexivity|left; reflexivity].
Defined.

(** X24 at the index 200. *)
Lemma known_color_unknown_index_witness :
  5 <= 200
  /\ Parser_parse float_str_unused (x0a :: encode_7bit 200 ++ [x7b])
       new_context
     = (Return (VStr (str "KnownColor: Unknown"), [x7b]), new_context).
Proof.
  split; [lia|].
  apply (known_color_unknown_index float_str_unused 200 [x7b] new_context).
  lia.
Defined.


(** X26 at the marker check of the integer rule, on FF 01 02. *)
Lemma unreachable_raise_messages_witness :
  In "Invalid marker for Integer"%string unreachable_messages
  /\ parse_viewstate float_str_unused [xff; x01; x02]
     <> Raise (ViewStateException "Invalid marker for Integer").
Proof.
  assert (H : In "Invalid marker for Integer"%string unreachable_messages)
    by (cbn; tauto).
  split; [exact H|].
  apply (unreachable_raise_messages float_str_unused [xff; x01; x02]
           "Invalid marker for Integer" H).
Defined.

(** X27 at 10 ticks, one microsecond after 0001-01-01. *)
Lemma datetime_ticks_witness :
  0 <= 10 < 2 ^ 64
  /\ Parser_parse float_str_unused (x06 :: to_bytes_little 8 10 ++ [x7b])
       new_context
     = (Return (VDateTime 1, [x7b]), new_context).
Proof.
  split; [lia|].
  apply (datetime_ticks float_str_unused 10 [x7b] new_context). lia.
Defined.

(** X28 at the two bytes "ab". *)
Lemma binary_formatted_payload_witness :
  2 = Z.of_nat (length [x61; x62])
  /\ Parser_parse float_str_unused
       (x32 :: encode_7bit 2 ++ [x61; x62] ++ [x7b]) new_context
     = (Return (VStr (str "BinaryFormatted(b'ab')"), [x7b]), new_context)
  /\ Parser_parse float_str_unused
       (x32 :: encode_7bit 2 ++ removelast [x61; x62]) new_context
     = (Raise (ViewStateException
                 "Not enough data for binary formatted object"),
        new_context).
Proof.
  split; [reflexivity|].
  destruct (binary_formatted_payload float_str_unused 2 [x61; x62] [x7b]
              new_context eq_refl) as [Hok Hshort].
  split; [exact Hok|]. apply Hshort. discriminate.
Defined.
